(** * HalluShield verification pipeline: a shallow embedding

    The development follows the Python package [hallushield]:
    [types.py], [policy.py], [verifier.py], [evidence_retriever.py],
    [model_router.py], [memory_store.py], [claim_extractor.py] and
    [pipeline.py].

    Conventions of the embedding.
    - Python [float] values are rationals ([Q]) with exact arithmetic.  Every
      finite double is a rational, and a comparison of a double against one
      of the decimal literals of the code ([0.85], [0.1], [0.7], [0.5],
      [0.3]) has the same outcome as the comparison of the rationals.
    - Python [str] is [string]; case conversion is the ASCII one.
    - Python [None] in an [Optional] field is [None] of [option].
    - Python dictionaries keyed by strings are [gmap string _]. *)

From Stdlib Require Import QArith Qround String Ascii List ZArith Lia Bool.
From Stdlib Require Import DecimalString Lqa Qabs Sorted Permutation.
From stdpp Require Import gmap strings list fin_maps.

#[local] Set Warnings "-register-all".

Local Open Scope string_scope.
Local Open Scope Q_scope.

(** ** Comparisons on floats *)

Definition float := Q.

(** [x < y] as Python evaluates it. *)
Definition Qltb (x y : Q) : bool := negb (Qle_bool y x).

(** [x > y] as Python evaluates it. *)
Definition Qgtb (x y : Q) : bool := Qltb y x.

(** ** Python built-ins used by the package *)

Module Py.

Definition code (c : ascii) : nat := nat_of_ascii c.

Definition is_upper (c : ascii) : bool :=
  (65 <=? code c)%nat && (code c <=? 90)%nat.
Definition is_lower (c : ascii) : bool :=
  (97 <=? code c)%nat && (code c <=? 122)%nat.
Definition is_digit (c : ascii) : bool :=
  (48 <=? code c)%nat && (code c <=? 57)%nat.

(** The class [[A-Za-z0-9]] of [re]. *)
Definition is_alnum (c : ascii) : bool :=
  is_upper c || is_lower c || is_digit c.

(** [str.isspace] on one ASCII character: tab, line feed, vertical tab,
    form feed, carriage return, the four separators 28..31, and space. *)
Definition is_space (c : ascii) : bool :=
  ((9 <=? code c)%nat && (code c <=? 13)%nat)
  || ((28 <=? code c)%nat && (code c <=? 32)%nat).

Definition lower_char (c : ascii) : ascii :=
  if is_upper c then ascii_of_nat (code c + 32) else c.

(** [s.lower()] *)
Fixpoint lower (s : string) : string :=
  match s with
  | EmptyString => EmptyString
  | String c s' => String (lower_char c) (lower s')
  end.

(** [needle in hay] *)
Fixpoint contains (needle hay : string) : bool :=
  String.prefix needle hay
  || match hay with
     | EmptyString => false
     | String _ hay' => contains needle hay'
     end.

(** The maximal non-empty runs of characters satisfying [p], left to
    right; [cur] is the run being read, in reverse. *)
Fixpoint runs_from (p : ascii -> bool) (cur : list ascii) (s : string)
  : list string :=
  match s with
  | EmptyString =>
      match cur with
      | [] => []
      | _ => [string_of_list_ascii (rev cur)]
      end
  | String c s' =>
      if p c then runs_from p (c :: cur) s'
      else match cur with
           | [] => runs_from p [] s'
           | _ => string_of_list_ascii (rev cur) :: runs_from p [] s'
           end
  end.

Definition runs (p : ascii -> bool) (s : string) : list string :=
  runs_from p [] s.

(** [s.split()] with no argument: the maximal runs of non-space
    characters. *)
Definition split (s : string) : list string :=
  runs (fun c => negb (is_space c)) s.

(** [re.findall(r"[A-Za-z0-9]+", s)] *)
Definition findall_alnum (s : string) : list string := runs is_alnum s.

(** [s.replace(old, new)]: the occurrences of [old] are replaced left to
    right without overlap; [skip] counts the characters of a matched
    occurrence that are still to be dropped.  With an empty [old], [new]
    is inserted before every character and at the end. *)
Fixpoint replace_from (old new : string) (skip : nat) (s : string) : string :=
  match s with
  | EmptyString =>
      match old with
      | EmptyString => new
      | _ => EmptyString
      end
  | String c s' =>
      match skip with
      | S k => replace_from old new k s'
      | O =>
          if String.prefix old s then
            match old with
            | EmptyString => new ++ String c (replace_from old new 0 s')
            | _ => new ++ replace_from old new (String.length old - 1) s'
            end
          else String c (replace_from old new 0 s')
      end
  end.

Definition replace (s old new : string) : string :=
  replace_from old new 0 s.

Fixpoint lstrip (s : string) : string :=
  match s with
  | EmptyString => EmptyString
  | String c s' => if is_space c then lstrip s' else s
  end.

(** [s.rstrip()]: a suffix of spaces is dropped. *)
Fixpoint rstrip (s : string) : string :=
  match s with
  | EmptyString => EmptyString
  | String c s' =>
      match rstrip s' with
      | EmptyString => if is_space c then EmptyString else String c EmptyString
      | r => String c r
      end
  end.

(** [s.strip()] *)
Definition strip (s : string) : string := rstrip (lstrip s).

(** [str(n)] for an integer. *)
Definition str_of_Z (n : Z) : string := NilZero.string_of_int (Z.to_int n).

(** Truth value of a string: non-empty. *)
Definition truthy (s : string) : bool :=
  match s with EmptyString => false | _ => true end.

(** Truth value of an [Optional[str]]. *)
Definition truthy_opt (o : option string) : bool :=
  match o with Some s => truthy s | None => false end.

(** [o == s] for an optional string [o]. *)
Definition is_str (o : option string) (s : string) : bool :=
  match o with
  | Some x => String.eqb x s
  | None => false
  end.

(** [a or b] on optional strings. *)
Definition or_opt (a b : option string) : option string :=
  if truthy_opt a then a else b.

(** [a or b] where [b] is a string. *)
Definition or_str (a : option string) (b : string) : string :=
  match a with
  | Some s => if truthy s then s else b
  | None => b
  end.

(** [max(a, b)] and [min(a, b)] on floats: the first argument is kept
    unless the second is strictly better. *)
Definition max2 (a b : float) : float := if Qltb a b then b else a.
Definition min2 (a b : float) : float := if Qltb b a then b else a.

(** [max(xs)] on a non-empty list of floats, [None] on the empty one
    (Python raises [ValueError] there). *)
Definition max_list (xs : list float) : option float :=
  match xs with
  | [] => None
  | x :: xs' => Some (fold_left max2 xs' x)
  end.

(** [sum(1 for x in xs if f x)] *)
Definition count_if {A : Type} (f : A -> bool) (xs : list A) : Z :=
  fold_left (fun acc x => if f x then (acc + 1)%Z else acc) xs 0%Z.

(** [sum(f x for x in xs)] on floats. *)
Definition sum_of {A : Type} (f : A -> float) (xs : list A) : float :=
  fold_left (fun acc x => acc + f x) xs 0.

(** [len(xs)] *)
Definition len {A : Type} (xs : list A) : Z := Z.of_nat (length xs).

(** Exceptions are named by their class. *)
Inductive result (A : Type) : Type :=
| Ok (a : A)
| Raise (cls : string).
Arguments Ok {A} a.
Arguments Raise {A} cls.

Definition bind {A B : Type} (r : result A) (k : A -> result B) : result B :=
  match r with
  | Ok a => k a
  | Raise cls => Raise cls
  end.

End Py.

(** ** types.py *)

Module Claim.
Record t := mk {
  id : string;
  text : string;
  claim_type : string;
  source_sentence : string;
  position : Z
}.
End Claim.

Module Evidence.
Record t := mk {
  source_url : string;
  snippet : string;
  relevance_score : float;
  publish_date : option string;
  credibility_score : float
}.
End Evidence.

Module VerificationResult.
Record t := mk {
  claim_id : string;
  support_score : float;
  contradiction_score : float;
  neutral_score : float;
  evidence_agreement : float;
  source_count : Z;
  evidence_ids : list string
}.
End VerificationResult.

Module Decision.
Record t := mk {
  claim_id : string;
  action : string;
  original_claim : string;
  corrected_claim : option string;
  evidence_urls : list string;
  confidence : float;
  reasoning : string
}.
End Decision.

(** ** policy.py *)

Module AdaptiveDecisionPolicy.

Import VerificationResult.

Definition _rule_based_action (verification : VerificationResult.t) : string :=
  if Qgtb (support_score verification) 0.85
     && Qltb (contradiction_score verification) 0.1
  then "ACCEPT"
  else if Qgtb (contradiction_score verification) 0.7
  then "CORRECT"
  else if (source_count verification <? 2)%Z
          || Qltb (evidence_agreement verification) 0.5
  then "ABSTAIN"
  else "FLAG_FOR_HUMAN".

Definition _reasoning (action : string) : string :=
  if String.eqb action "ACCEPT" then "Evidence supports the claim."
  else if String.eqb action "CORRECT" then "Evidence contradicts the claim."
  else if String.eqb action "ABSTAIN" then "Insufficient evidence confidence."
  else "Mixed evidence signals; requires review.".

Definition decide (claim : Claim.t) (verification : VerificationResult.t)
    (evidence : list Evidence.t) : Decision.t :=
  let action := _rule_based_action verification in
  {| Decision.claim_id := Claim.id claim;
     Decision.action := action;
     Decision.original_claim := Claim.text claim;
     Decision.corrected_claim := None;
     Decision.evidence_urls := map Evidence.source_url evidence;
     Decision.confidence := evidence_agreement verification;
     Decision.reasoning := _reasoning action |}.

End AdaptiveDecisionPolicy.

(** ** verifier.py *)

(** Values of the [json] library: what [json.loads] returns.  [JNull] is
    Python's [None]. *)
Inductive json : Type :=
| JNull
| JBool (b : bool)
| JNum (x : float)
| JStr (s : string)
| JArr (items : list json)
| JObj (members : list (string * json)).

Module NLIVerifier.

Import Py.

(** [d.get(key, default)] on a dictionary read from JSON: of several
    members with the same key the last one is the dictionary's. *)
Fixpoint dict_get (members : list (string * json)) (key : string)
    (default : json) : json :=
  match members with
  | [] => default
  | (k, v) :: rest =>
      if String.eqb k key then dict_get rest key v
      else dict_get rest key default
  end.

(** [obj.get(key, default)] on any parsed value: only a dictionary has the
    method. *)
Definition get (obj : json) (key : string) (default : json) : result json :=
  match obj with
  | JObj members => Ok (dict_get members key default)
  | _ => Raise "AttributeError"
  end.

(** The newline and the double quote characters. *)
Definition nl : string := String (ascii_of_nat 10) EmptyString.
Definition dq : string := String (ascii_of_nat 34) EmptyString.

(** [sep.join(parts)] *)
Fixpoint join (sep : string) (parts : list string) : string :=
  match parts with
  | [] => EmptyString
  | [p] => p
  | p :: rest => p ++ sep ++ join sep rest
  end.

(** The first and the last index of a character in a string. *)
Fixpoint find_char (c : ascii) (s : string) : option nat :=
  match s with
  | EmptyString => None
  | String d s' =>
      if Ascii.eqb d c then Some O
      else match find_char c s' with
           | Some i => Some (S i)
           | None => None
           end
  end.

Fixpoint rfind_char (c : ascii) (s : string) : option nat :=
  match s with
  | EmptyString => None
  | String d s' =>
      match rfind_char c s' with
      | Some i => Some (S i)
      | None => if Ascii.eqb d c then Some O else None
      end
  end.

(** [s[n:]] for a natural [n]. *)
Fixpoint drop_str (n : nat) (s : string) : string :=
  match n, s with
  | O, _ => s
  | S k, EmptyString => EmptyString
  | S k, String _ s' => drop_str k s'
  end.

(** [s[:n]] for a natural [n]. *)
Fixpoint take_str (n : nat) (s : string) : string :=
  match n, s with
  | O, _ => EmptyString
  | S k, EmptyString => EmptyString
  | S k, String c s' => String c (take_str k s')
  end.

Definition lbrace : ascii := ascii_of_nat 123.
Definition rbrace : ascii := ascii_of_nat 125.

(** [re.search(r"\{.*\}", text, re.DOTALL)], as the matched text
    ([m.group(0)]): the search takes the leftmost position where the
    pattern matches, that is the first opening brace that has a closing
    brace after it; the star is greedy and with [DOTALL] the dot matches
    every character, so the match runs to the last closing brace. *)
Definition search_braces (text : string) : option string :=
  match find_char lbrace text with
  | None => None
  | Some i =>
      let rest := drop_str (S i) text in
      match rfind_char rbrace rest with
      | None => None
      | Some j => Some (String lbrace (take_str (S j) rest))
      end
  end.

Section Verifier.

(** [json.loads]: the parsed value, or [None] for [json.JSONDecodeError]. *)
Variable json_loads : string -> option json.

(** [float(s)] on a string: the number, or [None] for [ValueError]. *)
Variable float_of_str : string -> option float.

(** The chat model of a provider class, called with a model name and a
    prompt: the text of the reply, or the exception of the call. *)
Variable llm_ainvoke : string -> string -> string -> result string.

(** The environment variables read by the verifier, and the two keys it
    reads when it is built. *)
Variable HALLUSHIELD_PROVIDER : option string.
Variable HALLUSHIELD_VERIFIER_MODEL : option string.
Variable GEMINI_API_KEY : option string.
Variable anthropic_api_key : option string.
Variable openai_api_key : option string.
Variable default_model : option string.

Definition _parse_json (text : string) : json :=
  match json_loads text with
  | Some v => v
  | None =>
      match search_braces text with
      | None => JNull
      | Some m =>
          match json_loads m with
          | Some v => v
          | None => JNull
          end
      end
  end.

Fixpoint evidence_blocks (i : Z) (evidence_list : list Evidence.t)
  : list string :=
  match evidence_list with
  | [] => []
  | e :: rest =>
      ("Source " ++ str_of_Z (i + 1) ++ " (" ++ Evidence.source_url e ++ "):"
       ++ nl ++ Evidence.snippet e)
      :: evidence_blocks (i + 1) rest
  end.

Definition _build_prompt (claim : string) (evidence_list : list Evidence.t)
  : string :=
  let evidence_text := join (nl ++ nl) (evidence_blocks 0 evidence_list) in
  "You are a fact-verification expert. Analyze if the evidence supports, contradicts, or is neutral to the claim." ++ nl ++ nl
  ++ "CLAIM: " ++ claim ++ nl ++ nl
  ++ "EVIDENCE:" ++ nl ++ evidence_text ++ nl ++ nl
  ++ "Return ONLY a JSON object with this exact structure (no markdown, no code blocks):" ++ nl
  ++ "{" ++ nl
  ++ "  " ++ dq ++ "verdict" ++ dq ++ ": " ++ dq ++ "SUPPORTED" ++ dq ++ " | "
     ++ dq ++ "CONTRADICTED" ++ dq ++ " | " ++ dq ++ "NEUTRAL" ++ dq ++ "," ++ nl
  ++ "  " ++ dq ++ "support_score" ++ dq ++ ": 0.0-1.0," ++ nl
  ++ "  " ++ dq ++ "contradiction_score" ++ dq ++ ": 0.0-1.0," ++ nl
  ++ "  " ++ dq ++ "neutral_score" ++ dq ++ ": 0.0-1.0," ++ nl
  ++ "  " ++ dq ++ "confidence" ++ dq ++ ": 0.0-1.0," ++ nl
  ++ "  " ++ dq ++ "reasoning" ++ dq ++ ": " ++ dq ++ "brief explanation" ++ dq ++ "," ++ nl
  ++ "  " ++ dq ++ "supporting_evidence_indices" ++ dq ++ ": []" ++ nl
  ++ "}" ++ nl ++ nl
  ++ "Scores must sum to 1.0.".

(** One provider branch of [_verify_with_llm]: build the prompt, call the
    chat model, parse the reply. *)
Definition ask (cls : string) (model : option string) (fallback : string)
    (claim : string) (evidence_list : list Evidence.t) : result json :=
  let model := or_str model fallback in
  let content := _build_prompt claim evidence_list in
  bind (llm_ainvoke cls model content) (fun resp => Ok (_parse_json resp)).

Definition _verify_with_llm (claim : string) (evidence_list : list Evidence.t)
  : result json :=
  let provider := HALLUSHIELD_PROVIDER in
  let model := or_opt HALLUSHIELD_VERIFIER_MODEL default_model in
  let provider :=
    if is_str provider "groq" then Some "google"
    else provider in
  if is_str provider "google" && truthy_opt GEMINI_API_KEY
  then ask "ChatGoogleGenerativeAI" model "gemini-2.5-flash" claim evidence_list
  else if is_str provider "anthropic"
          && truthy_opt anthropic_api_key
  then ask "ChatAnthropic" model "claude-3-haiku-20240307" claim evidence_list
  else if is_str provider "openai"
          && truthy_opt openai_api_key
  then ask "ChatOpenAI" model "gpt-4o-mini" claim evidence_list
  else Ok JNull.

Definition _heuristic_support (claim : string) (evidence_list : list Evidence.t)
  : float :=
  let tokens :=
    map lower
      (List.filter (fun t => (4 <=? String.length t)%nat)
         (findall_alnum claim)) in
  match tokens with
  | [] => 0.3
  | _ =>
      let scores :=
        map (fun e =>
               let hay := lower (Evidence.snippet e) in
               let hit := count_if (fun t => contains t hay) tokens in
               inject_Z hit / inject_Z (Z.max 1 (len tokens)))
            evidence_list in
      let base :=
        match max_list scores with
        | Some m => m
        | None => 0.0
        end in
      max2 0.0 (min2 1.0 (0.2 + 0.8 * base))
  end.

(** [float(v)] on a parsed value. *)
Definition to_float (v : json) : result float :=
  match v with
  | JNum x => Ok x
  | JBool b => Ok (if b then 1 else 0)
  | JStr s =>
      match float_of_str s with
      | Some x => Ok x
      | None => Raise "ValueError"
      end
  | _ => Raise "TypeError"
  end.

Definition verify (claim_id claim : string) (evidence_list : list Evidence.t)
  : result VerificationResult.t :=
  match evidence_list with
  | [] =>
      Ok {| VerificationResult.claim_id := claim_id;
            VerificationResult.support_score := 0.0;
            VerificationResult.contradiction_score := 0.0;
            VerificationResult.neutral_score := 1.0;
            VerificationResult.evidence_agreement := 0.0;
            VerificationResult.source_count := 0;
            VerificationResult.evidence_ids := [] |}
  | _ =>
      bind (_verify_with_llm claim evidence_list) (fun llm_result =>
      match llm_result with
      | JNull =>
          let support := _heuristic_support claim evidence_list in
          let contradiction := 0.0 in
          let neutral := max2 0.0 (1.0 - support - contradiction) in
          Ok {| VerificationResult.claim_id := claim_id;
                VerificationResult.support_score := support;
                VerificationResult.contradiction_score := contradiction;
                VerificationResult.neutral_score := neutral;
                VerificationResult.evidence_agreement := support;
                VerificationResult.source_count := len evidence_list;
                VerificationResult.evidence_ids :=
                  map Evidence.source_url evidence_list |}
      | _ =>
          bind (bind (get llm_result "support_score" (JNum 0.0)) to_float)
            (fun support =>
          bind (bind (get llm_result "contradiction_score" (JNum 0.0)) to_float)
            (fun contradiction =>
          bind (bind (get llm_result "neutral_score" (JNum 1.0)) to_float)
            (fun neutral =>
          bind (bind (get llm_result "confidence" (JNum 0.0)) to_float)
            (fun agreement =>
          Ok {| VerificationResult.claim_id := claim_id;
                VerificationResult.support_score := support;
                VerificationResult.contradiction_score := contradiction;
                VerificationResult.neutral_score := neutral;
                VerificationResult.evidence_agreement := agreement;
                VerificationResult.source_count := len evidence_list;
                VerificationResult.evidence_ids :=
                  map Evidence.source_url evidence_list |}))))
      end)
  end.

End Verifier.

End NLIVerifier.

(** ** evidence_retriever.py *)

Module EvidenceRetriever.

Import Py.

(** What a provider's HTTP call ([client.get], [raise_for_status],
    [r.json()]) comes to: the items of the reply, an [httpx.HTTPError]
    (transport failure, timeout, error status), or another exception
    (for instance a body that is not JSON). *)
Inductive response (A : Type) : Type :=
| Replied (items : list A)
| HTTPError
| Failed (cls : string).
Arguments Replied {A} items.
Arguments HTTPError {A}.
Arguments Failed {A} cls.

(** An entry of [data["web"]["results"]] of the web search. *)
Record web_item := {
  url : option string;
  description : option string;
  age : option string
}.

(** An entry of [data["query"]["search"]] of the reference provider. *)
Record wiki_item := {
  title : option string;
  wiki_snippet : option string
}.

(** [range(n)] *)
Definition range (n : Z) : list Z := map Z.of_nat (seq 0 (Z.to_nat n)).

(** [xs[:k]]: a negative [k] counts from the end. *)
Definition take {A : Type} (k : Z) (xs : list A) : list A :=
  if (0 <=? k)%Z then firstn (Z.to_nat k) xs
  else firstn (Z.to_nat (len xs + k)) xs.

(** The placeholder result set of [_search_web]. *)
Definition placeholders (first_score credibility : float) (claim : string)
    (top_k : Z) : list Evidence.t :=
  map (fun i =>
         {| Evidence.source_url :=
              "https://example.com/evidence/" ++ str_of_Z i;
            Evidence.snippet := "Placeholder evidence for: " ++ claim;
            Evidence.relevance_score := first_score - inject_Z i * 0.1;
            Evidence.publish_date := None;
            Evidence.credibility_score := credibility |})
      (range top_k).

(** [o or ""] *)
Definition or_empty (o : option string) : string :=
  match o with
  | Some s => s
  | None => EmptyString
  end.

(** [<span class="searchmatch">] *)
Definition searchmatch_open : string :=
  "<span class=" ++ NLIVerifier.dq ++ "searchmatch" ++ NLIVerifier.dq ++ ">".

Section Retriever.

(** [self.brave_api_key], read from the environment. *)
Variable brave_api_key : option string.

(** Whether [import httpx] succeeded. *)
Variable httpx_available : bool.

(** The two HTTP calls, given the query and the requested count. *)
Variable brave_get : string -> Z -> response web_item.
Variable wikipedia_get : string -> Z -> response wiki_item.

Definition web_evidence (item : web_item) : list Evidence.t :=
  let url := or_empty (url item) in
  let snippet := strip (or_empty (description item)) in
  if negb (truthy url) || negb (truthy snippet) then []
  else [ {| Evidence.source_url := url;
            Evidence.snippet := snippet;
            Evidence.relevance_score := 0.75;
            Evidence.publish_date := age item;
            Evidence.credibility_score := 0.7 |} ].

Definition _search_web (claim : string) (top_k : Z) : result (list Evidence.t) :=
  if negb (truthy_opt brave_api_key) then
    Ok (placeholders 0.8 0.6 claim top_k)
  else if negb httpx_available then
    Ok (placeholders 0.7 0.5 claim top_k)
  else
    match brave_get claim (Z.max 1 top_k) with
    | HTTPError => Ok (placeholders 0.7 0.5 claim top_k)
    | Failed cls => Raise cls
    | Replied items => Ok (concat (map web_evidence (take top_k items)))
    end.

Definition wiki_evidence (item : wiki_item) : list Evidence.t :=
  let snippet :=
    replace (replace (or_empty (wiki_snippet item)) searchmatch_open "")
            "</span>" "" in
  if negb (truthy_opt (title item)) || negb (truthy snippet) then []
  else [ {| Evidence.source_url :=
              "https://en.wikipedia.org/wiki/"
              ++ replace (or_empty (title item)) " " "_";
            Evidence.snippet := snippet;
            Evidence.relevance_score := 0.65;
            Evidence.publish_date := None;
            Evidence.credibility_score := 0.8 |} ].

Definition _search_wikipedia (claim : string) (top_k : Z)
  : result (list Evidence.t) :=
  if (top_k <=? 0)%Z then Ok []
  else if negb httpx_available then Ok []
  else
    match wikipedia_get claim top_k with
    | HTTPError => Ok []
    | Failed cls => Raise cls
    | Replied items => Ok (concat (map wiki_evidence (take top_k items)))
    end.

(** Insertion into a list sorted by decreasing relevance; [e] comes from an
    earlier position than the elements of [sorted], so it stays before those
    of equal relevance (the sort is stable). *)
Fixpoint insert_desc (e : Evidence.t) (sorted : list Evidence.t)
  : list Evidence.t :=
  match sorted with
  | [] => [e]
  | x :: rest =>
      if Qltb (Evidence.relevance_score e) (Evidence.relevance_score x)
      then x :: insert_desc e rest
      else e :: sorted
  end.

(** [sorted(evidence, key=relevance_score, reverse=True)] *)
Definition sorted_desc (evidence : list Evidence.t) : list Evidence.t :=
  fold_right insert_desc [] evidence.

Definition _rank_evidence (evidence : list Evidence.t) : list Evidence.t :=
  let rescored :=
    map (fun e =>
           {| Evidence.source_url := Evidence.source_url e;
              Evidence.snippet := Evidence.snippet e;
              Evidence.relevance_score :=
                Evidence.relevance_score e * Evidence.credibility_score e;
              Evidence.publish_date := Evidence.publish_date e;
              Evidence.credibility_score := Evidence.credibility_score e |})
        evidence in
  sorted_desc rescored.

Definition retrieve (claim : string) (top_k : Z) : result (list Evidence.t) :=
  bind (_search_web claim (Z.min 3 top_k)) (fun web_results =>
  let evidence := web_results in
  bind (_search_wikipedia claim (Z.min 2 (Z.max 0 (top_k - len evidence))))
    (fun wiki_results =>
  let evidence := (evidence ++ wiki_results)%list in
  let ranked := _rank_evidence evidence in
  Ok (take top_k ranked))).

End Retriever.

End EvidenceRetriever.

(** ** model_router.py *)

Module ModelResponse.
Record t := mk {
  text : string;
  model : string;
  provider : string;
  tier : string;
  tokens : Z;
  cost : float;
  metadata : list (string * json)
}.
End ModelResponse.

Module ModelRouter.

Import Py.

(** [self.stats] *)
Record stats_t := {
  slm_calls : Z;
  llm_calls : Z;
  escalations : Z;
  total_cost : float;
  cost_saved : float
}.

(** A router: its statistics, and the number of provider calls it has
    made, by which the replies of the providers are indexed. *)
Record t := mk {
  stats : stats_t;
  api_calls : nat
}.

(** [ModelRouter()] *)
Definition new : t :=
  {| stats := {| slm_calls := 0; llm_calls := 0; escalations := 0;
                 total_cost := 0.0; cost_saved := 0.0 |};
     api_calls := 0 |}.

Definition with_stats (r : t) (s : stats_t) : t :=
  {| stats := s; api_calls := api_calls r |}.

Definition tick (r : t) : t :=
  {| stats := stats r; api_calls := S (api_calls r) |}.

Definition add_slm_call (r : t) : t :=
  let s := stats r in
  with_stats r {| slm_calls := slm_calls s + 1; llm_calls := llm_calls s;
                  escalations := escalations s; total_cost := total_cost s;
                  cost_saved := cost_saved s |}.

Definition add_llm_call (r : t) : t :=
  let s := stats r in
  with_stats r {| slm_calls := slm_calls s; llm_calls := llm_calls s + 1;
                  escalations := escalations s; total_cost := total_cost s;
                  cost_saved := cost_saved s |}.

Definition add_escalation (r : t) : t :=
  let s := stats r in
  with_stats r {| slm_calls := slm_calls s; llm_calls := llm_calls s;
                  escalations := escalations s + 1; total_cost := total_cost s;
                  cost_saved := cost_saved s |}.

Definition add_total_cost (r : t) (c : float) : t :=
  let s := stats r in
  with_stats r {| slm_calls := slm_calls s; llm_calls := llm_calls s;
                  escalations := escalations s; total_cost := total_cost s + c;
                  cost_saved := cost_saved s |}.

Definition add_cost_saved (r : t) (c : float) : t :=
  let s := stats r in
  with_stats r {| slm_calls := slm_calls s; llm_calls := llm_calls s;
                  escalations := escalations s; total_cost := total_cost s;
                  cost_saved := cost_saved s + c |}.

(** [self.cost_table.get(tier, 1.0)] *)
Definition cost_table (tier : string) : float :=
  if String.eqb tier "slm" then 0.10
  else if String.eqb tier "llm_flash" then 0.50
  else if String.eqb tier "llm_pro" then 2.00
  else 1.0.

Definition _calculate_cost (tokens : Z) (tier : string) : float :=
  (inject_Z tokens / 1000000) * cost_table tier.

(** [int(x)] for a float that is not negative. *)
Definition int_of (x : float) : Z := Qfloor x.

(** What the providers' clients return. *)
Record groq_completion := {
  groq_content : string;
  groq_usage : option (Z * Z * Z);
  groq_finish_reason : json
}.

Record hf_completion := {
  hf_content : string;
  hf_finish_reason : option json
}.

Record claude_message := {
  claude_text : string;
  claude_input_tokens : Z;
  claude_output_tokens : Z;
  claude_stop_reason : json
}.

Section Router.

(** The keys read from the environment. *)
Variable GROQ_API_KEY : option string.
Variable HF_TOKEN : option string.
Variable GEMINI_API_KEY : option string.
Variable ANTHROPIC_API_KEY : option string.

(** The providers' chat calls; the first argument is the number of provider
    calls the router has made before, so that a provider may answer the same
    request differently from one call to the next. *)
Variable groq_create : nat -> string -> string -> result groq_completion.
Variable hf_create : nat -> string -> result hf_completion.
Variable gemini_generate : nat -> string -> string -> result string.
Variable claude_create : nat -> string -> result claude_message.

Definition _call_groq (query model : string) (r : t)
  : result ModelResponse.t * t :=
  if negb (truthy_opt GROQ_API_KEY) then (Raise "ValueError", r)
  else
    match groq_create (api_calls r) query model with
    | Raise cls => (Raise cls, tick r)
    | Ok chat_completion =>
        let r := tick r in
        let total_tokens :=
          match groq_usage chat_completion with
          | Some (_, _, total) => total
          | None => 0%Z
          end in
        let cost := _calculate_cost total_tokens "slm" in
        let r := add_total_cost r cost in
        (Ok {| ModelResponse.text := groq_content chat_completion;
               ModelResponse.model := model;
               ModelResponse.provider := "groq";
               ModelResponse.tier := "slm";
               ModelResponse.tokens := total_tokens;
               ModelResponse.cost := cost;
               ModelResponse.metadata :=
                 [ ("finish_reason", groq_finish_reason chat_completion);
                   ("prompt_tokens",
                    JNum (inject_Z match groq_usage chat_completion with
                                   | Some (p, _, _) => p
                                   | None => 0%Z
                                   end));
                   ("completion_tokens",
                    JNum (inject_Z match groq_usage chat_completion with
                                   | Some (_, c, _) => c
                                   | None => 0%Z
                                   end)) ] |}, r)
    end.

Definition _call_huggingface (query : string) (r : t)
  : result ModelResponse.t * t :=
  if negb (truthy_opt HF_TOKEN) then (Raise "ValueError", r)
  else
    match hf_create (api_calls r) query with
    | Raise cls => (Raise cls, tick r)
    | Ok response =>
        let r := tick r in
        let response_text := hf_content response in
        let estimated_tokens :=
          int_of (inject_Z (len (split response_text)) * 1.3) in
        let cost := _calculate_cost estimated_tokens "slm" in
        let r := add_total_cost r cost in
        (Ok {| ModelResponse.text := response_text;
               ModelResponse.model := "Mistral-7B-Instruct-v0.3";
               ModelResponse.provider := "huggingface";
               ModelResponse.tier := "slm";
               ModelResponse.tokens := estimated_tokens;
               ModelResponse.cost := cost;
               ModelResponse.metadata :=
                 [ ("finish_reason",
                    match hf_finish_reason response with
                    | Some f => f
                    | None => JStr "stop"
                    end) ] |}, r)
    end.

Definition _call_slm (query model : string) (r : t)
  : result ModelResponse.t * t :=
  let r := add_slm_call r in
  match _call_groq query model r with
  | (Ok response, r) => (Ok response, r)
  | (Raise _, r) =>
      match _call_huggingface query r with
      | (Ok response, r) => (Ok response, r)
      | (Raise _, r) => (Raise "Exception", r)
      end
  end.

Definition _call_gemini (query model : string) (r : t)
  : result ModelResponse.t * t :=
  if negb (truthy_opt GEMINI_API_KEY) then (Raise "ValueError", r)
  else
    match gemini_generate (api_calls r) query model with
    | Raise cls => (Raise cls, tick r)
    | Ok response_text =>
        let r := tick r in
        let estimated_tokens :=
          int_of (inject_Z (len (split query)) * 1.3
                  + inject_Z (len (split response_text)) * 1.3) in
        let cost_tier :=
          if contains "flash" (lower model) then "llm_flash" else "llm_pro" in
        let cost := _calculate_cost estimated_tokens cost_tier in
        let r := add_total_cost r cost in
        (Ok {| ModelResponse.text := response_text;
               ModelResponse.model := model;
               ModelResponse.provider := "gemini";
               ModelResponse.tier := "llm";
               ModelResponse.tokens := estimated_tokens;
               ModelResponse.cost := cost;
               ModelResponse.metadata := [ ("model_version", JStr model) ] |},
         r)
    end.

Definition _call_claude (query : string) (r : t)
  : result ModelResponse.t * t :=
  if negb (truthy_opt ANTHROPIC_API_KEY) then (Raise "ValueError", r)
  else
    match claude_create (api_calls r) query with
    | Raise cls => (Raise cls, tick r)
    | Ok message =>
        let r := tick r in
        let total_tokens :=
          (claude_input_tokens message + claude_output_tokens message)%Z in
        let cost := _calculate_cost total_tokens "llm_pro" in
        let r := add_total_cost r cost in
        (Ok {| ModelResponse.text := claude_text message;
               ModelResponse.model := "claude-sonnet-4-20250514";
               ModelResponse.provider := "anthropic";
               ModelResponse.tier := "llm";
               ModelResponse.tokens := total_tokens;
               ModelResponse.cost := cost;
               ModelResponse.metadata :=
                 [ ("stop_reason", claude_stop_reason message);
                   ("input_tokens",
                    JNum (inject_Z (claude_input_tokens message)));
                   ("output_tokens",
                    JNum (inject_Z (claude_output_tokens message))) ] |}, r)
    end.

Definition _call_llm (query model : string) (r : t)
  : result ModelResponse.t * t :=
  let r := add_llm_call r in
  match _call_gemini query model r with
  | (Ok response, r) => (Ok response, r)
  | (Raise _, r) =>
      match _call_claude query r with
      | (Ok response, r) => (Ok response, r)
      | (Raise _, r) => (Raise "Exception", r)
      end
  end.

Definition get_response (query model_tier slm_model llm_model : string) (r : t)
  : result ModelResponse.t * t :=
  if String.eqb model_tier "llm" then _call_llm query llm_model r
  else if String.eqb model_tier "slm" then _call_slm query slm_model r
  else _call_slm query slm_model r.

End Router.

(** Rounding to the nearest integer, ties to the even one, as the format
    specifications round. *)
Definition round_half_even (x : Q) : Z :=
  let f := Qfloor x in
  let rem := x - inject_Z f in
  if Qltb rem 0.5 then f
  else if Qltb 0.5 rem then (f + 1)%Z
  else if Z.even f then f else (f + 1)%Z.

(** [n] in decimal, padded with zeros on the left to [width] digits. *)
Fixpoint zero_pad (width : nat) (s : string) : string :=
  match width with
  | O => s
  | S w =>
      if (String.length s <? width)%nat then zero_pad w ("0" ++ s) else s
  end.

(** [format(x, ".<digits>f")] *)
Definition format_fixed (digits : nat) (x : float) : string :=
  let scale := (10 ^ Z.of_nat digits)%Z in
  let n := round_half_even (Qabs x * inject_Z scale) in
  let whole := str_of_Z (n / scale) in
  let frac := zero_pad digits (str_of_Z (n mod scale)) in
  (if Qltb x 0 then "-" else "")
  ++ whole ++ (match digits with O => "" | _ => "." ++ frac end).

(** [format(x, ".1%")] *)
Definition format_percent1 (x : float) : string :=
  format_fixed 1 (x * 100) ++ "%".

Definition uncertainty_phrases : list string :=
  [ "i don't know";
    "i'm not sure";
    "i cannot";
    "i don't have";
    "unclear";
    "uncertain";
    "i cannot confirm" ].

Definition should_escalate (slm_response : ModelResponse.t)
    (hallucination_score confidence : float) : bool * string :=
  let text := lower (ModelResponse.text slm_response) in
  if existsb (fun phrase => contains phrase text) uncertainty_phrases then
    (true, "SLM expressed uncertainty")
  else if Qgtb hallucination_score 0.3 then
    (true, "High hallucination rate: " ++ format_percent1 hallucination_score)
  else if Qltb confidence 0.5 then
    (true, "Low verification confidence: " ++ format_fixed 2 confidence)
  else if (len (split text) <? 10)%Z then
    (true, "Response too brief, may lack detail")
  else (false, "No escalation needed").

End ModelRouter.

(** ** memory_store.py *)

(** The store as it is built without a database URL: [_enabled] is false
    and the in-memory dictionary is the whole store. *)
Module MemoryStore.

Record payload := {
  action : string;
  corrected_claim : option string;
  evidence_urls : list string;
  confidence : float
}.

Record t := mk {
  _in_memory : gmap string payload
}.

Definition new : t := {| _in_memory := ∅ |}.

Definition check_claim (self : t) (claim_text : string) : option payload :=
  _in_memory self !! claim_text.

Definition store_verification (self : t) (claim_text action : string)
    (corrected_claim : option string) (evidence_urls : list string)
    (confidence : float) : t :=
  let payload :=
    {| action := action;
       corrected_claim := corrected_claim;
       evidence_urls := evidence_urls;
       confidence := confidence |} in
  {| _in_memory := <[claim_text := payload]> (_in_memory self) |}.

End MemoryStore.

(** ** state.py *)

Module HalluShieldState.

(** An entry of [modifications]: a dictionary tagged by its ["type"]. *)
Inductive modification : Type :=
| Correction (original corrected : string) (evidence : list string)
| Uncertainty (claim reason : string)
| Flagged (claim reason : string).

Record claim_breakdown_t := {
  total_claims : Z;
  verified : Z;
  corrected : Z;
  abstained : Z;
  flagged : Z
}.

Record final_answer_t := {
  verified_answer : string;
  original_answer : string;
  modifications : list modification;
  hallucination_score : float;
  confidence : float;
  claim_breakdown : claim_breakdown_t
}.

(** The state dictionary: a key that may be absent is an [option]. The
    wall-clock [processing_time] is left out. *)
Record t := mk {
  query : string;
  user_id : option string;
  raw_llm_response : option string;
  llm_metadata : option (gmap string json);
  claims : option (list Claim.t);
  evidence_map : option (gmap string (list Evidence.t));
  verification_results : option (gmap string VerificationResult.t);
  decisions : option (list Decision.t);
  cached_claims : option (gmap string MemoryStore.payload);
  final_answer : option final_answer_t;
  should_escalate : option bool;
  escalation_reason : option string;
  hallucination_score_detected : option float;
  confidence_detected : option float;
  force_llm_tier : option bool;
  errors : list string
}.

(** [state.update({raw_llm_response, llm_metadata})] *)
Definition update_call_llm (s : t) (v_raw_llm_response : string) (v_llm_metadata : (gmap string json)) : t :=
  {| query := query s;
     user_id := user_id s;
     raw_llm_response := Some v_raw_llm_response;
     llm_metadata := Some v_llm_metadata;
     claims := claims s;
     evidence_map := evidence_map s;
     verification_results := verification_results s;
     decisions := decisions s;
     cached_claims := cached_claims s;
     final_answer := final_answer s;
     should_escalate := should_escalate s;
     escalation_reason := escalation_reason s;
     hallucination_score_detected := hallucination_score_detected s;
     confidence_detected := confidence_detected s;
     force_llm_tier := force_llm_tier s;
     errors := errors s |}.

(** [state.update({claims})] *)
Definition update_claims (s : t) (v_claims : (list Claim.t)) : t :=
  {| query := query s;
     user_id := user_id s;
     raw_llm_response := raw_llm_response s;
     llm_metadata := llm_metadata s;
     claims := Some v_claims;
     evidence_map := evidence_map s;
     verification_results := verification_results s;
     decisions := decisions s;
     cached_claims := cached_claims s;
     final_answer := final_answer s;
     should_escalate := should_escalate s;
     escalation_reason := escalation_reason s;
     hallucination_score_detected := hallucination_score_detected s;
     confidence_detected := confidence_detected s;
     force_llm_tier := force_llm_tier s;
     errors := errors s |}.

(** [state.update({cached_claims})] *)
Definition update_cached_claims (s : t) (v_cached_claims : (gmap string MemoryStore.payload)) : t :=
  {| query := query s;
     user_id := user_id s;
     raw_llm_response := raw_llm_response s;
     llm_metadata := llm_metadata s;
     claims := claims s;
     evidence_map := evidence_map s;
     verification_results := verification_results s;
     decisions := decisions s;
     cached_claims := Some v_cached_claims;
     final_answer := final_answer s;
     should_escalate := should_escalate s;
     escalation_reason := escalation_reason s;
     hallucination_score_detected := hallucination_score_detected s;
     confidence_detected := confidence_detected s;
     force_llm_tier := force_llm_tier s;
     errors := errors s |}.

(** [state.update({evidence_map})] *)
Definition update_evidence_map (s : t) (v_evidence_map : (gmap string (list Evidence.t))) : t :=
  {| query := query s;
     user_id := user_id s;
     raw_llm_response := raw_llm_response s;
     llm_metadata := llm_metadata s;
     claims := claims s;
     evidence_map := Some v_evidence_map;
     verification_results := verification_results s;
     decisions := decisions s;
     cached_claims := cached_claims s;
     final_answer := final_answer s;
     should_escalate := should_escalate s;
     escalation_reason := escalation_reason s;
     hallucination_score_detected := hallucination_score_detected s;
     confidence_detected := confidence_detected s;
     force_llm_tier := force_llm_tier s;
     errors := errors s |}.

(** [state.update({verification_results})] *)
Definition update_verification_results (s : t) (v_verification_results : (gmap string VerificationResult.t)) : t :=
  {| query := query s;
     user_id := user_id s;
     raw_llm_response := raw_llm_response s;
     llm_metadata := llm_metadata s;
     claims := claims s;
     evidence_map := evidence_map s;
     verification_results := Some v_verification_results;
     decisions := decisions s;
     cached_claims := cached_claims s;
     final_answer := final_answer s;
     should_escalate := should_escalate s;
     escalation_reason := escalation_reason s;
     hallucination_score_detected := hallucination_score_detected s;
     confidence_detected := confidence_detected s;
     force_llm_tier := force_llm_tier s;
     errors := errors s |}.

(** [state.update({should_escalate, escalation_reason})] *)
Definition update_not_escalating (s : t) (v_should_escalate : bool) (v_escalation_reason : string) : t :=
  {| query := query s;
     user_id := user_id s;
     raw_llm_response := raw_llm_response s;
     llm_metadata := llm_metadata s;
     claims := claims s;
     evidence_map := evidence_map s;
     verification_results := verification_results s;
     decisions := decisions s;
     cached_claims := cached_claims s;
     final_answer := final_answer s;
     should_escalate := Some v_should_escalate;
     escalation_reason := Some v_escalation_reason;
     hallucination_score_detected := hallucination_score_detected s;
     confidence_detected := confidence_detected s;
     force_llm_tier := force_llm_tier s;
     errors := errors s |}.

(** [state.update] with the five escalation fields *)
Definition update_escalation (s : t) (v_should_escalate : bool) (v_escalation_reason : string) (v_hallucination_score_detected : float) (v_confidence_detected : float) (v_force_llm_tier : bool) : t :=
  {| query := query s;
     user_id := user_id s;
     raw_llm_response := raw_llm_response s;
     llm_metadata := llm_metadata s;
     claims := claims s;
     evidence_map := evidence_map s;
     verification_results := verification_results s;
     decisions := decisions s;
     cached_claims := cached_claims s;
     final_answer := final_answer s;
     should_escalate := Some v_should_escalate;
     escalation_reason := Some v_escalation_reason;
     hallucination_score_detected := Some v_hallucination_score_detected;
     confidence_detected := Some v_confidence_detected;
     force_llm_tier := Some v_force_llm_tier;
     errors := errors s |}.

(** [state.update({decisions})] *)
Definition update_decisions (s : t) (v_decisions : (list Decision.t)) : t :=
  {| query := query s;
     user_id := user_id s;
     raw_llm_response := raw_llm_response s;
     llm_metadata := llm_metadata s;
     claims := claims s;
     evidence_map := evidence_map s;
     verification_results := verification_results s;
     decisions := Some v_decisions;
     cached_claims := cached_claims s;
     final_answer := final_answer s;
     should_escalate := should_escalate s;
     escalation_reason := escalation_reason s;
     hallucination_score_detected := hallucination_score_detected s;
     confidence_detected := confidence_detected s;
     force_llm_tier := force_llm_tier s;
     errors := errors s |}.

(** [state.update({final_answer})] *)
Definition update_final_answer (s : t) (v_final_answer : final_answer_t) : t :=
  {| query := query s;
     user_id := user_id s;
     raw_llm_response := raw_llm_response s;
     llm_metadata := llm_metadata s;
     claims := claims s;
     evidence_map := evidence_map s;
     verification_results := verification_results s;
     decisions := decisions s;
     cached_claims := cached_claims s;
     final_answer := Some v_final_answer;
     should_escalate := should_escalate s;
     escalation_reason := escalation_reason s;
     hallucination_score_detected := hallucination_score_detected s;
     confidence_detected := confidence_detected s;
     force_llm_tier := force_llm_tier s;
     errors := errors s |}.

(** [{"query": query, "user_id": user_id, "errors": []}] *)
Definition initial (query : string) (user_id : option string) : t :=
  {| query := query;
     user_id := user_id;
     raw_llm_response := None;
     llm_metadata := None;
     claims := None;
     evidence_map := None;
     verification_results := None;
     decisions := None;
     cached_claims := None;
     final_answer := None;
     should_escalate := None;
     escalation_reason := None;
     hallucination_score_detected := None;
     confidence_detected := None;
     force_llm_tier := None;
     errors := [] |}.

End HalluShieldState.

(** ** pipeline.py *)

Module HalluShieldPipeline.

Import Py HalluShieldState.

(** What the pipeline object owns and changes in place: the router with its
    statistics, the store, and, for the record, the calls made to retrieval
    (the claim text) and to scoring (the claim id and text), most recent
    first. *)
Record world := {
  model_router : ModelRouter.t;
  memory_store : MemoryStore.t;
  retrieved : list string;
  scored : list (string * string)
}.

Definition with_router (w : world) (r : ModelRouter.t) : world :=
  {| model_router := r; memory_store := memory_store w;
     retrieved := retrieved w; scored := scored w |}.

Definition with_store (w : world) (m : MemoryStore.t) : world :=
  {| model_router := model_router w; memory_store := m;
     retrieved := retrieved w; scored := scored w |}.

Definition log_retrieval (w : world) (claim_text : string) : world :=
  {| model_router := model_router w; memory_store := memory_store w;
     retrieved := claim_text :: retrieved w; scored := scored w |}.

Definition log_scoring (w : world) (claim_id claim_text : string) : world :=
  {| model_router := model_router w; memory_store := memory_store w;
     retrieved := retrieved w;
     scored := (claim_id, claim_text) :: scored w |}.

(** A dictionary display: later entries replace earlier ones. *)
Definition mk_dict (entries : list (string * json)) : gmap string json :=
  fold_left (fun m kv => <[kv.1 := kv.2]> m) entries ∅.

(** [d.values()] *)
Definition values {A : Type} (d : gmap string A) : list A :=
  map snd (map_to_list d).

(** Reading a field of [ModelResponse] from a dictionary value; a value of
    another type fails the model's validation. *)
Definition as_str (v : json) : result string :=
  match v with
  | JStr s => Ok s
  | _ => Raise "ValidationError"
  end.

(** [v == s] for a dictionary value [v] and a string [s]. *)
Definition is_jstr (v : json) (s : string) : bool :=
  match v with
  | JStr x => String.eqb x s
  | _ => false
  end.

Definition as_int (v : json) : result Z :=
  match v with
  | JNum x =>
      if Qeq_bool (inject_Z (Qfloor x)) x then Ok (Qfloor x)
      else Raise "ValidationError"
  | _ => Raise "ValidationError"
  end.

Definition as_float (v : json) : result float :=
  match v with
  | JNum x => Ok x
  | _ => Raise "ValidationError"
  end.

(** The nodes of the workflow. *)
Inductive node : Type :=
| call_llm
| extract_claims
| check_memory
| retrieve_evidence
| verify_claims
| check_escalation
| apply_policy
| assemble_answer
| update_memory.

Section Pipeline.

(** [self.llm_model] and the environment variable of the small model. *)
Variable llm_model : option string.
Variable HALLUSHIELD_SLM_MODEL : option string.

(** The router's environment and providers. *)
Variable GROQ_API_KEY : option string.
Variable HF_TOKEN : option string.
Variable GEMINI_API_KEY : option string.
Variable ANTHROPIC_API_KEY : option string.
Variable groq_create
  : nat -> string -> string -> result ModelRouter.groq_completion.
Variable hf_create : nat -> string -> result ModelRouter.hf_completion.
Variable gemini_generate : nat -> string -> string -> result string.
Variable claude_create : nat -> string -> result ModelRouter.claude_message.

(** [self.claim_extractor.extract] *)
Variable extract : string -> list Claim.t.

(** [self.evidence_retriever.retrieve] and [self.verifier.verify]; the
    first argument is the number of earlier calls. *)
Variable retrieve : nat -> string -> result (list Evidence.t).
Variable verify
  : nat -> string -> string -> list Evidence.t -> result VerificationResult.t.

(** Whether [langgraph] could be imported. *)
Variable langgraph_available : bool.

Definition get_response :=
  ModelRouter.get_response GROQ_API_KEY HF_TOKEN GEMINI_API_KEY
    ANTHROPIC_API_KEY groq_create hf_create gemini_generate claude_create.

Definition _route_by_cache (state : HalluShieldState.t) : string :=
  if (Z.of_nat (size (default ∅ (cached_claims state)))
      =? len (default [] (claims state)))%Z
  then "all_cached" else "has_new_claims".

Definition _call_llm (state : HalluShieldState.t) (w : world)
  : result HalluShieldState.t * world :=
  let query := query state in
  let force_llm := default false (force_llm_tier state) in
  let '(r, router) :=
    if force_llm then
      let llm_model := or_str llm_model "gemini-2.5-flash" in
      get_response query "llm" "llama-3.3-70b-versatile" llm_model
        (model_router w)
    else
      let slm_model :=
        default "llama-3.3-70b-versatile" HALLUSHIELD_SLM_MODEL in
      get_response query "slm" slm_model "gemini-2.5-flash" (model_router w) in
  match r with
  | Raise cls => (Raise cls, with_router w router)
  | Ok response =>
      (Ok (update_call_llm state (ModelResponse.text response)
             (mk_dict
                ([ ("provider", JStr (ModelResponse.provider response));
                   ("model", JStr (ModelResponse.model response));
                   ("tier", JStr (ModelResponse.tier response));
                   ("tokens", JNum (inject_Z (ModelResponse.tokens response)));
                   ("cost", JNum (ModelResponse.cost response)) ]
                 ++ ModelResponse.metadata response))),
       with_router w router)
  end.

Definition _extract_claims (state : HalluShieldState.t) : HalluShieldState.t :=
  let claims := extract (default "" (raw_llm_response state)) in
  update_claims state claims.

Definition _check_memory (state : HalluShieldState.t) (w : world)
  : HalluShieldState.t :=
  let cached :=
    fold_left
      (fun cached claim =>
         match MemoryStore.check_claim (memory_store w) (Claim.text claim) with
         | Some cached_result => <[Claim.id claim := cached_result]> cached
         | None => cached
         end)
      (default [] (claims state)) ∅ in
  update_cached_claims state cached.

(** The loop of [_retrieve_evidence]. *)
Fixpoint retrieve_loop (cached : gmap string MemoryStore.payload)
    (claims : list Claim.t) (evidence_map : gmap string (list Evidence.t))
    (w : world) : result (gmap string (list Evidence.t)) * world :=
  match claims with
  | [] => (Ok evidence_map, w)
  | claim :: rest =>
      match cached !! Claim.id claim with
      | Some _ => retrieve_loop cached rest evidence_map w
      | None =>
          match retrieve (length (retrieved w)) (Claim.text claim) with
          | Raise cls => (Raise cls, log_retrieval w (Claim.text claim))
          | Ok evidence =>
              retrieve_loop cached rest
                (<[Claim.id claim := evidence]> evidence_map)
                (log_retrieval w (Claim.text claim))
          end
      end
  end.

Definition _retrieve_evidence (state : HalluShieldState.t) (w : world)
  : result HalluShieldState.t * world :=
  let cached := default ∅ (cached_claims state) in
  match retrieve_loop cached (default [] (claims state)) ∅ w with
  | (Ok evidence_map, w) => (Ok (update_evidence_map state evidence_map), w)
  | (Raise cls, w) => (Raise cls, w)
  end.

(** The loop of [_verify_claims]. *)
Fixpoint verify_loop (evidence_map : gmap string (list Evidence.t))
    (claims : list Claim.t)
    (verification_results : gmap string VerificationResult.t) (w : world)
  : result (gmap string VerificationResult.t) * world :=
  match claims with
  | [] => (Ok verification_results, w)
  | claim :: rest =>
      match evidence_map !! Claim.id claim with
      | None | Some [] => verify_loop evidence_map rest verification_results w
      | Some evidence_list =>
          match verify (length (scored w)) (Claim.id claim) (Claim.text claim)
                  evidence_list with
          | Raise cls =>
              (Raise cls, log_scoring w (Claim.id claim) (Claim.text claim))
          | Ok v =>
              verify_loop evidence_map rest
                (<[Claim.id claim := v]> verification_results)
                (log_scoring w (Claim.id claim) (Claim.text claim))
          end
      end
  end.

Definition _verify_claims (state : HalluShieldState.t) (w : world)
  : result HalluShieldState.t * world :=
  match verify_loop (default ∅ (evidence_map state))
          (default [] (claims state)) ∅ w with
  | (Ok verification_results, w) =>
      (Ok (update_verification_results state verification_results), w)
  | (Raise cls, w) => (Raise cls, w)
  end.

Definition _route_by_escalation (state : HalluShieldState.t) : string :=
  let should_escalate := default false (should_escalate state) in
  if should_escalate then "escalate_to_llm" else "proceed".

Definition _check_escalation (state : HalluShieldState.t) (w : world)
  : result HalluShieldState.t * world :=
  let llm_metadata := default ∅ (llm_metadata state) in
  let current_tier := default (JStr "slm") (llm_metadata !! "tier") in
  if is_jstr current_tier "llm" then
    (Ok (update_not_escalating state false "Already using LLM tier"), w)
  else
      let verifications := default ∅ (verification_results state) in
      let total_verifications := Z.of_nat (size verifications) in
      let '(hallucination_score, confidence) :=
        if (total_verifications =? 0)%Z then (0.0, 1.0)
        else
          let problematic_count :=
            count_if
              (fun v =>
                 Qgtb (VerificationResult.contradiction_score v) 0.5
                 || Qgtb (VerificationResult.neutral_score v) 0.7)
              (values verifications) in
          let hallucination_score :=
            inject_Z problematic_count / inject_Z total_verifications in
          let avg_support :=
            sum_of VerificationResult.support_score (values verifications)
            / inject_Z total_verifications in
          (hallucination_score, avg_support) in
      let built :=
        bind (as_str (default (JStr "unknown") (llm_metadata !! "model")))
          (fun model =>
        bind (as_str (default (JStr "unknown") (llm_metadata !! "provider")))
          (fun provider =>
        bind (as_int (default (JNum 0) (llm_metadata !! "tokens")))
          (fun tokens =>
        bind (as_float (default (JNum 0.0) (llm_metadata !! "cost")))
          (fun cost =>
        Ok {| ModelResponse.text := default "" (raw_llm_response state);
              ModelResponse.model := model;
              ModelResponse.provider := provider;
              ModelResponse.tier := "slm";
              ModelResponse.tokens := tokens;
              ModelResponse.cost := cost;
              ModelResponse.metadata := [] |})))) in
      match built with
      | Raise cls => (Raise cls, w)
      | Ok slm_response =>
          let '(should_escalate, reason) :=
            ModelRouter.should_escalate slm_response hallucination_score
              confidence in
          let w :=
            if should_escalate then
              let router := ModelRouter.add_escalation (model_router w) in
              let slm_cost := ModelResponse.cost slm_response in
              let estimated_llm_cost :=
                ModelRouter._calculate_cost (ModelResponse.tokens slm_response)
                  "llm_pro" in
              let cost_saved := estimated_llm_cost - slm_cost in
              with_router w (ModelRouter.add_cost_saved router cost_saved)
            else w in
          (Ok (update_escalation state should_escalate reason
                 hallucination_score confidence should_escalate), w)
      end.

Definition _apply_policy (state : HalluShieldState.t) : HalluShieldState.t :=
  let decisions :=
    map (fun claim =>
           match default ∅ (cached_claims state) !! Claim.id claim with
           | Some cached =>
               {| Decision.claim_id := Claim.id claim;
                  Decision.action := MemoryStore.action cached;
                  Decision.original_claim := Claim.text claim;
                  Decision.corrected_claim := MemoryStore.corrected_claim cached;
                  Decision.evidence_urls := MemoryStore.evidence_urls cached;
                  Decision.confidence := MemoryStore.confidence cached;
                  Decision.reasoning := "From cache" |}
           | None =>
               let evidence :=
                 default []
                   (default ∅ (evidence_map state) !! Claim.id claim) in
               let verification :=
                 match default ∅ (verification_results state)
                       !! Claim.id claim with
                 | Some verification => verification
                 | None =>
                     {| VerificationResult.claim_id := Claim.id claim;
                        VerificationResult.support_score := 0.0;
                        VerificationResult.contradiction_score := 0.0;
                        VerificationResult.neutral_score := 1.0;
                        VerificationResult.evidence_agreement := 0.0;
                        VerificationResult.source_count := len evidence;
                        VerificationResult.evidence_ids :=
                          map Evidence.source_url evidence |}
                 end in
               AdaptiveDecisionPolicy.decide claim verification evidence
           end)
        (default [] (claims state)) in
  update_decisions state decisions.

(** One turn of the loop of [_assemble_answer]. *)
Definition assemble_step (acc : string * list modification)
    (decision : Decision.t) : string * list modification :=
  let '(verified_answer, modifications) := acc in
  if String.eqb (Decision.action decision) "CORRECT"
     && truthy_opt (Decision.corrected_claim decision)
  then
    let corrected := or_str (Decision.corrected_claim decision) "" in
    (replace verified_answer (Decision.original_claim decision)
       (corrected ++ " [CORRECTED]"),
     (modifications
      ++ [Correction (Decision.original_claim decision) corrected
            (firstn 3 (Decision.evidence_urls decision))])%list)
  else if String.eqb (Decision.action decision) "ABSTAIN" then
    (verified_answer,
     (modifications
      ++ [Uncertainty (Decision.original_claim decision)
            "Insufficient evidence"])%list)
  else if String.eqb (Decision.action decision) "FLAG_FOR_HUMAN" then
    (verified_answer,
     (modifications
      ++ [Flagged (Decision.original_claim decision)
            (Decision.reasoning decision)])%list)
  else acc.

Definition _assemble_answer (state : HalluShieldState.t) : HalluShieldState.t :=
  let decisions := default [] (decisions state) in
  let '(verified_answer, modifications) :=
    fold_left assemble_step decisions
      (default "" (raw_llm_response state), []) in
  let total_claims := len decisions in
  let problematic :=
    count_if
      (fun d =>
         existsb (String.eqb (Decision.action d)) ["CORRECT"; "FLAG_FOR_HUMAN"])
      decisions in
  let hallucination_score :=
    if (total_claims =? 0)%Z then 0.0
    else inject_Z problematic / inject_Z total_claims in
  let count_action (a : string) :=
    count_if (fun d => String.eqb (Decision.action d) a) decisions in
  update_final_answer state
    {| verified_answer := verified_answer;
       original_answer := default "" (raw_llm_response state);
       modifications := modifications;
       hallucination_score := hallucination_score;
       confidence := 1.0 - hallucination_score;
       claim_breakdown :=
         {| total_claims := total_claims;
            verified := count_action "ACCEPT";
            corrected := count_action "CORRECT";
            abstained := count_action "ABSTAIN";
            flagged := count_action "FLAG_FOR_HUMAN" |} |}.

Definition _update_memory (state : HalluShieldState.t) (w : world) : world :=
  let cached := default ∅ (cached_claims state) in
  fold_left
    (fun w decision =>
       match cached !! Decision.claim_id decision with
       | Some _ => w
       | None =>
           with_store w
             (MemoryStore.store_verification (memory_store w)
                (Decision.original_claim decision)
                (Decision.action decision)
                (Decision.corrected_claim decision)
                (Decision.evidence_urls decision)
                (Decision.confidence decision))
       end)
    (default [] (decisions state)) w.

(** The handler of a node, with its update merged into the state. *)
Definition run_node (n : node) (state : HalluShieldState.t) (w : world)
  : result HalluShieldState.t * world :=
  match n with
  | call_llm => _call_llm state w
  | extract_claims => (Ok (_extract_claims state), w)
  | check_memory => (Ok (_check_memory state w), w)
  | retrieve_evidence => _retrieve_evidence state w
  | verify_claims => _verify_claims state w
  | check_escalation => _check_escalation state w
  | apply_policy => (Ok (_apply_policy state), w)
  | assemble_answer => (Ok (_assemble_answer state), w)
  | update_memory => (Ok state, _update_memory state w)
  end.

(** The edges of [_build_workflow]; [None] is [END]. *)
Definition next_node (n : node) (state : HalluShieldState.t) : option node :=
  match n with
  | call_llm => Some extract_claims
  | extract_claims => Some check_memory
  | check_memory =>
      if String.eqb (_route_by_cache state) "has_new_claims"
      then Some retrieve_evidence else Some check_escalation
  | retrieve_evidence => Some verify_claims
  | verify_claims => Some check_escalation
  | check_escalation =>
      if String.eqb (_route_by_escalation state) "escalate_to_llm"
      then Some call_llm else Some apply_policy
  | apply_policy => Some assemble_answer
  | assemble_answer => Some update_memory
  | update_memory => None
  end.

(** The compiled graph run from node [n] for at most [limit] steps; the
    nodes run are listed with the outcome. *)
Fixpoint run_from (limit : nat) (n : node) (state : HalluShieldState.t)
    (w : world) : result HalluShieldState.t * world * list node :=
  match limit with
  | O => (Raise "GraphRecursionError", w, [])
  | S limit' =>
      match run_node n state w with
      | (Raise cls, w') => (Raise cls, w', [n])
      | (Ok state', w') =>
          match next_node n state' with
          | None => (Ok state', w', [n])
          | Some n' =>
              let '(r, w'', trace) := run_from limit' n' state' w' in
              (r, w'', n :: trace)
          end
      end
  end.

(** [self.app.ainvoke(state)], with the library's default limit of 25
    steps. *)
Definition ainvoke (state : HalluShieldState.t) (w : world)
  : result HalluShieldState.t * world * list node :=
  run_from 25 call_llm state w.

(** The sequential fallback of [verify]. *)
Definition verify_sequential (state : HalluShieldState.t) (w : world)
  : result HalluShieldState.t * world :=
  match _call_llm state w with
  | (Raise cls, w) => (Raise cls, w)
  | (Ok result, w) =>
      let result := _extract_claims result in
      let result := _check_memory result w in
      let '(r, w) :=
        if String.eqb (_route_by_cache result) "has_new_claims" then
          match _retrieve_evidence result w with
          | (Raise cls, w) => (Raise cls, w)
          | (Ok result, w) => _verify_claims result w
          end
        else
          (Ok {| query := query result;
                 user_id := user_id result;
                 raw_llm_response := raw_llm_response result;
                 llm_metadata := llm_metadata result;
                 claims := claims result;
                 evidence_map := Some (default ∅ (evidence_map result));
                 verification_results :=
                   Some (default ∅ (verification_results result));
                 decisions := decisions result;
                 cached_claims := cached_claims result;
                 final_answer := final_answer result;
                 should_escalate := should_escalate result;
                 escalation_reason := escalation_reason result;
                 hallucination_score_detected :=
                   hallucination_score_detected result;
                 confidence_detected := confidence_detected result;
                 force_llm_tier := force_llm_tier result;
                 errors := errors result |}, w) in
      match r with
      | Raise cls => (Raise cls, w)
      | Ok result =>
          let result := _apply_policy result in
          let result := _assemble_answer result in
          (Ok result, _update_memory result w)
      end
  end.

Definition verify_query (query : string) (user_id : option string) (w : world)
  : result HalluShieldState.t * world :=
  let state := HalluShieldState.initial query user_id in
  if langgraph_available then
    let '(r, w, _) := ainvoke state w in (r, w)
  else verify_sequential state w.

End Pipeline.

End HalluShieldPipeline.

(** ** The rule guards of the decision policy, as the specification
    words them *)

Module PolicySpec.
Import VerificationResult.

Definition accept_rule (v : VerificationResult.t) : Prop :=
  0.85 < support_score v /\ contradiction_score v < 0.1.
Definition correct_rule (v : VerificationResult.t) : Prop :=
  0.7 < contradiction_score v.
Definition abstain_rule (v : VerificationResult.t) : Prop :=
  (source_count v < 2)%Z \/ evidence_agreement v < 0.5.
End PolicySpec.

(** ** The heuristic score, as the specification words it *)

Module HeuristicSpec.

Import Py.

(** The tokens of the claim of length at least four, in lower case. *)
Definition claim_tokens (claim : string) : list string :=
  map lower
    (List.filter (fun t => (4 <=? String.length t)%nat) (findall_alnum claim)).

(** The tokens present in a snippet, by lower-case substring match. *)
Definition present (tokens : list string) (snippet : string) : list string :=
  List.filter (fun t => contains t (lower snippet)) tokens.

(** hit-ratio = tokens present / total tokens *)
Definition hit_ratio (tokens : list string) (snippet : string) : Q :=
  inject_Z (Z.of_nat (length (present tokens snippet)))
  / inject_Z (Z.of_nat (length tokens)).

(** [m] is the largest element of [xs]. *)
Definition is_maximum (m : Q) (xs : list Q) : Prop :=
  Exists (fun x => x == m) xs /\ Forall (fun x => x <= m) xs.

(** clamp(x, lo, hi) *)
Definition clamp (x lo hi : Q) : Q :=
  if Qle_bool x lo then lo else if Qle_bool hi x then hi else x.

(** support = clamp(0.2 + 0.8 * base, 0, 1), where base is the largest
    hit-ratio across the evidence items. *)
Definition is_support (claim : string) (evidence_list : list Evidence.t)
    (support : Q) : Prop :=
  exists base,
    is_maximum base
      (map (fun e => hit_ratio (claim_tokens claim) (Evidence.snippet e))
           evidence_list)
    /\ support == clamp (0.2 + 0.8 * base) 0 1.

End HeuristicSpec.

(** ** The permissive verdict parser, as the specification words it *)

Module ParseSpec.

Import NLIVerifier.

(** Inside a brace group, [depth] further groups being open: the number of
    characters up to and including the brace that closes the group. *)
Fixpoint closing (depth : nat) (s : string) : option nat :=
  match s with
  | EmptyString => None
  | String c s' =>
      if Ascii.eqb c lbrace then option_map S (closing (S depth) s')
      else if Ascii.eqb c rbrace then
        match depth with
        | O => Some 1%nat
        | S d => option_map S (closing d s')
        end
      else option_map S (closing depth s')
  end.

(** The first balanced-brace substring: it starts at the first opening
    brace whose group is closed, and ends at the brace that closes it. *)
Fixpoint first_balanced (text : string) : option string :=
  match text with
  | EmptyString => None
  | String c rest =>
      if Ascii.eqb c lbrace then
        match closing 0 rest with
        | Some n => Some (String c (take_str n rest))
        | None => first_balanced rest
        end
      else first_balanced rest
  end.

(** Direct parse, else parse of the first balanced-brace substring, else
    failure. *)
Definition parse_verdict (json_loads : string -> option json) (text : string)
  : json :=
  match json_loads text with
  | Some v => v
  | None =>
      match first_balanced text with
      | None => JNull
      | Some m =>
          match json_loads m with
          | Some v => v
          | None => JNull
          end
      end
  end.

(** [c] occurs in [s]. *)
Fixpoint has_char (c : ascii) (s : string) : bool :=
  match s with
  | EmptyString => false
  | String d s' => Ascii.eqb d c || has_char c s'
  end.

(** [m] is the part of [text] from its first opening brace to its last
    closing brace, the latter after the former. *)
Definition brace_span (text m : string) : Prop :=
  exists pre mid suf,
    text = pre ++ String lbrace (mid ++ String rbrace suf)
    /\ has_char lbrace pre = false
    /\ has_char rbrace suf = false
    /\ m = String lbrace (mid ++ String rbrace EmptyString).

(** A loader that agrees with [json.loads] on the two strings it is asked
    about below: the empty object parses, and two objects side by side are
    refused as extra data. *)
Definition sample_loads (s : string) : option json :=
  if String.eqb s "{}" then Some (JObj []) else None.

End ParseSpec.

(** ** The placeholder result set, as the specification words it *)

Module RetrieverSpec.

Import Py EvidenceRetriever.

(** Relevance scores strictly decrease along the list. *)
Definition decreasing_relevance (l : list Evidence.t) : Prop :=
  forall (i j : nat) (a b : Evidence.t),
    (i < j)%nat -> l !! i = Some a -> l !! j = Some b ->
    Evidence.relevance_score b < Evidence.relevance_score a.

(** A deterministic placeholder result set for [claim] of [top_k] items:
    the items are numbered, each quotes the claim, and the relevance scores
    decrease. *)
Definition placeholder_set (claim : string) (top_k : Z) (l : list Evidence.t)
  : Prop :=
  length l = Z.to_nat top_k
  /\ (forall (i : nat) (e : Evidence.t),
        l !! i = Some e ->
        Evidence.source_url e
        = "https://example.com/evidence/" ++ str_of_Z (Z.of_nat i)
        /\ Evidence.snippet e = "Placeholder evidence for: " ++ claim)
  /\ decreasing_relevance l.

(** The three ways in which the web search is unavailable: no key, no HTTP
    client, or an HTTP error of the call. *)
Definition web_unavailable (brave_api_key : option string)
    (httpx_available : bool) (brave_get : string -> Z -> response web_item)
    (claim : string) (top_k : Z) : Prop :=
  truthy_opt brave_api_key = false
  \/ httpx_available = false
  \/ brave_get claim (Z.max 1 top_k) = HTTPError.

(** The two ways in which the reference provider is unavailable. *)
Definition wiki_unavailable (httpx_available : bool)
    (wikipedia_get : string -> Z -> response wiki_item)
    (claim : string) (top_k : Z) : Prop :=
  httpx_available = false \/ wikipedia_get claim top_k = HTTPError.

End RetrieverSpec.

(** ** The escalation decision, as the specification words it *)

Module EscalationSpec.

Import Py.

(** [needle] is a substring of [hay]. *)
Definition is_substring (needle hay : string) : Prop :=
  exists pre suf, hay = pre ++ needle ++ suf.

(** The fixed set of hedging phrases. *)
Definition hedging_phrases : list string :=
  [ "i don't know"; "i'm not sure"; "i cannot"; "i don't have"; "unclear";
    "uncertain"; "i cannot confirm" ].

(** The raw text contains a hedging phrase, case-insensitively. *)
Definition hedges (raw : string) : Prop :=
  exists phrase,
    In phrase hedging_phrases /\ is_substring (lower phrase) (lower raw).

(** A verified claim counts as problematic when its contradiction score
    exceeds 0.5 or its neutral score exceeds 0.7. *)
Definition problematic (v : VerificationResult.t) : bool :=
  Qltb 0.5 (VerificationResult.contradiction_score v)
  || Qltb 0.7 (VerificationResult.neutral_score v).

(** problematic claims / total verified claims, 0 if none *)
Definition hallucination_score (verified : list VerificationResult.t) : Q :=
  match verified with
  | [] => 0
  | _ =>
      inject_Z (Z.of_nat (length (List.filter problematic verified)))
      / inject_Z (Z.of_nat (length verified))
  end.

(** mean(support_score) across verified claims, 1.0 if none *)
Definition mean_support (verified : list VerificationResult.t) : Q :=
  match verified with
  | [] => 1
  | _ =>
      fold_right Qplus 0 (map VerificationResult.support_score verified)
      / inject_Z (Z.of_nat (length verified))
  end.

(** The number of words of the raw text. *)
Definition word_count (raw : string) : nat := length (split raw).

(** Rules 2 to 5 of section 4.5. *)
Definition rule_hallucination (verified : list VerificationResult.t) : Prop :=
  0.3 < hallucination_score verified.
Definition rule_confidence (verified : list VerificationResult.t) : Prop :=
  mean_support verified < 0.5.
Definition rule_brief (raw : string) : Prop := (word_count raw < 10)%nat.

(** The metadata of a generation, as [_call_llm] records it, can be read
    back into a [ModelResponse]. *)
Definition readable_metadata (md : gmap string json) : Prop :=
  (exists s, default (JStr "unknown") (md !! "model") = JStr s)
  /\ (exists s, default (JStr "unknown") (md !! "provider") = JStr s)
  /\ (exists n, default (JNum 0) (md !! "tokens") = JNum (inject_Z n))
  /\ (exists x, default (JNum 0.0) (md !! "cost") = JNum x).

End EscalationSpec.

(** ** The one-shot regeneration loop, as the specification words it *)

Module LoopSpec.

Import HalluShieldState HalluShieldPipeline.

(** The tier that the generation-tier metadata records. *)
Definition recorded_tier (state : HalluShieldState.t) : json :=
  default (JStr "slm") (default ∅ (llm_metadata state) !! "tier").

Definition node_eqb (a b : node) : bool :=
  match a, b with
  | call_llm, call_llm
  | extract_claims, extract_claims
  | check_memory, check_memory
  | retrieve_evidence, retrieve_evidence
  | verify_claims, verify_claims
  | check_escalation, check_escalation
  | apply_policy, apply_policy
  | assemble_answer, assemble_answer
  | update_memory, update_memory => true
  | _, _ => false
  end.

(** How many times generation ran. *)
Definition generations (trace : list node) : nat :=
  length (List.filter (node_eqb call_llm) trace).

(** The number of escalations the router has counted. *)
Definition escalations_of (w : world) : Z :=
  ModelRouter.escalations (ModelRouter.stats (model_router w)).

(** The longest way to [END] from a node, before ([escalated = false]) and
    after the loop was taken. *)
Definition rank (escalated : bool) (n : node) : nat :=
  match n with
  | call_llm => if escalated then 9 else 15
  | extract_claims => if escalated then 8 else 14
  | check_memory => if escalated then 7 else 13
  | retrieve_evidence => if escalated then 6 else 12
  | verify_claims => if escalated then 5 else 11
  | check_escalation => if escalated then 4 else 10
  | apply_policy => 3
  | assemble_answer => 2
  | update_memory => 1
  end.

(** What holds of the state at a node once the loop was taken: generation is
    forced to the llm tier, and from then on the metadata records it. *)
Definition after_escalation (n : node) (state : HalluShieldState.t) : Prop :=
  match n with
  | call_llm => force_llm_tier state = Some true
  | extract_claims | check_memory | retrieve_evidence | verify_claims
  | check_escalation => recorded_tier state = JStr "llm"
  | _ => True
  end.

End LoopSpec.

(** ** Runs of the pipeline, as the specification words them *)

Module RunSpec.

Import Py HalluShieldState HalluShieldPipeline.

(** The claims of the state, and the cache hits among them. *)
Definition claims_of (state : HalluShieldState.t) : list Claim.t :=
  default [] (claims state).

Definition cached_of (state : HalluShieldState.t)
  : gmap string MemoryStore.payload :=
  default ∅ (cached_claims state).

Definition decisions_of (state : HalluShieldState.t) : list Decision.t :=
  default [] (decisions state).

(** No claim of the state hit the cache. *)
Definition no_cache_hits (state : HalluShieldState.t) : Prop :=
  forall c, In c (claims_of state) -> cached_of state !! Claim.id c = None.

(** A modification of type "correction". *)
Definition is_correction (m : modification) : bool :=
  match m with
  | Correction _ _ _ => true
  | _ => false
  end.

(** The default verification result of the policy stage: support 0,
    contradiction 0, neutral 1, evidence_agreement 0, source_count 0. *)
Definition default_verification (claim_id : string) : VerificationResult.t :=
  {| VerificationResult.claim_id := claim_id;
     VerificationResult.support_score := 0;
     VerificationResult.contradiction_score := 0;
     VerificationResult.neutral_score := 1;
     VerificationResult.evidence_agreement := 0;
     VerificationResult.source_count := 0;
     VerificationResult.evidence_ids := [] |}.

(** Two verification results with the same fields, the scores compared as
    numbers. *)
Definition same_verification (a b : VerificationResult.t) : Prop :=
  VerificationResult.claim_id a = VerificationResult.claim_id b
  /\ VerificationResult.support_score a == VerificationResult.support_score b
  /\ VerificationResult.contradiction_score a
     == VerificationResult.contradiction_score b
  /\ VerificationResult.neutral_score a == VerificationResult.neutral_score b
  /\ VerificationResult.evidence_agreement a
     == VerificationResult.evidence_agreement b
  /\ VerificationResult.source_count a = VerificationResult.source_count b
  /\ VerificationResult.evidence_ids a = VerificationResult.evidence_ids b.

(** The scoring calls made for a claim id, and the retrieval and scoring
    calls made for a claim text. *)
Definition scorings_of_id (claim_id : string) (w : world) : list (string * string) :=
  List.filter (fun call => String.eqb call.1 claim_id) (scored w).

Definition retrievals_of (claim_text : string) (w : world) : list string :=
  List.filter (String.eqb claim_text) (retrieved w).

Definition scorings_of (claim_text : string) (w : world)
  : list (string * string) :=
  List.filter (fun call => String.eqb call.2 claim_text) (scored w).

(** What the store keeps of a decision. *)
Definition payload_of (d : Decision.t) : MemoryStore.payload :=
  {| MemoryStore.action := Decision.action d;
     MemoryStore.corrected_claim := Decision.corrected_claim d;
     MemoryStore.evidence_urls := Decision.evidence_urls d;
     MemoryStore.confidence := Decision.confidence d |}.

(** A decision as it comes back from the cache: the same but for the
    reasoning. *)
Definition replayed (d : Decision.t) : Decision.t :=
  {| Decision.claim_id := Decision.claim_id d;
     Decision.action := Decision.action d;
     Decision.original_claim := Decision.original_claim d;
     Decision.corrected_claim := Decision.corrected_claim d;
     Decision.evidence_urls := Decision.evidence_urls d;
     Decision.confidence := Decision.confidence d;
     Decision.reasoning := "From cache" |}.

(** Claim ids are a function of the claim text, without collisions, over
    everything the extractor returns. *)
Definition ids_follow_text (extract : string -> list Claim.t) : Prop :=
  forall raw1 raw2 c1 c2,
    In c1 (extract raw1) -> In c2 (extract raw2) ->
    (Claim.id c1 = Claim.id c2 <-> Claim.text c1 = Claim.text c2).

(** The verified answer is the raw text, letter for letter, and no
    modification is a correction. *)
Definition answer_unchanged (state : HalluShieldState.t) : Prop :=
  exists answer,
    final_answer state = Some answer
    /\ verified_answer answer = default "" (raw_llm_response state)
    /\ original_answer answer = verified_answer answer
    /\ Forall (fun m => is_correction m = false) (modifications answer).

(** What the store holds for a claim text. *)
Definition stored (w : world) (claim_text : string)
  : option MemoryStore.payload :=
  MemoryStore.check_claim (memory_store w) claim_text.

(** The decision built for a claim from a cached record. *)
Definition from_cache (c : Claim.t) (p : MemoryStore.payload) : Decision.t :=
  {| Decision.claim_id := Claim.id c;
     Decision.action := MemoryStore.action p;
     Decision.original_claim := Claim.text c;
     Decision.corrected_claim := MemoryStore.corrected_claim p;
     Decision.evidence_urls := MemoryStore.evidence_urls p;
     Decision.confidence := MemoryStore.confidence p;
     Decision.reasoning := "From cache" |}.

(** A state whose claims all come from the extractor. *)
Definition claims_extracted (extract : string -> list Claim.t)
    (state : HalluShieldState.t) : Prop :=
  forall c, In c (claims_of state) -> exists raw, In c (extract raw).

(** The cache hits of the state are what the store [m] holds for the texts
    of its claims. *)
Definition cache_reflects (m : MemoryStore.t) (state : HalluShieldState.t)
  : Prop :=
  forall c,
    In c (claims_of state) ->
    cached_of state !! Claim.id c = MemoryStore.check_claim m (Claim.text c).

(** The decisions of the state are those of the policy stage. *)
Definition decided (state : HalluShieldState.t) : Prop :=
  decisions_of state = decisions_of (_apply_policy state).

(** Since the request started in [w0] the store has not changed and, if it
    holds a record for the text [t], neither a retrieval nor a scoring call
    was made for [t]. *)
Definition untouched (t : string) (w0 w : world) : Prop :=
  memory_store w = memory_store w0
  /\ (stored w0 t <> None ->
      retrievals_of t w = retrievals_of t w0
      /\ scorings_of t w = scorings_of t w0).

(** A request that started in [w0] ended in state [state] and world [w]:
    the decisions are those of the policy stage for claims of the
    extractor, cache hits being read from the store of [w0], and the store
    was updated last. *)
Definition served (extract : string -> list Claim.t) (t : string)
    (w0 : world) (state : HalluShieldState.t) (w : world) : Prop :=
  exists w',
    untouched t w0 w'
    /\ claims_extracted extract state
    /\ cache_reflects (memory_store w0) state
    /\ decided state
    /\ w = _update_memory state w'.

(** What holds when the graph enters a node. *)
Definition replay_invariant (extract : string -> list Claim.t) (t : string)
    (w0 : world) (n : node) (state : HalluShieldState.t) (w : world) : Prop :=
  untouched t w0 w
  /\ claims_extracted extract state
  /\ match n with
     | call_llm | extract_claims | check_memory => True
     | verify_claims =>
         cache_reflects (memory_store w0) state
         /\ (stored w0 t <> None ->
             forall c,
               In c (claims_of state) ->
               Claim.text c = t ->
               default ∅ (evidence_map state) !! Claim.id c = None)
     | assemble_answer | update_memory =>
         cache_reflects (memory_store w0) state /\ decided state
     | _ => cache_reflects (memory_store w0) state
     end.

End RunSpec.

(** ** Sample data *)

Module Samples.

Import Py HalluShieldState HalluShieldPipeline.

(** A pipeline that has not yet served a request. *)
Definition fresh_world : world :=
  {| model_router := ModelRouter.new;
     memory_store := MemoryStore.new;
     retrieved := [];
     scored := [] |}.

(** The state of a request after a small model answered with a hedge. *)
Definition unsure_state : HalluShieldState.t :=
  update_call_llm (HalluShieldState.initial "Who won?" None)
    "I'm not sure about this."
    (mk_dict [ ("provider", JStr "groq"); ("model", JStr "llama-3.1-8b-instant");
               ("tier", JStr "slm"); ("tokens", JNum 12); ("cost", JNum 0) ]).

(** Three decisions, the first of them a correction read from the cache. *)
Definition reviewed_decisions : list Decision.t :=
  [ {| Decision.claim_id := "a1";
       Decision.action := "CORRECT";
       Decision.original_claim := "Paris is in Spain.";
       Decision.corrected_claim := Some "Paris is in France.";
       Decision.evidence_urls := ["https://example.com/evidence/0"];
       Decision.confidence := 0.9;
       Decision.reasoning := "From cache" |};
    {| Decision.claim_id := "a2";
       Decision.action := "FLAG_FOR_HUMAN";
       Decision.original_claim := "It has 2 million inhabitants.";
       Decision.corrected_claim := None;
       Decision.evidence_urls := [];
       Decision.confidence := 0.6;
       Decision.reasoning := "Mixed evidence signals; requires review." |};
    {| Decision.claim_id := "a3";
       Decision.action := "ACCEPT";
       Decision.original_claim := "The Seine is in Paris.";
       Decision.corrected_claim := None;
       Decision.evidence_urls := [];
       Decision.confidence := 0.95;
       Decision.reasoning := "Evidence supports the claim." |} ].

(** A state that reached answer assembly with these decisions. *)
Definition reviewed_state : HalluShieldState.t :=
  update_decisions
    (update_call_llm (HalluShieldState.initial "Tell me about Paris." None)
       "Paris is in Spain. It has 2 million inhabitants. The Seine is in Paris."
       (mk_dict [("tier", JStr "slm")]))
    reviewed_decisions.

(** A scorer that is not configured: no JSON, no numbers, no chat model. *)
Definition no_loads (_ : string) : option json := None.
Definition no_float (_ : string) : option float := None.
Definition no_llm (_ _ _ : string) : result string := Raise "ImportError".

Definition placeholder_evidence : Evidence.t :=
  Evidence.mk "https://example.com/evidence/0"
    "Placeholder evidence for: Paris is the capital of France." 0.8 None 0.6.

(** A deployment with a key for the small model only, whose provider always
    gives the same answer; no search key, so that retrieval degrades to the
    placeholders; no scorer, so that verification is the heuristic one. *)
Definition groq_paris (_ : nat) (_ _ : string)
  : result ModelRouter.groq_completion :=
  Ok {| ModelRouter.groq_content :=
          "Paris is the capital of France and it lies on the river Seine.";
        ModelRouter.groq_usage := Some (10, 14, 24)%Z;
        ModelRouter.groq_finish_reason := JStr "stop" |}.

Definition hf_down (_ : nat) (_ : string)
  : result ModelRouter.hf_completion := Raise "ConnectionError".
Definition gemini_down (_ : nat) (_ _ : string) : result string :=
  Raise "ConnectionError".
Definition claude_down (_ : nat) (_ : string)
  : result ModelRouter.claude_message := Raise "ConnectionError".

(** A stand-in for the extractor: the whole answer is one claim, whose id
    is made from its text. *)
Definition one_claim (raw : string) : list Claim.t :=
  match raw with
  | EmptyString => []
  | _ =>
      [ {| Claim.id := "id:" ++ raw;
           Claim.text := raw;
           Claim.claim_type := "entity";
           Claim.source_sentence := raw;
           Claim.position := 0 |} ]
  end.

Definition retrieve_placeholders (_ : nat) (claim_text : string)
  : result (list Evidence.t) :=
  EvidenceRetriever.retrieve None true
    (fun _ _ => EvidenceRetriever.HTTPError)
    (fun _ _ => EvidenceRetriever.HTTPError) claim_text 5.

Definition verify_heuristic (_ : nat) (claim_id claim_text : string)
    (evidence_list : list Evidence.t) : result VerificationResult.t :=
  NLIVerifier.verify no_loads no_float no_llm None None None None None None
    claim_id claim_text evidence_list.

Definition request (langgraph_available : bool) (query : string) (w : world)
  : result HalluShieldState.t * world :=
  verify_query None None (Some "key") None None None groq_paris hf_down
    gemini_down claude_down one_claim retrieve_placeholders verify_heuristic
    langgraph_available query None w.

(** The state a request ends in, if it ends well. *)
Definition final_state (out : result HalluShieldState.t * world)
  : HalluShieldState.t :=
  match out.1 with
  | Ok state => state
  | Raise _ => HalluShieldState.initial "" None
  end.

(** A first and a second request about Paris. *)
Definition first_request := request true "What is the capital of France?" fresh_world.
Definition second_request := request true "Where is Paris?" first_request.2.

(** A claim for which retrieval came back empty. *)
Definition lone_claim : Claim.t :=
  {| Claim.id := "4f2a9c0b1d3e5f67";
     Claim.text := "Atlantis was founded in 9600 BC.";
     Claim.claim_type := "numerical";
     Claim.source_sentence := "Atlantis was founded in 9600 BC.";
     Claim.position := 0 |}.

Definition unsupported_state : HalluShieldState.t :=
  update_evidence_map
    (update_cached_claims
       (update_claims
          (update_call_llm (HalluShieldState.initial "Atlantis?" None)
             "Atlantis was founded in 9600 BC." (mk_dict [("tier", JStr "slm")]))
          [lone_claim])
       ∅)
    {[ "4f2a9c0b1d3e5f67" := [] ]}.

(** The decision of the first request about Paris. *)
Definition first_decision : Decision.t :=
  hd (AdaptiveDecisionPolicy.decide lone_claim
        (RunSpec.default_verification (Claim.id lone_claim)) [])
    (RunSpec.decisions_of (final_state first_request)).

End Samples.

(** ** Answer assembly, as the specification words it *)

Module AssemblySpec.

Import Py.

(** The number of decisions with a given action. *)
Definition count_action (a : string) (decisions : list Decision.t) : nat :=
  length (List.filter (fun d => String.eqb (Decision.action d) a) decisions).

(** (#CORRECT + #FLAG_FOR_HUMAN) / total_claims, 0 if none *)
Definition hallucination_score (decisions : list Decision.t) : Q :=
  match decisions with
  | [] => 0
  | _ =>
      inject_Z (Z.of_nat (count_action "CORRECT" decisions
                          + count_action "FLAG_FOR_HUMAN" decisions))
      / inject_Z (Z.of_nat (length decisions))
  end.

(** [old] occurs in [pre ++ old] at the end only. *)
Definition first_at (old pre : string) : Prop :=
  forall p q, pre ++ old = p ++ old ++ q -> q = EmptyString.

(** [s'] is [s] with the occurrences of the non-empty [old] replaced by
    [new], from the left, an occurrence starting where the one before it
    ended at the earliest. *)
Inductive replaced (old new : string) : string -> string -> Prop :=
| replaced_none (s : string) :
    (forall pre suf, s <> pre ++ old ++ suf) ->
    replaced old new s s
| replaced_first (pre post post' : string) :
    first_at old pre ->
    replaced old new post post' ->
    replaced old new (pre ++ old ++ post) (pre ++ new ++ post').

(** A CORRECT decision that carries a correction text. *)
Definition correction_of (d : Decision.t) : option string :=
  match Decision.corrected_claim d with
  | Some c =>
      if String.eqb (Decision.action d) "CORRECT" && truthy c then Some c
      else None
  | None => None
  end.

(** The answer after the decisions were applied in order: each CORRECT
    decision with a correction text replaces its original claim by the
    correction marked [CORRECTED]; the other decisions leave the answer as
    it is. *)
Inductive corrected_answer : list Decision.t -> string -> string -> Prop :=
| corrected_done (answer : string) : corrected_answer [] answer answer
| corrected_apply (d : Decision.t) (rest : list Decision.t)
    (c answer answer' final : string) :
    correction_of d = Some c ->
    replaced (Decision.original_claim d) (c ++ " [CORRECTED]") answer answer' ->
    corrected_answer rest answer' final ->
    corrected_answer (d :: rest) answer final
| corrected_skip (d : Decision.t) (rest : list Decision.t)
    (answer final : string) :
    correction_of d = None ->
    corrected_answer rest answer final ->
    corrected_answer (d :: rest) answer final.

End AssemblySpec.

(** ** model_router.py: the usage report *)

Module RouterStats.

Import Py.

(** The dictionary that [get_stats] returns. *)
Record report := {
  slm_calls : Z;
  llm_calls : Z;
  total_calls : Z;
  escalations : Z;
  escalation_rate : float;
  total_cost : float;
  cost_saved : float;
  avg_cost_per_query : float
}.

(** [round(x, ndigits)] on a float, for a number of digits that is not
    negative: the nearest multiple of [10 ** -ndigits], ties to the even
    one. *)
Definition round_ndigits (x : float) (ndigits : nat) : float :=
  let scale := inject_Z (10 ^ Z.of_nat ndigits) in
  inject_Z (ModelRouter.round_half_even (x * scale)) / scale.

(** [ModelRouter.get_stats] *)
Definition get_stats (self : ModelRouter.t) : report :=
  let stats := ModelRouter.stats self in
  let total_calls :=
    (ModelRouter.slm_calls stats + ModelRouter.llm_calls stats)%Z in
  {| slm_calls := ModelRouter.slm_calls stats;
     llm_calls := ModelRouter.llm_calls stats;
     total_calls := total_calls;
     escalations := ModelRouter.escalations stats;
     escalation_rate :=
       inject_Z (ModelRouter.escalations stats)
       / inject_Z (Z.max (ModelRouter.slm_calls stats) 1);
     total_cost := round_ndigits (ModelRouter.total_cost stats) 4;
     cost_saved := round_ndigits (ModelRouter.cost_saved stats) 4;
     avg_cost_per_query :=
       round_ndigits
         (ModelRouter.total_cost stats / inject_Z (Z.max total_calls 1)) 4 |}.

End RouterStats.

(** ** Notions used to state what the router and the pipeline keep *)

Module Accounting.

Import Py ModelRouter.

(** What one provider call does to the statistics: the counters stay, and
    the total cost grows by the cost of the response, if there is one. *)
Definition provider_effect (r : ModelRouter.t)
    (out : result ModelResponse.t * ModelRouter.t) : Prop :=
  slm_calls (stats out.2) = slm_calls (stats r)
  /\ llm_calls (stats out.2) = llm_calls (stats r)
  /\ escalations (stats out.2) = escalations (stats r)
  /\ cost_saved (stats out.2) = cost_saved (stats r)
  /\ total_cost (stats out.2)
     = match out.1 with
       | Ok response => total_cost (stats r) + ModelResponse.cost response
       | Raise _ => total_cost (stats r)
       end.

(** The reply of a provider that is only called when its key is set. *)
Definition keyed {A : Type} (key : option string) (reply : result A)
  : result A :=
  if truthy_opt key then reply else Raise "ValueError".

(** The number of provider calls made once a keyed provider was tried. *)
Definition after_try (key : option string) (api_calls : nat) : nat :=
  if truthy_opt key then S api_calls else api_calls.

End Accounting.

(** ** Notions used to state what a request does to the statistics *)

Module Counters.

Import Py HalluShieldState HalluShieldPipeline.

Definition slm_calls_of (w : world) : Z :=
  ModelRouter.slm_calls (ModelRouter.stats (model_router w)).

Definition llm_calls_of (w : world) : Z :=
  ModelRouter.llm_calls (ModelRouter.stats (model_router w)).

(** Since [w0], the router of [w] has counted [slm] more slm calls, [llm]
    more llm calls and [esc] more escalations. *)
Definition counted (w0 w : world) (slm llm esc : Z) : Prop :=
  slm_calls_of w = (slm_calls_of w0 + slm)%Z
  /\ llm_calls_of w = (llm_calls_of w0 + llm)%Z
  /\ LoopSpec.escalations_of w = (LoopSpec.escalations_of w0 + esc)%Z.

(** What has been counted when the graph enters node [n], before
    ([escalated = false]) and after the regeneration loop was taken. *)
Definition counting_invariant (w0 : world) (escalated : bool) (n : node)
    (state : HalluShieldState.t) (w : world) : Prop :=
  if escalated then
    LoopSpec.after_escalation n state
    /\ counted w0 w 1 (if LoopSpec.node_eqb call_llm n then 0 else 1) 1
  else
    (n = call_llm -> default false (force_llm_tier state) = false)
    /\ counted w0 w (if LoopSpec.node_eqb call_llm n then 0 else 1) 0 0.

(** One small-model call was counted, and either nothing else or one
    escalation with its large-model call. *)
Definition one_request_counted (w0 w : world) : Prop :=
  counted w0 w 1 0 0 \/ counted w0 w 1 1 1.

Section Service.

Variable llm_model : option string.
Variable HALLUSHIELD_SLM_MODEL : option string.
Variable GROQ_API_KEY : option string.
Variable HF_TOKEN : option string.
Variable GEMINI_API_KEY : option string.
Variable ANTHROPIC_API_KEY : option string.
Variable groq_create
  : nat -> string -> string -> result ModelRouter.groq_completion.
Variable hf_create : nat -> string -> result ModelRouter.hf_completion.
Variable gemini_generate : nat -> string -> string -> result string.
Variable claude_create : nat -> string -> result ModelRouter.claude_message.
Variable extract : string -> list Claim.t.
Variable retrieve : nat -> string -> result (list Evidence.t).
Variable verify
  : nat -> string -> string -> list Evidence.t -> result VerificationResult.t.
Variable langgraph_available : bool.

(** The pipeline after a sequence of requests, one after the other; a
    request that raises leaves the pipeline as it is at that point. *)
Fixpoint serve (queries : list (string * option string)) (w : world)
  : world :=
  match queries with
  | [] => w
  | (query, user_id) :: rest =>
      serve rest
        (verify_query llm_model HALLUSHIELD_SLM_MODEL GROQ_API_KEY HF_TOKEN
           GEMINI_API_KEY ANTHROPIC_API_KEY groq_create hf_create
           gemini_generate claude_create extract retrieve verify
           langgraph_available query user_id w).2
  end.

End Service.

End Counters.

(** ** Notions used to state what an answered request returns *)

Module Answered.

Import Py HalluShieldState HalluShieldPipeline.

(** The state holds an answer to [query]: the generated text, the claims,
    the cache hits, the decisions of the policy stage for them, and the
    final answer assembled from these; no error is recorded. *)
Definition complete (query : string) (user_id : option string)
    (state : HalluShieldState.t) : Prop :=
  HalluShieldState.query state = query
  /\ HalluShieldState.user_id state = user_id
  /\ errors state = []
  /\ raw_llm_response state <> None
  /\ claims state <> None
  /\ cached_claims state <> None
  /\ decisions state = decisions (_apply_policy state)
  /\ final_answer state = final_answer (_assemble_answer state).

(** What holds of the state when the graph enters a node. *)
Definition progress (query : string) (user_id : option string) (n : node)
    (state : HalluShieldState.t) : Prop :=
  HalluShieldState.query state = query
  /\ HalluShieldState.user_id state = user_id
  /\ errors state = []
  /\ match n with
     | call_llm => True
     | extract_claims => raw_llm_response state <> None
     | check_memory => raw_llm_response state <> None /\ claims state <> None
     | retrieve_evidence | verify_claims | check_escalation | apply_policy =>
         raw_llm_response state <> None /\ claims state <> None
         /\ cached_claims state <> None
     | assemble_answer =>
         raw_llm_response state <> None /\ claims state <> None
         /\ cached_claims state <> None
         /\ decisions state = decisions (_apply_policy state)
     | update_memory => complete query user_id state
     end.

End Answered.

(** ** claim_extractor.py *)

Module ClaimExtractor.

Import Py.

(** The class [\w] of [re] on ASCII: letters, digits and the underscore. *)
Definition is_word (c : ascii) : bool := is_alnum c || Ascii.eqb c "_".

(** The class [[.!?]]. *)
Definition is_stop (c : ascii) : bool :=
  Ascii.eqb c "." || Ascii.eqb c "!" || Ascii.eqb c "?".

(** The lookbehind [(?<=[.!?])] after the characters [cur], the last one
    first. *)
Definition after_stop (cur : list ascii) : bool :=
  match cur with
  | c :: _ => is_stop c
  | [] => false
  end.

(** [re.split(r"(?<=[.!?])\s+", s)]: a separator is a maximal run of
    spaces that follows one of [.!?].  [cur] is the part being read, in
    reverse; [in_sep] tells that a separator is being read. *)
Fixpoint split_from (cur : list ascii) (in_sep : bool) (s : string)
  : list string :=
  match s with
  | EmptyString => [string_of_list_ascii (rev cur)]
  | String c s' =>
      if is_space c then
        if in_sep then split_from [] true s'
        else if after_stop cur then
          string_of_list_ascii (rev cur) :: split_from [] true s'
        else split_from (c :: cur) false s'
      else split_from (c :: cur) false s'
  end.

Definition re_split (s : string) : list string := split_from [] false s.

Definition _split_sentences (text : string) : list string :=
  List.filter (fun p => truthy (strip p)) (re_split (strip text)).

(** [s.endswith(suffix)] *)
Fixpoint endswith (s suffix : string) : bool :=
  String.eqb s suffix
  || match s with
     | EmptyString => false
     | String _ s' => endswith s' suffix
     end.

(** [any(p(ch) for ch in s)] *)
Fixpoint any_char (p : ascii -> bool) (s : string) : bool :=
  match s with
  | EmptyString => false
  | String c s' => p c || any_char p s'
  end.

(** [all(p(ch) for ch in s)] *)
Fixpoint all_chars (p : ascii -> bool) (s : string) : bool :=
  match s with
  | EmptyString => true
  | String c s' => p c && all_chars p s'
  end.

(** The words of a sentence: its maximal runs of [\w] characters.  A
    pattern [\bP\b] whose [P] matches word characters only is found in a
    sentence exactly when [P] matches one of its words in full. *)
Definition word_runs (sentence : string) : list string :=
  runs is_word sentence.

(** [re.search(r"\b(w1|w2|...)\b", sentence, re.IGNORECASE)] for
    alternatives made of letters. *)
Definition search_words (alternatives : list string) (sentence : string)
  : bool :=
  existsb (fun w => existsb (String.eqb (lower w)) alternatives)
    (word_runs sentence).

(** A word matched in full by [[A-Z][a-z]+]. *)
Definition capitalized (w : string) : bool :=
  match w with
  | String c rest => is_upper c && truthy rest && all_chars is_lower rest
  | EmptyString => false
  end.

(** A word matched in full by [\d+]. *)
Definition number (w : string) : bool := truthy w && all_chars is_digit w.

(** [re.search(r"\bS\b", sentence)] for a symbol [S] that is no word
    character: the symbol stands between two word characters.
    [after_word] tells that the character before [s] is a word
    character. *)
Fixpoint search_symbol (sym : ascii) (after_word : bool) (s : string)
  : bool :=
  match s with
  | EmptyString => false
  | String c s' =>
      (after_word && Ascii.eqb c sym
       && match s' with
          | String d _ => is_word d
          | EmptyString => false
          end)
      || search_symbol sym (is_word c) s'
  end.

Definition copulas : list string :=
  ["is"; "are"; "was"; "were"; "has"; "have"; "had"; "will"; "won";
   "founded"; "born"; "died"; "released"; "created"; "located"].

Definition _looks_factual (sentence : string) : bool :=
  let has_digit := any_char is_digit sentence in
  let has_capitalized := existsb capitalized (word_runs sentence) in
  let has_copula_or_verb := search_words copulas sentence in
  has_digit || (has_capitalized && has_copula_or_verb).

Definition numerical_words : list string :=
  ["percent"; "usd"; "million"; "billion"].

Definition temporal_words : list string :=
  ["jan"; "feb"; "mar"; "apr"; "may"; "jun"; "jul"; "aug"; "sep"; "sept";
   "oct"; "nov"; "dec"; "yesterday"; "today"; "tomorrow"].

Definition entity_words : list string :=
  ["in"; "at"; "near"; "located"; "based"].

Definition _infer_claim_type (sentence : string) : string :=
  if existsb number (word_runs sentence)
     || search_words numerical_words sentence
     || search_symbol "%" false sentence
     || search_symbol "$" false sentence
  then "numerical"
  else if existsb (fun w => number w && (String.length w =? 4)%nat)
            (word_runs sentence)
          || search_words temporal_words sentence
  then "temporal"
  else if search_words entity_words sentence then "entity"
  else "event".

(** [re.sub(r"\s+", " ", s)]: every maximal run of spaces becomes one
    blank; [in_run] tells that the character before [s] is a space. *)
Fixpoint sub_spaces (in_run : bool) (s : string) : string :=
  match s with
  | EmptyString => EmptyString
  | String c s' =>
      if is_space c then
        if in_run then sub_spaces true s'
        else String " " (sub_spaces true s')
      else String c (sub_spaces false s')
  end.

Definition _normalize_claim (sentence : string) : string :=
  strip (sub_spaces false sentence).

Section Extractor.

(** [hashlib.md5(s.encode("utf-8")).hexdigest()] *)
Variable md5_hexdigest : string -> string.

Definition _generate_claim_id (claim_text : string) : string :=
  NLIVerifier.take_str 16 (md5_hexdigest claim_text).

(** The loop of [extract] over [enumerate(sentences)], from index [idx]. *)
Fixpoint extract_from (idx : Z) (sentences : list string) : list Claim.t :=
  match sentences with
  | [] => []
  | sent :: rest =>
      let s := strip sent in
      if negb (truthy s) then extract_from (idx + 1)%Z rest
      else if endswith s "?" then extract_from (idx + 1)%Z rest
      else if negb (_looks_factual s) then extract_from (idx + 1)%Z rest
      else
        let claim_text := _normalize_claim s in
        {| Claim.id := _generate_claim_id claim_text;
           Claim.text := claim_text;
           Claim.claim_type := _infer_claim_type s;
           Claim.source_sentence := s;
           Claim.position := idx |}
        :: extract_from (idx + 1)%Z rest
  end.

Definition extract (text : string) : list Claim.t :=
  extract_from 0%Z (_split_sentences text).

End Extractor.

End ClaimExtractor.

(** ** Notions used to state what the extractor keeps *)

Module ExtractorSpec.

Import Py.

(** The characters of a string that are no spaces, in order. *)
Definition visible (s : string) : list ascii :=
  List.filter (fun c => negb (is_space c)) (list_ascii_of_string s).

(** The characters of a string. *)
Definition chars (s : string) : list ascii := list_ascii_of_string s.

(** The last character of the string is one of [.!?]. *)
Definition ends_sentence (s : string) : bool :=
  ClaimExtractor.after_stop (rev (chars s)).

End ExtractorSpec.

(** ** Further sample deployments *)

Module Cases.

Import Py HalluShieldState HalluShieldPipeline Samples.

Definition paris : string := "Paris is the capital of France.".

(** What the heuristic verifier makes of the placeholder evidence. *)
Definition paris_verdict : VerificationResult.t :=
  match verify_heuristic 0 "c1" paris [placeholder_evidence] with
  | Ok r => r
  | Raise _ => RunSpec.default_verification "c1"
  end.

(** A scorer whose chat model replies with a JSON list. *)
Definition loads_list (_ : string) : option json := Some (JArr []).
Definition llm_list (_ _ _ : string) : result string := Ok "[]".

(** What retrieval without a search key returns for the claim. *)
Definition paris_evidence : list Evidence.t :=
  match retrieve_placeholders 0 paris with
  | Ok l => l
  | Raise _ => []
  end.

(** What the heuristic verifier makes of that. *)
Definition paris_placeholder_verdict : VerificationResult.t :=
  match verify_heuristic 0 "c1" paris paris_evidence with
  | Ok r => r
  | Raise _ => RunSpec.default_verification "c1"
  end.

(** A reference provider that finds one page. *)
Definition wiki_paris (_ : string) (_ : Z)
  : EvidenceRetriever.response EvidenceRetriever.wiki_item :=
  EvidenceRetriever.Replied
    [ {| EvidenceRetriever.title := Some "History of Paris";
         EvidenceRetriever.wiki_snippet :=
           Some "Paris has been the capital of France since 987." |} ].

Definition wiki_paris_evidence : list Evidence.t :=
  match EvidenceRetriever._search_wikipedia true wiki_paris paris 2 with
  | Ok l => l
  | Raise _ => []
  end.

(** A request whose text was generated and whose only claim is the text,
    before the cache lookup. *)
Definition asked_again : HalluShieldState.t :=
  update_claims
    (update_call_llm (HalluShieldState.initial "Where is Paris?" None)
       "Paris is the capital of France and it lies on the river Seine."
       (mk_dict [("tier", JStr "slm")]))
    (one_claim
       "Paris is the capital of France and it lies on the river Seine.").

(** A stand-in for the digest: the text itself. *)
Definition plain_digest (s : string) : string := s.

End Cases.

(** * Theorems *)

(** ** Float comparisons *)

Lemma Qltb_lt (x y : Q) : Qltb x y = true <-> x < y.
Proof.
  unfold Qltb. rewrite negb_true_iff, <- not_true_iff_false, Qle_bool_iff.
  split; [apply Qnot_le_lt | apply Qlt_not_le].
Qed.

Lemma Qltb_ge (x y : Q) : Qltb x y = false <-> y <= x.
Proof.
  unfold Qltb. rewrite negb_false_iff. apply Qle_bool_iff.
Qed.

Lemma Qgtb_gt (x y : Q) : Qgtb x y = true <-> y < x.
Proof. apply Qltb_lt. Qed.

Lemma Qgtb_le (x y : Q) : Qgtb x y = false <-> x <= y.
Proof. apply Qltb_ge. Qed.

(** ** Decision policy *)

Module PolicyFacts.

Import VerificationResult AdaptiveDecisionPolicy PolicySpec.

Lemma accept_guard v :
  Qgtb (support_score v) 0.85 && Qltb (contradiction_score v) 0.1 = true
  <-> accept_rule v.
Proof.
  unfold accept_rule. rewrite andb_true_iff, Qgtb_gt, Qltb_lt. tauto.
Qed.

Lemma correct_guard v :
  Qgtb (contradiction_score v) 0.7 = true <-> correct_rule v.
Proof. apply Qgtb_gt. Qed.

Lemma abstain_guard v :
  (source_count v <? 2)%Z || Qltb (evidence_agreement v) 0.5 = true
  <-> abstain_rule v.
Proof.
  unfold abstain_rule. rewrite orb_true_iff, Z.ltb_lt, Qltb_lt. tauto.
Qed.

(** C1. [decide] is total: for every verification result its action is one
    of ACCEPT, CORRECT, ABSTAIN, FLAG_FOR_HUMAN, and the action is the one
    of the first rule that matches: support > 0.85 and contradiction < 0.1
    gives ACCEPT; otherwise contradiction > 0.7 gives CORRECT; otherwise
    source_count < 2 or evidence_agreement < 0.5 gives ABSTAIN; otherwise
    FLAG_FOR_HUMAN. *)
Theorem decide_first_match_wins :
  forall (claim : Claim.t) (v : VerificationResult.t) (evidence : list Evidence.t),
    let a := Decision.action (decide claim v evidence) in
    (a = "ACCEPT" \/ a = "CORRECT" \/ a = "ABSTAIN" \/ a = "FLAG_FOR_HUMAN")
    /\ (a = "ACCEPT" <-> accept_rule v)
    /\ (a = "CORRECT" <-> ~ accept_rule v /\ correct_rule v)
    /\ (a = "ABSTAIN" <->
          ~ accept_rule v /\ ~ correct_rule v /\ abstain_rule v)
    /\ (a = "FLAG_FOR_HUMAN" <->
          ~ accept_rule v /\ ~ correct_rule v /\ ~ abstain_rule v).
Proof.
  intros claim v evidence a. subst a. cbn [decide Decision.action].
  unfold _rule_based_action.
  pose proof (accept_guard v) as Ha.
  pose proof (correct_guard v) as Hc.
  pose proof (abstain_guard v) as Hb.
  destruct (Qgtb (support_score v) 0.85 && Qltb (contradiction_score v) 0.1).
  { assert (accept_rule v) by (apply Ha; reflexivity).
    intuition discriminate. }
  assert (~ accept_rule v) by (intros X; apply Ha in X; discriminate).
  destruct (Qgtb (contradiction_score v) 0.7).
  { assert (correct_rule v) by (apply Hc; reflexivity).
    intuition discriminate. }
  assert (~ correct_rule v) by (intros X; apply Hc in X; discriminate).
  destruct ((source_count v <? 2)%Z || Qltb (evidence_agreement v) 0.5).
  { assert (abstain_rule v) by (apply Hb; reflexivity).
    intuition discriminate. }
  assert (~ abstain_rule v) by (intros X; apply Hb in X; discriminate).
  intuition discriminate.
Qed.

End PolicyFacts.

(** ** Heuristic verification *)

Module VerifierFacts.

Import Py NLIVerifier HeuristicSpec.

Lemma count_if_from {A : Type} (f : A -> bool) (xs : list A) (n : Z) :
  fold_left (fun acc x => if f x then (acc + 1)%Z else acc) xs n
  = (n + Z.of_nat (length (List.filter f xs)))%Z.
Proof.
  revert n. induction xs as [| x xs IH]; intros n; cbn [fold_left List.filter].
  - cbn. lia.
  - rewrite IH. destruct (f x); cbn [length]; lia.
Qed.

Lemma count_if_filter {A : Type} (f : A -> bool) (xs : list A) :
  count_if f xs = Z.of_nat (length (List.filter f xs)).
Proof. unfold count_if. rewrite count_if_from. lia. Qed.

Lemma max2_cases (a b : Q) :
  (a < b /\ max2 a b = b) \/ (b <= a /\ max2 a b = a).
Proof.
  unfold max2. destruct (Qltb a b) eqn:E.
  - left. split; [now apply Qltb_lt | reflexivity].
  - right. split; [now apply Qltb_ge | reflexivity].
Qed.

Lemma min2_cases (a b : Q) :
  (b < a /\ min2 a b = b) \/ (a <= b /\ min2 a b = a).
Proof.
  unfold min2. destruct (Qltb b a) eqn:E.
  - left. split; [now apply Qltb_lt | reflexivity].
  - right. split; [now apply Qltb_ge | reflexivity].
Qed.

(** Python's nested [max(0.0, min(1.0, x))] is the clamp to [0, 1]. *)
Lemma max_min_is_clamp (x : Q) : max2 0.0 (min2 1.0 x) == clamp x 0 1.
Proof.
  unfold clamp.
  destruct (Qle_bool x 0) eqn:E0; [apply Qle_bool_iff in E0 |];
    [| destruct (Qle_bool 1 x) eqn:E1; [apply Qle_bool_iff in E1 |]].
  - destruct (min2_cases 1.0 x) as [[H ->] | [H ->]];
      [destruct (max2_cases 0.0 x) as [[H' ->] | [H' ->]] |
       destruct (max2_cases 0.0 1.0) as [[H' ->] | [H' ->]]]; lra.
  - destruct (min2_cases 1.0 x) as [[H ->] | [H ->]];
      [destruct (max2_cases 0.0 x) as [[H' ->] | [H' ->]] |
       destruct (max2_cases 0.0 1.0) as [[H' ->] | [H' ->]]]; lra.
  - assert (0 < x) by (apply Qnot_le_lt; intros X; apply Qle_bool_iff in X; congruence).
    assert (x < 1) by (apply Qnot_le_lt; intros X; apply Qle_bool_iff in X; congruence).
    destruct (min2_cases 1.0 x) as [[H' ->] | [H' ->]];
      [destruct (max2_cases 0.0 x) as [[H'' ->] | [H'' ->]] |
       destruct (max2_cases 0.0 1.0) as [[H'' ->] | [H'' ->]]]; lra.
Qed.

Lemma clamp_bounds (x lo hi : Q) : lo <= hi -> lo <= clamp x lo hi <= hi.
Proof.
  intros Hlh. unfold clamp.
  destruct (Qle_bool x lo) eqn:E0.
  - split; lra.
  - destruct (Qle_bool hi x) eqn:E1.
    + split; lra.
    + assert (lo < x) by (apply Qnot_le_lt; intros X; apply Qle_bool_iff in X; congruence).
      assert (x < hi) by (apply Qnot_le_lt; intros X; apply Qle_bool_iff in X; congruence).
      split; lra.
Qed.

Lemma clamp_above (x lo hi : Q) : lo <= x -> lo <= hi -> lo <= clamp x lo hi /\ (x <= hi -> clamp x lo hi == x).
Proof.
  intros Hx Hlh. split; [apply clamp_bounds; assumption |].
  intros Hxh. unfold clamp.
  destruct (Qle_bool x lo) eqn:E0.
  - apply Qle_bool_iff in E0. lra.
  - destruct (Qle_bool hi x) eqn:E1.
    + apply Qle_bool_iff in E1. lra.
    + reflexivity.
Qed.

(** The running maximum of [fold_left max2] is the largest element. *)
Lemma fold_max2_is_maximum (xs : list Q) (x : Q) :
  is_maximum (fold_left max2 xs x) (x :: xs).
Proof.
  revert x. induction xs as [| y ys IH]; intros x; cbn [fold_left].
  - split; [left; reflexivity | repeat constructor; lra].
  - destruct (IH (max2 x y)) as [Hex Hall].
    apply Forall_cons_iff in Hall as [Hhd Htl].
    destruct (max2_cases x y) as [[Hlt E] | [Hle E]]; rewrite E in *.
    + split.
      * right. exact Hex.
      * constructor; [lra |]. constructor; assumption.
    + split.
      * apply Exists_cons in Hex as [Hex | Hex]; [left; exact Hex | right; right; exact Hex].
      * constructor; [exact Hhd |]. constructor; [lra | assumption].
Qed.

Lemma max_list_is_maximum (xs : list Q) (m : Q) :
  max_list xs = Some m -> is_maximum m xs.
Proof.
  destruct xs as [| x xs]; cbn; [discriminate |].
  intros [= <-]. apply fold_max2_is_maximum.
Qed.

Lemma hit_ratio_code (tokens : list string) (snippet : string) :
  tokens <> [] ->
  inject_Z (count_if (fun t => contains t (lower snippet)) tokens)
  / inject_Z (Z.max 1 (len tokens))
  = hit_ratio tokens snippet.
Proof.
  intros Hne. unfold hit_ratio, present, len. rewrite count_if_filter.
  destruct tokens as [| t ts]; [congruence |].
  replace (Z.max 1 (Z.of_nat (length (t :: ts))))
    with (Z.of_nat (length (t :: ts))) by (cbn [length]; lia).
  reflexivity.
Qed.

Lemma hit_ratio_nonneg (tokens : list string) (snippet : string) :
  0 <= hit_ratio tokens snippet.
Proof.
  unfold hit_ratio, Qdiv. apply Qmult_le_0_compat.
  - change 0 with (inject_Z 0). rewrite <- Zle_Qle. lia.
  - apply Qinv_le_0_compat. change 0 with (inject_Z 0).
    rewrite <- Zle_Qle. lia.
Qed.

Lemma is_maximum_nonneg (m : Q) (xs : list Q) :
  is_maximum m xs -> Forall (fun x => 0 <= x) xs -> 0 <= m.
Proof.
  intros [Hex _] Hall. apply Exists_exists in Hex as (x & Hin & Hx).
  rewrite Forall_forall in Hall. specialize (Hall x Hin). lra.
Qed.

(** What [_heuristic_support] computes: 0.3 for a claim without a long
    token, and otherwise the clamp of the specification. *)
Lemma heuristic_support_cases (claim : string) (evidence_list : list Evidence.t) :
  evidence_list <> [] ->
  (claim_tokens claim = [] /\ _heuristic_support claim evidence_list = 0.3)
  \/ (claim_tokens claim <> []
      /\ exists base,
           0 <= base
           /\ is_maximum base
                (map (fun e => hit_ratio (claim_tokens claim) (Evidence.snippet e))
                     evidence_list)
           /\ _heuristic_support claim evidence_list
              = max2 0.0 (min2 1.0 (0.2 + 0.8 * base))).
Proof.
  intros Hev. unfold _heuristic_support. fold (claim_tokens claim).
  destruct (claim_tokens claim) as [| t ts] eqn:Et; [left; split; reflexivity |].
  right. split; [discriminate |].
  rewrite (map_ext
             (fun e =>
                inject_Z
                  (count_if (fun t0 => contains t0 (lower (Evidence.snippet e)))
                     (t :: ts))
                / inject_Z (Z.max 1 (len (t :: ts))))
             (fun e => hit_ratio (t :: ts) (Evidence.snippet e)))
    by (intros e; apply hit_ratio_code; discriminate).
  set (scores := map _ evidence_list).
  destruct (max_list scores) as [m |] eqn:Em.
  - exists m. pose proof (max_list_is_maximum _ _ Em) as Hmax.
    split; [| split; [exact Hmax | reflexivity]].
    apply (is_maximum_nonneg _ _ Hmax). subst scores.
    apply List.Forall_forall. intros x Hx.
    apply in_map_iff in Hx as (e & <- & _).
    apply hit_ratio_nonneg.
  - subst scores. destruct evidence_list; [congruence | discriminate].
Qed.

Section Fallback.

Variable json_loads : string -> option json.
Variable float_of_str : string -> option float.
Variable llm_ainvoke : string -> string -> string -> result string.
Variables HALLUSHIELD_PROVIDER HALLUSHIELD_VERIFIER_MODEL : option string.
Variables GEMINI_API_KEY anthropic_api_key openai_api_key : option string.
Variable default_model : option string.

Let scorer :=
  _verify_with_llm json_loads llm_ainvoke HALLUSHIELD_PROVIDER
    HALLUSHIELD_VERIFIER_MODEL GEMINI_API_KEY anthropic_api_key
    openai_api_key default_model.

Let verifier :=
  verify json_loads float_of_str llm_ainvoke HALLUSHIELD_PROVIDER
    HALLUSHIELD_VERIFIER_MODEL GEMINI_API_KEY anthropic_api_key
    openai_api_key default_model.

(** Without a provider that is configured together with its key, the
    delegated scorer is absent. *)
Lemma scorer_absent (claim : string) (evidence_list : list Evidence.t) :
  HALLUSHIELD_PROVIDER = None -> scorer claim evidence_list = Ok JNull.
Proof. intros E. unfold scorer, _verify_with_llm. rewrite E. reflexivity. Qed.

(** A reply of the chat model in which neither the text nor its brace span
    is JSON leaves the scorer without a verdict. *)
Lemma scorer_unparsable (cls : string) (model : option string)
    (fallback claim reply : string) (evidence_list : list Evidence.t) :
  llm_ainvoke cls (or_str model fallback) (_build_prompt claim evidence_list)
  = Ok reply ->
  _parse_json json_loads reply = JNull ->
  ask json_loads llm_ainvoke cls model fallback claim evidence_list = Ok JNull.
Proof. intros Hcall Hparse. unfold ask. rewrite Hcall. cbn. now rewrite Hparse. Qed.

(** An exception of the chat model is not caught: [verify] raises it. *)
Lemma scorer_raise_propagates (claim_id claim cls : string)
    (evidence_list : list Evidence.t) :
  evidence_list <> [] ->
  scorer claim evidence_list = Raise cls ->
  verifier claim_id claim evidence_list = Raise cls.
Proof.
  intros Hev Hs. unfold verifier, verify. fold scorer.
  destruct evidence_list; [congruence |]. rewrite Hs. reflexivity.
Qed.


End Fallback.

Import Samples.



End VerifierFacts.

(** ** The permissive verdict parser *)

Module ParseFacts.

Import Py NLIVerifier ParseSpec.

Lemma append_cons (c : ascii) (a b : string) :
  String c a ++ b = String c (a ++ b).
Proof. reflexivity. Qed.

Lemma append_nil_l (s : string) : EmptyString ++ s = s.
Proof. reflexivity. Qed.

Lemma drop_app_cons (c : ascii) (pre s : string) :
  drop_str (S (String.length pre)) (pre ++ String c s) = s.
Proof.
  induction pre as [| d pre IH]; [reflexivity |].
  rewrite append_cons. exact IH.
Qed.

Lemma take_app_cons (c : ascii) (pre s : string) :
  take_str (S (String.length pre)) (pre ++ String c s)
  = pre ++ String c EmptyString.
Proof.
  induction pre as [| d pre IH]; [reflexivity |].
  rewrite !append_cons. change (String.length (String d pre)) with (S (String.length pre)).
  change (take_str (S (S (String.length pre))) (String d (pre ++ String c s)))
    with (String d (take_str (S (String.length pre)) (pre ++ String c s))).
  now rewrite IH.
Qed.

Lemma find_char_app (c : ascii) (pre suf : string) :
  has_char c pre = false ->
  find_char c (pre ++ String c suf) = Some (String.length pre).
Proof.
  induction pre as [| d pre IH].
  - intros _. rewrite append_nil_l. simpl. now rewrite Ascii.eqb_refl.
  - intros H. simpl in H. apply orb_false_iff in H as [Hd Hp].
    rewrite append_cons. simpl. rewrite Hd, (IH Hp). reflexivity.
Qed.

Lemma find_char_split (c : ascii) (s : string) (i : nat) :
  find_char c s = Some i ->
  s = take_str i s ++ String c (drop_str (S i) s)
  /\ has_char c (take_str i s) = false.
Proof.
  revert i. induction s as [| d s IH]; simpl; intros i; [discriminate |].
  destruct (Ascii.eqb d c) eqn:E.
  - intros [= <-]. apply Ascii.eqb_eq in E as ->. split; reflexivity.
  - destruct (find_char c s) as [j |]; [| discriminate].
    intros [= <-]. destruct (IH j eq_refl) as [Hs Hp]. simpl. split.
    + rewrite append_cons. f_equal. exact Hs.
    + now rewrite E, Hp.
Qed.

Lemma rfind_char_none (c : ascii) (s : string) :
  rfind_char c s = None <-> has_char c s = false.
Proof.
  induction s as [| d s IH]; simpl; [tauto |].
  destruct (rfind_char c s) as [j |].
  - split; [discriminate |]. intros H. apply orb_false_iff in H as [_ H].
    apply IH in H. discriminate.
  - destruct (Ascii.eqb d c); simpl; [split; discriminate |]. tauto.
Qed.

Lemma rfind_char_app (c : ascii) (mid suf : string) :
  has_char c suf = false ->
  rfind_char c (mid ++ String c suf) = Some (String.length mid).
Proof.
  intros Hs. induction mid as [| d mid IH].
  - rewrite append_nil_l. simpl. apply rfind_char_none in Hs. rewrite Hs.
    now rewrite Ascii.eqb_refl.
  - rewrite append_cons. simpl. now rewrite IH.
Qed.

Lemma rfind_char_split (c : ascii) (s : string) (j : nat) :
  rfind_char c s = Some j ->
  s = take_str j s ++ String c (drop_str (S j) s)
  /\ has_char c (drop_str (S j) s) = false
  /\ take_str (S j) s = take_str j s ++ String c EmptyString.
Proof.
  revert j. induction s as [| d s IH]; simpl; intros j; [discriminate |].
  destruct (rfind_char c s) as [k |] eqn:Ek.
  - intros [= <-]. destruct (IH k eq_refl) as (Hs & Hp & Ht).
    change (take_str (S k) (String d s)) with (String d (take_str k s)).
    rewrite !append_cons. repeat split.
    + f_equal. exact Hs.
    + exact Hp.
    + f_equal. exact Ht.
  - destruct (Ascii.eqb d c) eqn:E; [| discriminate].
    intros [= <-]. apply Ascii.eqb_eq in E as ->. simpl.
    repeat split. now apply rfind_char_none.
Qed.

(** The search returns the span from the first opening brace to the last
    closing brace. *)
Lemma search_braces_span (text m : string) :
  search_braces text = Some m <-> brace_span text m.
Proof.
  unfold search_braces, brace_span. split.
  - destruct (find_char lbrace text) as [i |] eqn:Ef; [| discriminate].
    destruct (rfind_char rbrace (drop_str (S i) text)) as [j |] eqn:Er;
      [| discriminate].
    intros [= <-].
    destruct (find_char_split _ _ _ Ef) as [Ht Hpre].
    destruct (rfind_char_split _ _ _ Er) as (Hr & Hsuf & Htake).
    exists (take_str i text), (take_str j (drop_str (S i) text)),
      (drop_str (S j) (drop_str (S i) text)).
    repeat split; try assumption.
    + rewrite <- Hr. exact Ht.
    + exact (f_equal (String lbrace) Htake).
  - intros (pre & mid & suf & -> & Hpre & Hsuf & ->).
    rewrite (find_char_app _ _ _ Hpre), drop_app_cons.
    rewrite (rfind_char_app _ _ _ Hsuf), take_app_cons. reflexivity.
Qed.

Lemma search_braces_none (text : string) :
  search_braces text = None <-> forall m, ~ brace_span text m.
Proof.
  split.
  - intros Hn m Hm. apply search_braces_span in Hm. congruence.
  - intros H. destruct (search_braces text) as [m |] eqn:E; [| reflexivity].
    apply search_braces_span in E. now apply H in E.
Qed.



End ParseFacts.

(** ** Evidence providers *)

Module RetrieverFacts.

Import Py EvidenceRetriever RetrieverSpec.

Lemma range_lookup (n : Z) (i : nat) (x : Z) :
  range n !! i = Some x <-> x = Z.of_nat i /\ (i < Z.to_nat n)%nat.
Proof.
  unfold range. change (map Z.of_nat (seq 0 (Z.to_nat n)))
    with (Z.of_nat <$> seq 0 (Z.to_nat n)).
  rewrite list_lookup_fmap. split.
  - destruct (seq 0 (Z.to_nat n) !! i) as [k |] eqn:E; [| discriminate].
    apply lookup_seq in E as [-> Hlt]. intros [= <-]. split; [reflexivity | lia].
  - intros [-> Hlt]. rewrite (proj2 (lookup_seq 0 (Z.to_nat n) i i)); [reflexivity |].
    split; [reflexivity | lia].
Qed.

Lemma placeholders_lookup (first_score credibility : float) (claim : string)
    (top_k : Z) (i : nat) (e : Evidence.t) :
  placeholders first_score credibility claim top_k !! i = Some e ->
  (i < Z.to_nat top_k)%nat
  /\ Evidence.source_url e
     = "https://example.com/evidence/" ++ str_of_Z (Z.of_nat i)
  /\ Evidence.snippet e = "Placeholder evidence for: " ++ claim
  /\ Evidence.relevance_score e = first_score - inject_Z (Z.of_nat i) * 0.1.
Proof.
  unfold placeholders.
  match goal with
  | |- map ?f ?l !! i = _ -> _ => change (map f l) with (f <$> l)
  end.
  rewrite list_lookup_fmap.
  destruct (range top_k !! i) as [x |] eqn:E; [| discriminate].
  apply range_lookup in E as [-> Hlt]. intros [= <-]. cbn. auto.
Qed.

Lemma placeholders_are_placeholder_set (first_score credibility : float)
    (claim : string) (top_k : Z) :
  placeholder_set claim top_k (placeholders first_score credibility claim top_k).
Proof.
  unfold placeholder_set. repeat split.
  - unfold placeholders, range. now rewrite !length_map, length_seq.
  - now apply placeholders_lookup in H as (_ & Hu & _).
  - now apply placeholders_lookup in H as (_ & _ & Hs & _).
  - intros i j a b Hij Ha Hb.
    apply placeholders_lookup in Ha as (_ & _ & _ & ->).
    apply placeholders_lookup in Hb as (_ & _ & _ & ->).
    assert (inject_Z (Z.of_nat i) < inject_Z (Z.of_nat j))
      by (rewrite <- Zlt_Qlt; lia).
    lra.
Qed.

Lemma search_web_degrades brave_api_key httpx_available brave_get claim top_k :
  web_unavailable brave_api_key httpx_available brave_get claim top_k ->
  exists l,
    _search_web brave_api_key httpx_available brave_get claim top_k = Ok l
    /\ placeholder_set claim top_k l.
Proof.
  unfold web_unavailable, _search_web. intros H.
  destruct (truthy_opt brave_api_key);
    [| eexists; split; [reflexivity | apply placeholders_are_placeholder_set]].
  destruct httpx_available;
    [| eexists; split; [reflexivity | apply placeholders_are_placeholder_set]].
  destruct H as [H | [H | H]]; try discriminate.
  cbn. rewrite H.
  eexists; split; [reflexivity | apply placeholders_are_placeholder_set].
Qed.

Lemma search_wikipedia_degrades httpx_available wikipedia_get claim top_k :
  wiki_unavailable httpx_available wikipedia_get claim top_k ->
  _search_wikipedia httpx_available wikipedia_get claim top_k = Ok [].
Proof.
  unfold wiki_unavailable, _search_wikipedia. intros H.
  destruct (top_k <=? 0)%Z; [reflexivity |].
  destruct httpx_available; [| reflexivity].
  destruct H as [H | H]; [discriminate |]. cbn. now rewrite H.
Qed.

(** C6 (amended). On a missing key, a missing HTTP client or an HTTP error
    of its call, the web search returns a deterministic placeholder result
    set with decreasing relevance scores; on a missing HTTP client or an HTTP
    error the reference provider returns the empty list; neither raises, and
    as long as no call fails with anything but an HTTP error, [retrieve]
    returns a result: a transport error is never propagated. *)
Theorem providers_degrade_without_raising :
  forall (brave_api_key : option string) (httpx_available : bool)
         (brave_get : string -> Z -> response web_item)
         (wikipedia_get : string -> Z -> response wiki_item)
         (claim : string) (top_k : Z),
    (web_unavailable brave_api_key httpx_available brave_get claim top_k ->
     exists l,
       _search_web brave_api_key httpx_available brave_get claim top_k = Ok l
       /\ placeholder_set claim top_k l)
    /\ (wiki_unavailable httpx_available wikipedia_get claim top_k ->
        _search_wikipedia httpx_available wikipedia_get claim top_k = Ok [])
    /\ ((forall q n cls, brave_get q n <> Failed cls) ->
        (forall q n cls, wikipedia_get q n <> Failed cls) ->
        exists l,
          retrieve brave_api_key httpx_available brave_get wikipedia_get
            claim top_k = Ok l).
Proof.
  intros key httpx brave wiki claim top_k. split; [| split].
  - apply search_web_degrades.
  - apply search_wikipedia_degrades.
  - intros Hb Hw. unfold retrieve.
    assert (Hweb : exists l, _search_web key httpx brave claim (Z.min 3 top_k) = Ok l).
    { unfold _search_web. destruct (negb (truthy_opt key)); [eauto |].
      destruct (negb httpx); [eauto |].
      destruct (brave claim (Z.max 1 (Z.min 3 top_k))) eqn:E; eauto.
      now apply Hb in E. }
    destruct Hweb as [web ->]. cbn [bind].
    assert (Hwiki : exists l,
               _search_wikipedia httpx wiki claim
                 (Z.min 2 (Z.max 0 (top_k - len web))) = Ok l).
    { unfold _search_wikipedia.
      destruct (Z.min 2 (Z.max 0 (top_k - len web)) <=? 0)%Z; [eauto |].
      destruct (negb httpx); [eauto |].
      destruct (wiki claim (Z.min 2 (Z.max 0 (top_k - len web)))) eqn:E; eauto.
      now apply Hw in E. }
    destruct Hwiki as [wk ->]. cbn [bind]. eauto.
Qed.

(** C6 as stated fails for the reference provider: on an HTTP error it
    returns nothing, where a placeholder set of two items was promised. *)
Lemma search_wikipedia_returns_nothing_counterexample :
  _search_wikipedia true (fun _ _ => HTTPError) "Paris is in France." 2 = Ok []
  /\ ~ placeholder_set "Paris is in France." 2 [].
Proof.
  split; [reflexivity |]. intros (Hlen & _). discriminate.
Qed.

End RetrieverFacts.

(** ** Escalation *)

Module EscalationFacts.

Import Py HalluShieldState HalluShieldPipeline EscalationSpec.
Import ParseFacts VerifierFacts.

Lemma prefix_iff (n h : string) :
  String.prefix n h = true <-> exists suf, h = n ++ suf.
Proof.
  revert h. induction n as [| c n IH]; intros h; simpl.
  - split; [intros _; exists h; reflexivity | now destruct h].
  - destruct h as [| d h].
    + split; [discriminate | intros [suf H]; discriminate].
    + change (String.prefix (String c n) (String d h))
        with (if ascii_dec c d then String.prefix n h else false).
      destruct (ascii_dec c d) as [-> | Hne].
      * rewrite IH. split; intros [suf H]; exists suf.
        -- rewrite append_cons. now f_equal.
        -- rewrite append_cons in H. now injection H.
      * split; [discriminate |]. intros [suf H]. rewrite append_cons in H.
        injection H as H1 _. congruence.
Qed.

Lemma contains_iff (n h : string) :
  contains n h = true <-> is_substring n h.
Proof.
  unfold is_substring. induction h as [| d h IH].
  - change (contains n EmptyString) with (String.prefix n EmptyString || false).
    rewrite orb_false_r, prefix_iff. split.
    + intros [suf H]. exists EmptyString, suf. exact H.
    + intros (pre & suf & H). destruct pre as [| c pre].
      * exists suf. exact H.
      * rewrite append_cons in H. discriminate.
  - change (contains n (String d h))
      with (String.prefix n (String d h) || contains n h).
    rewrite orb_true_iff, IH, prefix_iff. split.
    + intros [[suf H] | (pre & suf & H)].
      * exists EmptyString, suf. exact H.
      * exists (String d pre), suf. rewrite append_cons. now f_equal.
    + intros (pre & suf & H). destruct pre as [| c pre].
      * left. exists suf. exact H.
      * right. rewrite append_cons in H. injection H as _ H.
        exists pre, suf. exact H.
Qed.

Lemma hedges_iff (raw : string) :
  existsb (fun phrase => contains phrase (lower raw))
    ModelRouter.uncertainty_phrases = true
  <-> hedges raw.
Proof.
  unfold hedges. rewrite existsb_exists. split.
  - intros (phrase & Hin & Hc). exists phrase. split; [exact Hin |].
    apply contains_iff.
    repeat (destruct Hin as [<- | Hin]; [exact Hc |]). destruct Hin.
  - intros (phrase & Hin & Hs). exists phrase. split; [exact Hin |].
    apply contains_iff in Hs.
    repeat (destruct Hin as [<- | Hin]; [exact Hs |]). destruct Hin.
Qed.

Lemma is_space_lower (c : ascii) : is_space (lower_char c) = is_space c.
Proof. destruct c as [[] [] [] [] [] [] [] []]; reflexivity. Qed.

(** Lower-casing keeps the words apart as they were. *)
Lemma runs_lower_length (s : string) (cur cur' : list ascii) :
  (cur = [] <-> cur' = []) ->
  length (runs_from (fun c => negb (is_space c)) cur (lower s))
  = length (runs_from (fun c => negb (is_space c)) cur' s).
Proof.
  revert cur cur'. induction s as [| c s IH]; intros cur cur' Hc; simpl.
  - destruct cur, cur'; try reflexivity.
    + destruct Hc as [Hc _]. discriminate (Hc eq_refl).
    + destruct Hc as [_ Hc]. discriminate (Hc eq_refl).
  - rewrite is_space_lower. destruct (is_space c); simpl.
    + destruct cur, cur'; simpl.
      * apply IH. tauto.
      * destruct Hc as [Hc _]. discriminate (Hc eq_refl).
      * destruct Hc as [_ Hc]. discriminate (Hc eq_refl).
      * f_equal. apply IH. tauto.
    + apply IH. split; discriminate.
Qed.

Lemma word_count_lower (raw : string) :
  len (split (lower raw)) = Z.of_nat (word_count raw).
Proof.
  unfold len, word_count, split, runs. f_equal.
  apply runs_lower_length. tauto.
Qed.

Lemma sum_of_from {A : Type} (f : A -> Q) (xs : list A) (a : Q) :
  fold_left (fun acc x => acc + f x) xs a
  == a + fold_right Qplus 0 (map f xs).
Proof.
  revert a. induction xs as [| x xs IH]; intros a; simpl.
  - lra.
  - rewrite IH. lra.
Qed.

Lemma sum_of_fold_right {A : Type} (f : A -> Q) (xs : list A) :
  sum_of f xs == fold_right Qplus 0 (map f xs).
Proof. unfold sum_of. rewrite sum_of_from. lra. Qed.

Lemma size_values {A : Type} (m : gmap string A) :
  size m = length (values m).
Proof. unfold values. now rewrite length_map, length_map_to_list. Qed.

(** The two scores that [_check_escalation] computes are those of the
    specification. *)
Lemma detected_scores (m : gmap string VerificationResult.t) (h c : Q) :
  (if (Z.of_nat (size m) =? 0)%Z then (0.0, 1.0)
   else
     (inject_Z
        (count_if
           (fun v =>
              Qgtb (VerificationResult.contradiction_score v) 0.5
              || Qgtb (VerificationResult.neutral_score v) 0.7)
           (values m))
      / inject_Z (Z.of_nat (size m)),
      sum_of VerificationResult.support_score (values m)
      / inject_Z (Z.of_nat (size m))))
  = (h, c) ->
  h == hallucination_score (values m) /\ c == mean_support (values m).
Proof.
  rewrite size_values. unfold hallucination_score, mean_support.
  destruct (values m) as [| v vs] eqn:Ev.
  - intros [= <- <-]. split; reflexivity.
  - replace (Z.of_nat (length (v :: vs)) =? 0)%Z with false
      by (symmetry; apply Z.eqb_neq; cbn [length]; lia).
    intros [= <- <-]. split.
    + rewrite count_if_filter. reflexivity.
    + rewrite sum_of_fold_right. reflexivity.
Qed.

Lemma as_int_inject (n : Z) : as_int (JNum (inject_Z n)) = Ok n.
Proof.
  unfold as_int. rewrite Qfloor_Z.
  now rewrite (proj2 (Qeq_bool_iff _ _) (Qeq_refl (inject_Z n))).
Qed.

(** What [should_escalate] answers, rule by rule. *)
Lemma should_escalate_rules (r : ModelResponse.t) (h c : Q) :
  let raw := ModelResponse.text r in
  let b := fst (ModelRouter.should_escalate r h c) in
  let reason := snd (ModelRouter.should_escalate r h c) in
  (b = true <-> hedges raw \/ 0.3 < h \/ c < 0.5 \/ rule_brief raw)
  /\ (hedges raw -> reason = "SLM expressed uncertainty")
  /\ (~ hedges raw -> 0.3 < h ->
      reason = "High hallucination rate: " ++ ModelRouter.format_percent1 h)
  /\ (~ hedges raw -> ~ 0.3 < h -> c < 0.5 ->
      reason
      = "Low verification confidence: " ++ ModelRouter.format_fixed 2 c)
  /\ (~ hedges raw -> ~ 0.3 < h -> ~ c < 0.5 -> rule_brief raw ->
      reason = "Response too brief, may lack detail")
  /\ (~ hedges raw -> ~ 0.3 < h -> ~ c < 0.5 -> ~ rule_brief raw ->
      reason = "No escalation needed").
Proof.
  intros raw b reason. subst b reason. unfold ModelRouter.should_escalate.
  fold raw. pose proof (hedges_iff raw) as Hh.
  pose proof (Qgtb_gt h 0.3) as Hs. pose proof (Qltb_lt c 0.5) as Hc.
  assert (Hw : (len (split (lower raw)) <? 10)%Z = true <-> rule_brief raw).
  { rewrite word_count_lower, Z.ltb_lt. unfold rule_brief. lia. }
  destruct (existsb _ ModelRouter.uncertainty_phrases).
  { assert (hedges raw) by (apply Hh; reflexivity). cbn [fst snd].
    intuition discriminate. }
  assert (~ hedges raw) by (intros X; apply Hh in X; discriminate).
  destruct (Qgtb h 0.3).
  { assert (0.3 < h) by (apply Hs; reflexivity). cbn [fst snd].
    intuition discriminate. }
  assert (~ 0.3 < h) by (intros X; apply Hs in X; discriminate).
  destruct (Qltb c 0.5).
  { assert (c < 0.5) by (apply Hc; reflexivity). cbn [fst snd].
    intuition discriminate. }
  assert (~ c < 0.5) by (intros X; apply Hc in X; discriminate).
  destruct (len (split (lower raw)) <? 10)%Z.
  { assert (rule_brief raw) by (apply Hw; reflexivity). cbn [fst snd].
    intuition discriminate. }
  assert (~ rule_brief raw) by (intros X; apply Hw in X; discriminate).
  cbn [fst snd]. intuition discriminate.
Qed.



(** Scenario B of the specification: a text that expresses uncertainty
    escalates at the slm tier, with the uncertainty reason. *)
Example unsure_text_escalates :
  exists state',
    _check_escalation Samples.unsure_state Samples.fresh_world
    = (Ok state',
       with_router Samples.fresh_world
         (ModelRouter.add_cost_saved
            (ModelRouter.add_escalation ModelRouter.new)
            (ModelRouter._calculate_cost 12 "llm_pro" - 0)))
    /\ should_escalate state' = Some true
    /\ escalation_reason state' = Some "SLM expressed uncertainty".
Proof. eexists. split; [reflexivity | split; reflexivity]. Qed.

End EscalationFacts.

(** ** The regeneration loop *)

Module LoopFacts.

Import Py HalluShieldState HalluShieldPipeline LoopSpec.

Lemma fold_insert_other (entries : list (string * json))
    (m : gmap string json) (k : string) :
  Forall (fun kv => kv.1 <> k) entries ->
  fold_left (fun m kv => <[kv.1 := kv.2]> m) entries m !! k = m !! k.
Proof.
  revert m. induction entries as [| [k' v] rest IH]; intros m Hall; simpl.
  - reflexivity.
  - apply Forall_cons in Hall as [Hk Hrest]. rewrite (IH _ Hrest).
    now apply lookup_insert_ne.
Qed.

Section Loop.

Variable llm_model : option string.
Variable HALLUSHIELD_SLM_MODEL : option string.
Variable GROQ_API_KEY : option string.
Variable HF_TOKEN : option string.
Variable GEMINI_API_KEY : option string.
Variable ANTHROPIC_API_KEY : option string.
Variable groq_create
  : nat -> string -> string -> result ModelRouter.groq_completion.
Variable hf_create : nat -> string -> result ModelRouter.hf_completion.
Variable gemini_generate : nat -> string -> string -> result string.
Variable claude_create : nat -> string -> result ModelRouter.claude_message.
Variable extract : string -> list Claim.t.
Variable retrieve : nat -> string -> result (list Evidence.t).
Variable verify
  : nat -> string -> string -> list Evidence.t -> result VerificationResult.t.

Let router_response :=
  get_response GROQ_API_KEY HF_TOKEN GEMINI_API_KEY ANTHROPIC_API_KEY
    groq_create hf_create gemini_generate claude_create.

Let node_call_llm :=
  _call_llm llm_model HALLUSHIELD_SLM_MODEL GROQ_API_KEY HF_TOKEN
    GEMINI_API_KEY ANTHROPIC_API_KEY groq_create hf_create gemini_generate
    claude_create.

Let node_run :=
  run_node llm_model HALLUSHIELD_SLM_MODEL GROQ_API_KEY HF_TOKEN
    GEMINI_API_KEY ANTHROPIC_API_KEY groq_create hf_create gemini_generate
    claude_create extract retrieve verify.

Let graph_run :=
  run_from llm_model HALLUSHIELD_SLM_MODEL GROQ_API_KEY HF_TOKEN
    GEMINI_API_KEY ANTHROPIC_API_KEY groq_create hf_create gemini_generate
    claude_create extract retrieve verify.

Let esc (r : ModelRouter.t) : Z :=
  ModelRouter.escalations (ModelRouter.stats r).

Lemma call_gemini_facts (query model : string) (r : ModelRouter.t) :
  let out := ModelRouter._call_gemini GEMINI_API_KEY gemini_generate query model r in
  esc out.2 = esc r
  /\ forall response, out.1 = Ok response ->
       ModelResponse.tier response = "llm"
       /\ Forall (fun kv => kv.1 <> "tier") (ModelResponse.metadata response).
Proof.
  unfold ModelRouter._call_gemini.
  destruct (negb (truthy_opt GEMINI_API_KEY)); cbn.
  - split; [reflexivity | discriminate].
  - destruct (gemini_generate (ModelRouter.api_calls r) query model); cbn.
    + split; [reflexivity |]. intros response [= <-]. cbn.
      split; [reflexivity | repeat constructor; discriminate].
    + split; [reflexivity | discriminate].
Qed.

Lemma call_claude_facts (query : string) (r : ModelRouter.t) :
  let out := ModelRouter._call_claude ANTHROPIC_API_KEY claude_create query r in
  esc out.2 = esc r
  /\ forall response, out.1 = Ok response ->
       ModelResponse.tier response = "llm"
       /\ Forall (fun kv => kv.1 <> "tier") (ModelResponse.metadata response).
Proof.
  unfold ModelRouter._call_claude.
  destruct (negb (truthy_opt ANTHROPIC_API_KEY)); cbn.
  - split; [reflexivity | discriminate].
  - destruct (claude_create (ModelRouter.api_calls r) query); cbn.
    + split; [reflexivity |]. intros response [= <-]. cbn.
      split; [reflexivity | repeat constructor; discriminate].
    + split; [reflexivity | discriminate].
Qed.

Lemma call_groq_facts (query model : string) (r : ModelRouter.t) :
  esc (ModelRouter._call_groq GROQ_API_KEY groq_create query model r).2 = esc r.
Proof.
  unfold ModelRouter._call_groq.
  destruct (negb (truthy_opt GROQ_API_KEY)); [reflexivity |].
  destruct (groq_create (ModelRouter.api_calls r) query model); reflexivity.
Qed.

Lemma call_huggingface_facts (query : string) (r : ModelRouter.t) :
  esc (ModelRouter._call_huggingface HF_TOKEN hf_create query r).2 = esc r.
Proof.
  unfold ModelRouter._call_huggingface.
  destruct (negb (truthy_opt HF_TOKEN)); [reflexivity |].
  destruct (hf_create (ModelRouter.api_calls r) query); reflexivity.
Qed.

Lemma router_call_llm_facts (query model : string) (r : ModelRouter.t) :
  let out :=
    ModelRouter._call_llm GEMINI_API_KEY ANTHROPIC_API_KEY gemini_generate
      claude_create query model r in
  esc out.2 = esc r
  /\ forall response, out.1 = Ok response ->
       ModelResponse.tier response = "llm"
       /\ Forall (fun kv => kv.1 <> "tier") (ModelResponse.metadata response).
Proof.
  unfold ModelRouter._call_llm.
  pose proof (call_gemini_facts query model (ModelRouter.add_llm_call r))
    as [Hg1 Hg2].
  destruct (ModelRouter._call_gemini _ _ query model _) as [[resp | cls] r1].
  - cbn in *. split; [exact Hg1 |]. intros response [= <-]. now apply Hg2.
  - pose proof (call_claude_facts query r1) as [Hc1 Hc2].
    destruct (ModelRouter._call_claude _ _ query r1) as [[resp | cls'] r2].
    + cbn in *. split; [rewrite Hc1, Hg1; reflexivity |].
      intros response [= <-]. now apply Hc2.
    + cbn in *. split; [rewrite Hc1, Hg1; reflexivity | discriminate].
Qed.

Lemma router_call_slm_facts (query model : string) (r : ModelRouter.t) :
  esc (ModelRouter._call_slm GROQ_API_KEY HF_TOKEN groq_create hf_create
         query model r).2 = esc r.
Proof.
  unfold ModelRouter._call_slm.
  pose proof (call_groq_facts query model (ModelRouter.add_slm_call r)) as Hg.
  destruct (ModelRouter._call_groq _ _ query model _) as [[resp | cls] r1].
  - exact Hg.
  - pose proof (call_huggingface_facts query r1) as Hh.
    destruct (ModelRouter._call_huggingface _ _ query r1)
      as [[resp | cls'] r2]; cbn in *; rewrite Hh, Hg; reflexivity.
Qed.

(** A response asked at the llm tier carries that tier, and its metadata
    has no entry that would replace it in the state. *)
Lemma llm_response_tier (query slm llm : string) (r r' : ModelRouter.t)
    (response : ModelResponse.t) :
  router_response query "llm" slm llm r = (Ok response, r') ->
  ModelResponse.tier response = "llm"
  /\ Forall (fun kv => kv.1 <> "tier") (ModelResponse.metadata response).
Proof.
  unfold router_response, get_response, ModelRouter.get_response.
  change (String.eqb "llm" "llm") with true. cbv iota.
  intros H. destruct (router_call_llm_facts query llm r) as [_ Hr].
  apply Hr. now rewrite H.
Qed.

(** No call of the router touches its count of escalations. *)
Lemma response_keeps_escalations (query tier slm llm : string)
    (r : ModelRouter.t) :
  esc (router_response query tier slm llm r).2 = esc r.
Proof.
  unfold router_response, get_response, ModelRouter.get_response.
  destruct (String.eqb tier "llm"); [| destruct (String.eqb tier "slm")].
  - apply router_call_llm_facts.
  - apply router_call_slm_facts.
  - apply router_call_slm_facts.
Qed.

(** *** The nodes, one by one *)

Lemma call_llm_records_tier (s s' : HalluShieldState.t) (w w' : world) :
  force_llm_tier s = Some true ->
  node_call_llm s w = (Ok s', w') ->
  recorded_tier s' = JStr "llm".
Proof.
  intros Hf. unfold node_call_llm, _call_llm. rewrite Hf. cbn [default].
  fold router_response.
  destruct (router_response _ _ _ _ (model_router w)) as [[response | cls] r]
    eqn:Er; [| discriminate].
  apply llm_response_tier in Er as [Ht Hmd].
  intros [= <- <-]. unfold recorded_tier.
  cbn [llm_metadata update_call_llm default]. unfold mk_dict.
  cbn [fold_left fst snd id]. rewrite (fold_insert_other _ _ _ Hmd).
  rewrite !lookup_insert_ne by discriminate. rewrite lookup_insert_eq.
  cbn. now rewrite Ht.
Qed.

Lemma call_llm_keeps_escalations (s : HalluShieldState.t) (w : world) :
  escalations_of (node_call_llm s w).2 = escalations_of w.
Proof.
  unfold node_call_llm, _call_llm. fold router_response.
  destruct (default false (force_llm_tier s)).
  - pose proof (response_keeps_escalations (query s) "llm"
                  "llama-3.3-70b-versatile"
                  (or_str llm_model "gemini-2.5-flash") (model_router w)) as H.
    destruct (router_response _ _ _ _ (model_router w)) as [[response | cls] r];
      exact H.
  - pose proof (response_keeps_escalations (query s) "slm"
                  (default "llama-3.3-70b-versatile" HALLUSHIELD_SLM_MODEL)
                  "gemini-2.5-flash" (model_router w)) as H.
    destruct (router_response _ _ _ _ (model_router w)) as [[response | cls] r];
      exact H.
Qed.

Lemma retrieve_loop_router cached claims evidence_map (w : world) :
  model_router (retrieve_loop retrieve cached claims evidence_map w).2
  = model_router w.
Proof.
  revert evidence_map w. induction claims as [| c rest IH];
    intros evidence_map w; cbn [retrieve_loop]; [reflexivity |].
  destruct (cached !! Claim.id c); [apply IH |].
  destruct (retrieve _ _); [| reflexivity].
  rewrite IH. reflexivity.
Qed.

Lemma verify_loop_router evidence_map claims results (w : world) :
  model_router (verify_loop verify evidence_map claims results w).2
  = model_router w.
Proof.
  revert results w. induction claims as [| c rest IH];
    intros results w; cbn [verify_loop]; [reflexivity |].
  destruct (evidence_map !! Claim.id c) as [[| e es] |]; try apply IH.
  destruct (verify _ _ _ _); [| reflexivity].
  rewrite IH. reflexivity.
Qed.

(** At the llm tier the check refuses to escalate, whatever the text and
    the scores, and changes nothing else. *)
Lemma check_escalation_capped (s : HalluShieldState.t) (w : world) :
  recorded_tier s = JStr "llm" ->
  _check_escalation s w
  = (Ok (update_not_escalating s false "Already using LLM tier"), w).
Proof.
  intros Ht. unfold _check_escalation. fold (recorded_tier s). rewrite Ht.
  reflexivity.
Qed.

Lemma check_escalation_outcome (s : HalluShieldState.t) (w : world) :
  match _check_escalation s w with
  | (Raise _, w') => w' = w
  | (Ok s', w') =>
      (should_escalate s' = Some false /\ w' = w)
      \/ (should_escalate s' = Some true /\ force_llm_tier s' = Some true
          /\ escalations_of w' = (escalations_of w + 1)%Z)
  end.
Proof.
  unfold _check_escalation.
  destruct (is_jstr _ "llm"); [left; split; reflexivity |].
  destruct (if (Z.of_nat (size (default ∅ (verification_results s))) =? 0)%Z
            then _ else _) as [h c].
  destruct (bind (as_str _) _) as [slm_response | cls]; [| reflexivity].
  destruct (ModelRouter.should_escalate slm_response h c) as [[] reason].
  - right. repeat split.
  - left. split; reflexivity.
Qed.

(** *** One step of the graph *)

(** The escalations that may still be counted. *)
Let pending (escalated : bool) : Z := if escalated then 0 else 1.

(** A step never counts more escalations than are pending. *)
Lemma step_escalations (e : bool) (n : node) (s : HalluShieldState.t)
    (w : world) :
  (e = true -> after_escalation n s) ->
  (escalations_of (node_run n s w).2 <= escalations_of w + pending e)%Z.
Proof.
  intros Hinv. assert (0 <= pending e)%Z by (destruct e; cbn; lia).
  destruct n; cbn [node_run run_node snd].
  - fold node_call_llm. rewrite call_llm_keeps_escalations. lia.
  - lia.
  - lia.
  - unfold _retrieve_evidence, escalations_of.
    pose proof (retrieve_loop_router (default ∅ (cached_claims s))
                  (default [] (claims s)) ∅ w) as Hr.
    destruct (retrieve_loop _ _ _ _ w) as [[m | cls] w']; cbn in *;
      rewrite Hr; fold (escalations_of w); lia.
  - unfold _verify_claims, escalations_of.
    pose proof (verify_loop_router (default ∅ (evidence_map s))
                  (default [] (claims s)) ∅ w) as Hr.
    destruct (verify_loop _ _ _ _ w) as [[m | cls] w']; cbn in *;
      rewrite Hr; fold (escalations_of w); lia.
  - destruct e.
    + rewrite check_escalation_capped by (now apply Hinv). cbn. lia.
    + pose proof (check_escalation_outcome s w) as Ho.
      destruct (_check_escalation s w) as [[s' | cls] w']; cbn in *.
      * destruct Ho as [[_ ->] | (_ & _ & ->)]; lia.
      * subst w'. lia.
  - lia.
  - lia.
  - unfold escalations_of. cbn.
    assert (Hm : forall ds w0,
               model_router
                 (fold_left
                    (fun w1 decision =>
                       match default ∅ (cached_claims s)
                             !! Decision.claim_id decision with
                       | Some _ => w1
                       | None =>
                           with_store w1
                             (MemoryStore.store_verification (memory_store w1)
                                (Decision.original_claim decision)
                                (Decision.action decision)
                                (Decision.corrected_claim decision)
                                (Decision.evidence_urls decision)
                                (Decision.confidence decision))
                       end) ds w0)
               = model_router w0).
    { induction ds as [| d ds IH]; intros w0; cbn; [reflexivity |].
      rewrite IH. now destruct (_ !! _). }
    unfold _update_memory. rewrite Hm. fold (escalations_of w). lia.
Qed.

(** A step that goes on leads to a node of smaller rank; it takes the loop
    only once, and then enters the part of the run in which the llm tier is
    recorded. *)
Lemma step_next (e : bool) (n n' : node) (s s' : HalluShieldState.t)
    (w w' : world) :
  (e = true -> after_escalation n s) ->
  node_run n s w = (Ok s', w') ->
  next_node n s' = Some n' ->
  exists e',
    (e' = true -> after_escalation n' s')
    /\ (rank e' n' < rank e n)%nat
    /\ (escalations_of w' + pending e' <= escalations_of w + pending e)%Z
    /\ ((e' = e /\ node_eqb call_llm n' = false)
        \/ (e = false /\ e' = true /\ n' = call_llm)).
Proof.
  intros Hinv Hrun Hnext.
  pose proof (step_escalations e n s w Hinv) as Hesc. rewrite Hrun in Hesc.
  cbn [snd] in Hesc.
  destruct n; cbn [node_run run_node] in Hrun; cbn [next_node] in Hnext.
  - (* call_llm *)
    injection Hnext as <-. exists e. split; [| split; [| split]].
    + intros ->. cbn. eapply call_llm_records_tier; [now apply Hinv | exact Hrun].
    + destruct e; cbn; lia.
    + pose proof (call_llm_keeps_escalations s w) as Hk.
      fold node_call_llm in Hrun. rewrite Hrun in Hk. cbn in Hk. lia.
    + left. split; reflexivity.
  - (* extract_claims *)
    injection Hrun as <- <-. injection Hnext as <-. exists e.
    split; [| split; [| split]].
    + intros ->. exact (Hinv eq_refl).
    + destruct e; cbn; lia.
    + lia.
    + left. split; reflexivity.
  - (* check_memory *)
    injection Hrun as <- <-. exists e.
    destruct (String.eqb (_route_by_cache _) "has_new_claims");
      injection Hnext as <-; (split; [| split; [| split]]);
      try (intros ->; exact (Hinv eq_refl));
      try (destruct e; cbn; lia); try lia; left; split; reflexivity.
  - (* retrieve_evidence *)
    injection Hnext as <-. exists e. unfold _retrieve_evidence in Hrun.
    pose proof (retrieve_loop_router (default ∅ (cached_claims s))
                  (default [] (claims s)) ∅ w) as Hr.
    destruct (retrieve_loop _ _ _ _ w) as [[m | cls] w1]; [| discriminate].
    injection Hrun as <- <-. cbn in Hr.
    split; [| split; [| split]].
    + intros ->. exact (Hinv eq_refl).
    + destruct e; cbn; lia.
    + unfold escalations_of. rewrite Hr. lia.
    + left. split; reflexivity.
  - (* verify_claims *)
    injection Hnext as <-. exists e. unfold _verify_claims in Hrun.
    pose proof (verify_loop_router (default ∅ (evidence_map s))
                  (default [] (claims s)) ∅ w) as Hr.
    destruct (verify_loop _ _ _ _ w) as [[m | cls] w1]; [| discriminate].
    injection Hrun as <- <-. cbn in Hr.
    split; [| split; [| split]].
    + intros ->. exact (Hinv eq_refl).
    + destruct e; cbn; lia.
    + unfold escalations_of. rewrite Hr. lia.
    + left. split; reflexivity.
  - (* check_escalation *)
    destruct e.
    + rewrite check_escalation_capped in Hrun by (now apply Hinv).
      injection Hrun as <- <-. cbn in Hnext. injection Hnext as <-.
      exists true. cbn. repeat split; try lia; try (now left).
    + pose proof (check_escalation_outcome s w) as Ho. rewrite Hrun in Ho.
      unfold _route_by_escalation in Hnext.
      destruct Ho as [[Hs ->] | (Hs & Hf & Hw)]; rewrite Hs in Hnext;
        cbn in Hnext; injection Hnext as <-.
      * exists false. cbn. repeat split; try lia; try (now left).
      * exists true. cbn. repeat split; try lia; try (intros _; assumption);
          try (right; repeat split).
  - (* apply_policy *)
    injection Hrun as <- <-. injection Hnext as <-. exists e. cbn.
    repeat split; try lia; try (now left).
  - (* assemble_answer *)
    injection Hrun as <- <-. injection Hnext as <-. exists e. cbn.
    repeat split; try lia; try (now left).
  - discriminate.
Qed.

(** *** Whole runs *)

Lemma rank_positive (e : bool) (n : node) : (1 <= rank e n)%nat.
Proof. destruct e, n; cbn; lia. Qed.

Lemma run_bounds (limit : nat) :
  forall (e : bool) (n : node) (s : HalluShieldState.t) (w : world),
    (e = true -> after_escalation n s) ->
    let out := graph_run limit n s w in
    (length out.2 <= rank e n)%nat
    /\ (generations out.2
        <= (if node_eqb call_llm n then 1 else 0) + (if e then 0 else 1))%nat
    /\ (escalations_of out.1.2 <= escalations_of w + pending e)%Z.
Proof.
  induction limit as [| limit IH]; intros e n s w Hinv.
  - cbn. repeat split; try lia. destruct e; cbn; lia.
  - cbn [graph_run run_from]. fold node_run. fold graph_run.
    pose proof (step_escalations e n s w Hinv) as Hesc.
    pose proof (rank_positive e n) as Hpos.
    destruct (node_run n s w) as [[s' | cls] w'] eqn:Hrun.
    + destruct (next_node n s') as [n' |] eqn:Hnext.
      * destruct (step_next e n n' s s' w w' Hinv Hrun Hnext)
          as (e' & Hinv' & Hrank & Hpend & Hloop).
        specialize (IH e' n' s' w' Hinv').
        destruct (graph_run limit n' s' w') as [[r w''] trace].
        cbn [fst snd] in IH. destruct IH as (Hlen & Hgen & Hesc').
        cbn [fst snd length]. repeat split; try lia.
        unfold generations in *. cbn [List.filter].
        destruct Hloop as [[-> Hn'] | (-> & -> & ->)].
        -- rewrite Hn' in Hgen. destruct (node_eqb call_llm n); cbn [length]; lia.
        -- cbn in Hgen. destruct (node_eqb call_llm n); cbn [length]; lia.
      * cbn [fst snd length] in *. repeat split; try lia.
        unfold generations. cbn [List.filter].
        destruct (node_eqb call_llm n); cbn [length]; lia.
    + cbn [fst snd length] in *. repeat split; try lia.
      unfold generations. cbn [List.filter].
      destruct (node_eqb call_llm n); cbn [length]; lia.
Qed.

(** A limit of at least the rank is never reached: the run is the same
    under every such limit. *)
Lemma run_limit_irrelevant (l1 : nat) :
  forall (l2 : nat) (e : bool) (n : node) (s : HalluShieldState.t) (w : world),
    (e = true -> after_escalation n s) ->
    (rank e n <= l1)%nat -> (rank e n <= l2)%nat ->
    graph_run l1 n s w = graph_run l2 n s w.
Proof.
  induction l1 as [| l1 IH]; intros l2 e n s w Hinv H1 H2.
  - pose proof (rank_positive e n). lia.
  - destruct l2 as [| l2]; [pose proof (rank_positive e n); lia |].
    cbn [graph_run run_from]. fold node_run. fold graph_run.
    destruct (node_run n s w) as [[s' | cls] w'] eqn:Hrun; [| reflexivity].
    destruct (next_node n s') as [n' |] eqn:Hnext; [| reflexivity].
    destruct (step_next e n n' s s' w w' Hinv Hrun Hnext)
      as (e' & Hinv' & Hrank & _ & _).
    rewrite (IH l2 e' n' s' w' Hinv') by lia. reflexivity.
Qed.

(** C2. Once the generation-tier metadata records the llm tier, the
    escalation check answers should_escalate = false whatever the text and
    the verification results are, and changes nothing but the two escalation
    fields; and in every run of the workflow from the initial state of a
    request, generation runs at most twice, that is the regenerate loop is
    taken at most once, the router counts at most one escalation, and the
    run ends within 15 steps, so that the step limit of the graph is never
    reached. *)
Theorem escalation_fires_at_most_once :
  forall (query : string) (user_id : option string) (w : world),
    (forall (state : HalluShieldState.t) (w0 : world),
       recorded_tier state = JStr "llm" ->
       exists state',
         _check_escalation state w0 = (Ok state', w0)
         /\ should_escalate state' = Some false
         /\ _route_by_escalation state' = "proceed")
    /\ let out := graph_run 25 call_llm (HalluShieldState.initial query user_id) w in
       (generations out.2 <= 2)%nat
       /\ (length out.2 <= 15)%nat
       /\ (escalations_of out.1.2 <= escalations_of w + 1)%Z
       /\ forall limit,
            (15 <= limit)%nat ->
            graph_run limit call_llm (HalluShieldState.initial query user_id) w
            = out.
Proof.
  intros query user_id w. split.
  - intros state w0 Ht. eexists. split; [now apply check_escalation_capped |].
    split; reflexivity.
  - intros out.
    destruct (run_bounds 25 false call_llm
                (HalluShieldState.initial query user_id) w)
      as (Hlen & Hgen & Hesc); [discriminate |].
    fold out in Hlen, Hgen, Hesc. cbn in Hlen, Hgen, Hesc.
    repeat split; try assumption.
    intros limit Hl. subst out.
    apply (run_limit_irrelevant limit 25 false); [discriminate | exact Hl | cbn; lia].
Qed.

End Loop.

End LoopFacts.

(** ** Answer assembly *)

Module AssemblyFacts.

Import Py HalluShieldState HalluShieldPipeline AssemblySpec.
Import ParseFacts VerifierFacts EscalationFacts.

Lemma append_nil_r (s : string) : s ++ EmptyString = s.
Proof. induction s as [| c s IH]; [reflexivity |]. now rewrite append_cons, IH. Qed.

Lemma append_assoc (a b c : string) : (a ++ b) ++ c = a ++ (b ++ c).
Proof.
  induction a as [| x a IH]; [reflexivity |]. now rewrite !append_cons, IH.
Qed.

Lemma length_append (a b : string) :
  String.length (a ++ b) = (String.length a + String.length b)%nat.
Proof.
  induction a as [| x a IH]; [reflexivity |].
  rewrite append_cons. cbn [String.length]. now rewrite IH.
Qed.

Lemma length_zero (s : string) : String.length s = O -> s = EmptyString.
Proof. destruct s; [reflexivity | discriminate]. Qed.

Lemma drop_all (k : nat) : NLIVerifier.drop_str k EmptyString = EmptyString.
Proof. destruct k; reflexivity. Qed.

(** Dropping the rest of a matched occurrence and going on is the same as
    going on behind it. *)
Lemma replace_from_skip (old new : string) (k : nat) (s : string) :
  old <> EmptyString ->
  replace_from old new k s = replace_from old new 0 (NLIVerifier.drop_str k s).
Proof.
  intros Hold. revert k. induction s as [| c s IH]; intros k.
  - rewrite drop_all. destruct old; [congruence |]. now destruct k.
  - destruct k as [| k]; [reflexivity |]. cbn [replace_from NLIVerifier.drop_str].
    apply IH.
Qed.

Lemma replace_from_match (old new post : string) :
  old <> EmptyString ->
  replace_from old new 0 (old ++ post) = new ++ replace_from old new 0 post.
Proof.
  intros Hold. destruct old as [| a o]; [congruence |].
  rewrite append_cons. cbn [replace_from].
  assert (Hp : String.prefix (String a o) (String a (o ++ post)) = true).
  { apply prefix_iff. exists post. now rewrite append_cons. }
  rewrite Hp. f_equal. rewrite replace_from_skip by discriminate.
  replace (String.length (String a o) - 1)%nat with (String.length o)
    by (cbn [String.length]; lia).
  f_equal.
  clear. induction o as [| b o IH]; [reflexivity |].
  rewrite append_cons. exact IH.
Qed.

Lemma replace_from_no_match (old new : string) (c : ascii) (s : string) :
  String.prefix old (String c s) = false ->
  replace_from old new 0 (String c s) = String c (replace_from old new 0 s).
Proof. intros Hp. cbn [replace_from]. now rewrite Hp. Qed.

Lemma replaced_cons (old new : string) (c : ascii) (s r : string) :
  String.prefix old (String c s) = false ->
  replaced old new s r ->
  replaced old new (String c s) (String c r).
Proof.
  intros Hp Hr. destruct Hr as [s Hnone | pre post post' Hfirst Hrest].
  - apply replaced_none. intros pre suf Heq. destruct pre as [| d pre].
    + rewrite append_nil_l in Heq.
      assert (String.prefix old (String c s) = true)
        by (apply prefix_iff; eauto).
      congruence.
    + rewrite append_cons in Heq. injection Heq as _ Heq.
      now apply Hnone in Heq.
  - change (String c (pre ++ old ++ post))
      with (String c pre ++ old ++ post).
    change (String c (pre ++ new ++ post'))
      with (String c pre ++ new ++ post').
    apply replaced_first; [| exact Hrest].
    intros p q Heq. destruct p as [| d p].
    + rewrite append_nil_l, append_cons in Heq.
      assert (String.prefix old (String c (pre ++ old ++ post)) = true).
      { apply prefix_iff. exists (q ++ post).
        rewrite <- (append_assoc old q post), <- Heq.
        now rewrite append_cons, append_assoc. }
      congruence.
    + rewrite !append_cons in Heq. injection Heq as _ Heq.
      now apply Hfirst in Heq.
Qed.

(** [str.replace] replaces the occurrences from the left, without
    overlap. *)
Lemma replace_is_replaced (old new : string) :
  old <> EmptyString ->
  forall s, replaced old new s (replace s old new).
Proof.
  intros Hold s. unfold replace.
  remember (String.length s) as n eqn:Hn.
  assert (Hle : (String.length s <= n)%nat) by lia. clear Hn.
  revert s Hle. induction n as [| n IH]; intros s Hle.
  - assert (Hs : s = EmptyString) by (apply length_zero; lia). subst s.
    destruct old as [| a o]; [congruence |]. cbn.
    apply replaced_none. intros pre suf Heq. destruct pre; discriminate.
  - destruct s as [| c s].
    + destruct old as [| a o]; [congruence |]. cbn.
      apply replaced_none. intros pre suf Heq. destruct pre; discriminate.
    + destruct (String.prefix old (String c s)) eqn:Hp.
      * apply prefix_iff in Hp as [post Hpost]. rewrite Hpost.
        rewrite replace_from_match by exact Hold.
        change (old ++ post) with (EmptyString ++ old ++ post).
        change (new ++ replace_from old new 0 post)
          with (EmptyString ++ new ++ replace_from old new 0 post).
        apply replaced_first.
        -- intros p q Heq. rewrite append_nil_l in Heq.
           apply (f_equal String.length) in Heq.
           rewrite !length_append in Heq. apply length_zero. lia.
        -- apply IH.
           apply (f_equal String.length) in Hpost.
           rewrite length_append in Hpost. cbn [String.length] in *.
           destruct old; [congruence |]. cbn [String.length] in *. lia.
      * rewrite replace_from_no_match by exact Hp.
        apply replaced_cons; [exact Hp |]. apply IH. cbn in Hle. lia.
Qed.

Lemma or_str_truthy (c : string) : truthy c = true -> or_str (Some c) "" = c.
Proof. intros H. unfold or_str. now rewrite H. Qed.

(** The first component of one turn of the loop. *)
Lemma assemble_step_answer (answer : string) (ms : list modification)
    (d : Decision.t) :
  (assemble_step (answer, ms) d).1
  = match correction_of d with
    | Some c => replace answer (Decision.original_claim d) (c ++ " [CORRECTED]")
    | None => answer
    end.
Proof.
  unfold assemble_step, correction_of.
  destruct (Decision.corrected_claim d) as [c |]; cbn [truthy_opt].
  - destruct (String.eqb (Decision.action d) "CORRECT"); cbn [andb].
    + destruct (truthy c) eqn:Ec; [now rewrite (or_str_truthy c Ec) |].
      destruct (String.eqb (Decision.action d) "ABSTAIN"); [reflexivity |].
      now destruct (String.eqb (Decision.action d) "FLAG_FOR_HUMAN").
    + destruct (String.eqb (Decision.action d) "ABSTAIN"); [reflexivity |].
      now destruct (String.eqb (Decision.action d) "FLAG_FOR_HUMAN").
  - rewrite andb_false_r.
    destruct (String.eqb (Decision.action d) "ABSTAIN"); [reflexivity |].
    now destruct (String.eqb (Decision.action d) "FLAG_FOR_HUMAN").
Qed.

Lemma assemble_loop_answer (decisions : list Decision.t) :
  Forall (fun d => Decision.original_claim d <> EmptyString) decisions ->
  forall (answer : string) (ms : list modification),
    corrected_answer decisions answer
      (fold_left assemble_step decisions (answer, ms)).1.
Proof.
  induction 1 as [| d rest Hd Hrest IH]; intros answer ms; cbn [fold_left].
  - constructor.
  - pose proof (assemble_step_answer answer ms d) as Hstep.
    destruct (assemble_step (answer, ms) d) as [answer' ms'].
    cbn [fst] in Hstep. subst answer'.
    destruct (correction_of d) as [c |] eqn:Ec.
    + eapply corrected_apply; [exact Ec | | apply IH].
      now apply replace_is_replaced.
    + apply corrected_skip; [exact Ec | apply IH].
Qed.

(** CORRECT and FLAG_FOR_HUMAN decisions are counted together. *)
Lemma problematic_count (decisions : list Decision.t) :
  count_if
    (fun d =>
       existsb (String.eqb (Decision.action d)) ["CORRECT"; "FLAG_FOR_HUMAN"])
    decisions
  = Z.of_nat (count_action "CORRECT" decisions
              + count_action "FLAG_FOR_HUMAN" decisions).
Proof.
  rewrite count_if_filter. f_equal. unfold count_action.
  induction decisions as [| d rest IH]; [reflexivity |].
  cbn [List.filter]. cbn [existsb] in *.
  destruct (String.eqb (Decision.action d) "CORRECT") eqn:Ec.
  - destruct (String.eqb (Decision.action d) "FLAG_FOR_HUMAN") eqn:Ef.
    + apply String.eqb_eq in Ec, Ef. congruence.
    + cbn [orb length]. lia.
  - destruct (String.eqb (Decision.action d) "FLAG_FOR_HUMAN");
      cbn [orb length]; lia.
Qed.

(** C4. For every list of decisions (on non-empty claim texts), answer
    assembly computes hallucination_score = (number of CORRECT decisions +
    number of FLAG_FOR_HUMAN decisions) / total decisions, 0 when there are
    no decisions, and confidence = 1 - hallucination_score; and the verified
    answer is the raw answer in which each CORRECT decision that carries a
    correction text has, in turn, replaced its original claim by the
    correction followed by " [CORRECTED]". *)
Theorem assemble_answer_scores_and_corrections :
  forall (state : HalluShieldState.t),
    let ds := default [] (decisions state) in
    let raw := default "" (raw_llm_response state) in
    Forall (fun d => Decision.original_claim d <> EmptyString) ds ->
    exists answer,
      final_answer (_assemble_answer state) = Some answer
      /\ HalluShieldState.hallucination_score answer
         == AssemblySpec.hallucination_score ds
      /\ HalluShieldState.confidence answer
         == 1 - AssemblySpec.hallucination_score ds
      /\ original_answer answer = raw
      /\ corrected_answer ds raw (verified_answer answer).
Proof.
  intros state ds raw Hds. unfold _assemble_answer. fold ds raw.
  pose proof (assemble_loop_answer ds Hds raw []) as Hloop.
  destruct (fold_left assemble_step ds (raw, [])) as [verified ms].
  cbn [fst] in Hloop. eexists. split; [reflexivity |].
  cbn [HalluShieldState.hallucination_score HalluShieldState.confidence
       original_answer verified_answer].
  assert (Hscore :
            (if (len ds =? 0)%Z then 0.0
             else
               inject_Z
                 (count_if
                    (fun d =>
                       existsb (String.eqb (Decision.action d))
                         ["CORRECT"; "FLAG_FOR_HUMAN"]) ds)
               / inject_Z (len ds))
            == AssemblySpec.hallucination_score ds).
  { unfold AssemblySpec.hallucination_score, len.
    destruct ds as [| d rest]; [reflexivity |].
    replace (Z.of_nat (length (d :: rest)) =? 0)%Z with false
      by (symmetry; apply Z.eqb_neq; cbn [length]; lia).
    rewrite problematic_count. reflexivity. }
  split; [exact Hscore |]. split; [| split; [reflexivity | exact Hloop]].
  rewrite Hscore. lra.
Qed.

Lemma assemble_answer_scores_and_corrections_witness :
  exists answer,
    final_answer (_assemble_answer Samples.reviewed_state) = Some answer
    /\ HalluShieldState.hallucination_score answer
       == AssemblySpec.hallucination_score Samples.reviewed_decisions
    /\ HalluShieldState.confidence answer
       == 1 - AssemblySpec.hallucination_score Samples.reviewed_decisions
    /\ original_answer answer
       = "Paris is in Spain. It has 2 million inhabitants. The Seine is in Paris."
    /\ corrected_answer Samples.reviewed_decisions
         "Paris is in Spain. It has 2 million inhabitants. The Seine is in Paris."
         (verified_answer answer).
Proof.
  apply (assemble_answer_scores_and_corrections Samples.reviewed_state).
  repeat constructor; discriminate.
Defined.

(** The assembled answer of the sample, computed. *)
Example reviewed_answer :
  exists answer,
    final_answer (_assemble_answer Samples.reviewed_state) = Some answer
    /\ verified_answer answer
       = "Paris is in France. [CORRECTED] It has 2 million inhabitants. The Seine is in Paris."
    /\ HalluShieldState.hallucination_score answer == 2 / 3
    /\ HalluShieldState.confidence answer == 1 / 3
    /\ modifications answer
       = [ Correction "Paris is in Spain." "Paris is in France."
             ["https://example.com/evidence/0"];
           Flagged "It has 2 million inhabitants."
             "Mixed evidence signals; requires review." ].
Proof. eexists. repeat split; reflexivity. Qed.

End AssemblyFacts.

(** ** Runs of the pipeline *)

Module RunFacts.

Import Py HalluShieldState HalluShieldPipeline RunSpec.

Section Run.

Variable llm_model : option string.
Variable HALLUSHIELD_SLM_MODEL : option string.
Variable GROQ_API_KEY : option string.
Variable HF_TOKEN : option string.
Variable GEMINI_API_KEY : option string.
Variable ANTHROPIC_API_KEY : option string.
Variable groq_create
  : nat -> string -> string -> result ModelRouter.groq_completion.
Variable hf_create : nat -> string -> result ModelRouter.hf_completion.
Variable gemini_generate : nat -> string -> string -> result string.
Variable claude_create : nat -> string -> result ModelRouter.claude_message.
Variable extract : string -> list Claim.t.
Variable retrieve : nat -> string -> result (list Evidence.t).
Variable verify
  : nat -> string -> string -> list Evidence.t -> result VerificationResult.t.
Variable langgraph_available : bool.

Let node_call_llm :=
  _call_llm llm_model HALLUSHIELD_SLM_MODEL GROQ_API_KEY HF_TOKEN
    GEMINI_API_KEY ANTHROPIC_API_KEY groq_create hf_create gemini_generate
    claude_create.

Let node_run :=
  run_node llm_model HALLUSHIELD_SLM_MODEL GROQ_API_KEY HF_TOKEN
    GEMINI_API_KEY ANTHROPIC_API_KEY groq_create hf_create gemini_generate
    claude_create extract retrieve verify.

Let graph_run :=
  run_from llm_model HALLUSHIELD_SLM_MODEL GROQ_API_KEY HF_TOKEN
    GEMINI_API_KEY ANTHROPIC_API_KEY groq_create hf_create gemini_generate
    claude_create extract retrieve verify.

Let sequential_run :=
  verify_sequential llm_model HALLUSHIELD_SLM_MODEL GROQ_API_KEY HF_TOKEN
    GEMINI_API_KEY ANTHROPIC_API_KEY groq_create hf_create gemini_generate
    claude_create extract retrieve verify.

Let request :=
  verify_query llm_model HALLUSHIELD_SLM_MODEL GROQ_API_KEY HF_TOKEN
    GEMINI_API_KEY ANTHROPIC_API_KEY groq_create hf_create gemini_generate
    claude_create extract retrieve verify langgraph_available.

(** *** Invariants of a run of the graph *)

(** A property that holds at the entry of each node and is kept by every
    step holds when the run ends; [Err] is what is known of the world when
    the run ends in an exception. *)
Lemma run_invariant
    (Inv : node -> HalluShieldState.t -> world -> Prop)
    (Fin : HalluShieldState.t -> world -> Prop) (Err : world -> Prop) :
  (forall n s w, Inv n s w -> Err w) ->
  (forall n s w,
     Inv n s w ->
     match node_run n s w with
     | (Raise _, w') => Err w'
     | (Ok s', w') =>
         match next_node n s' with
         | Some n' => Inv n' s' w'
         | None => Fin s' w'
         end
     end) ->
  forall limit n s w,
    Inv n s w ->
    match graph_run limit n s w with
    | (Raise _, w', _) => Err w'
    | (Ok s', w', _) => Fin s' w'
    end.
Proof.
  intros Herr Hstep. induction limit as [| limit IH]; intros n s w Hinv.
  - cbn. now apply Herr in Hinv.
  - cbn [graph_run run_from]. fold node_run. fold graph_run.
    specialize (Hstep n s w Hinv).
    destruct (node_run n s w) as [[s' | cls] w']; [| exact Hstep].
    destruct (next_node n s') as [n' |]; [| exact Hstep].
    specialize (IH n' s' w' Hstep).
    destruct (graph_run limit n' s' w') as [[[s'' | cls] w''] trace];
      exact IH.
Qed.

(** *** Decisions of the policy stage *)

Lemma apply_policy_decisions (s : HalluShieldState.t) (d : Decision.t) :
  In d (decisions_of (_apply_policy s)) ->
  exists c,
    In c (claims_of s)
    /\ Decision.claim_id d = Claim.id c
    /\ Decision.original_claim d = Claim.text c
    /\ match cached_of s !! Claim.id c with
       | Some p =>
           d = {| Decision.claim_id := Claim.id c;
                  Decision.action := MemoryStore.action p;
                  Decision.original_claim := Claim.text c;
                  Decision.corrected_claim := MemoryStore.corrected_claim p;
                  Decision.evidence_urls := MemoryStore.evidence_urls p;
                  Decision.confidence := MemoryStore.confidence p;
                  Decision.reasoning := "From cache" |}
       | None =>
           exists v evidence,
             d = AdaptiveDecisionPolicy.decide c v evidence
             /\ evidence = default [] (default ∅ (evidence_map s) !! Claim.id c)
             /\ v = match default ∅ (verification_results s) !! Claim.id c with
                    | Some v => v
                    | None =>
                        {| VerificationResult.claim_id := Claim.id c;
                           VerificationResult.support_score := 0.0;
                           VerificationResult.contradiction_score := 0.0;
                           VerificationResult.neutral_score := 1.0;
                           VerificationResult.evidence_agreement := 0.0;
                           VerificationResult.source_count := len evidence;
                           VerificationResult.evidence_ids :=
                             map Evidence.source_url evidence |}
                    end
       end.
Proof.
  unfold decisions_of, _apply_policy. cbn [decisions update_decisions default].
  intros Hin. apply in_map_iff in Hin as (c & <- & Hc). exists c.
  fold (cached_of s). split; [exact Hc |].
  destruct (cached_of s !! Claim.id c) as [p |]; cbn.
  - repeat split.
  - repeat split. eexists _, _. repeat split.
Qed.

Lemma apply_policy_frame (s : HalluShieldState.t) :
  claims_of (_apply_policy s) = claims_of s
  /\ cached_of (_apply_policy s) = cached_of s
  /\ raw_llm_response (_apply_policy s) = raw_llm_response s.
Proof. repeat split. Qed.

Lemma assemble_frame (s : HalluShieldState.t) :
  claims_of (_assemble_answer s) = claims_of s
  /\ cached_of (_assemble_answer s) = cached_of s
  /\ raw_llm_response (_assemble_answer s) = raw_llm_response s
  /\ decisions_of (_assemble_answer s) = decisions_of s.
Proof.
  unfold _assemble_answer.
  destruct (fold_left assemble_step _ _). repeat split.
Qed.

(** *** Runs without cache hits *)

Lemma assemble_step_uncorrected (answer : string) (ms : list modification)
    (d : Decision.t) :
  Decision.corrected_claim d = None ->
  Forall (fun m => is_correction m = false) ms ->
  (assemble_step (answer, ms) d).1 = answer
  /\ Forall (fun m => is_correction m = false) (assemble_step (answer, ms) d).2.
Proof.
  intros Hd Hms. unfold assemble_step. rewrite Hd. cbn [truthy_opt].
  rewrite andb_false_r.
  destruct (String.eqb (Decision.action d) "ABSTAIN");
    [| destruct (String.eqb (Decision.action d) "FLAG_FOR_HUMAN")];
    cbn [fst snd]; (split; [reflexivity |]); try exact Hms;
    apply Forall_app; (split; [exact Hms | repeat constructor]).
Qed.

Lemma assemble_loop_uncorrected (ds : list Decision.t) :
  Forall (fun d => Decision.corrected_claim d = None) ds ->
  forall (answer : string) (ms : list modification),
    Forall (fun m => is_correction m = false) ms ->
    (fold_left assemble_step ds (answer, ms)).1 = answer
    /\ Forall (fun m => is_correction m = false)
         (fold_left assemble_step ds (answer, ms)).2.
Proof.
  induction 1 as [| d rest Hd Hrest IH]; intros answer ms Hms; cbn [fold_left].
  - split; [reflexivity | exact Hms].
  - destruct (assemble_step_uncorrected answer ms d Hd Hms) as [Ha Hm].
    destruct (assemble_step (answer, ms) d) as [answer' ms'].
    cbn [fst snd] in Ha, Hm. subst answer'. now apply IH.
Qed.

Lemma uncached_decisions (s : HalluShieldState.t) :
  no_cache_hits s ->
  Forall (fun d => Decision.corrected_claim d = None)
    (decisions_of (_apply_policy s)).
Proof.
  intros Hs. apply List.Forall_forall. intros d Hd.
  apply apply_policy_decisions in Hd as (c & Hc & _ & _ & Hd).
  rewrite (Hs c Hc) in Hd. destruct Hd as (v & evidence & -> & _).
  reflexivity.
Qed.

Lemma assemble_unchanged (s : HalluShieldState.t) :
  Forall (fun d => Decision.corrected_claim d = None) (decisions_of s) ->
  answer_unchanged (_assemble_answer s).
Proof.
  intros Hds. unfold answer_unchanged, _assemble_answer.
  fold (decisions_of s).
  destruct (assemble_loop_uncorrected (decisions_of s) Hds
              (default "" (raw_llm_response s)) []) as [Ha Hm];
    [constructor |].
  destruct (fold_left assemble_step (decisions_of s) _) as [verified ms].
  cbn [fst snd] in Ha, Hm. subst verified.
  eexists. split; [reflexivity |]. repeat split. exact Hm.
Qed.

(** From the policy stage on, a state without cache hits ends with the raw
    answer unchanged. *)
Lemma policy_then_assembly_unchanged (s : HalluShieldState.t) :
  no_cache_hits (_assemble_answer (_apply_policy s)) ->
  answer_unchanged (_assemble_answer (_apply_policy s)).
Proof.
  intros Hs. apply assemble_unchanged, uncached_decisions.
  intros c Hc. specialize (Hs c).
  destruct (assemble_frame (_apply_policy s)) as (Hcl & Hca & _).
  rewrite Hcl, Hca in Hs. now apply Hs.
Qed.

Lemma graph_run_unchanged (limit : nat) (s : HalluShieldState.t) (w : world) :
  match graph_run limit call_llm s w with
  | (Raise _, _, _) => True
  | (Ok s', _, _) => no_cache_hits s' -> answer_unchanged s'
  end.
Proof.
  apply (run_invariant
           (fun n s _ =>
              match n with
              | assemble_answer =>
                  no_cache_hits s ->
                  Forall (fun d => Decision.corrected_claim d = None)
                    (decisions_of s)
              | update_memory => no_cache_hits s -> answer_unchanged s
              | _ => True
              end)
           (fun s _ => no_cache_hits s -> answer_unchanged s)
           (fun _ => True)); [trivial | | exact I].
  clear s w. intros n s w Hinv.
  destruct n; cbn [node_run run_node next_node].
  - fold node_call_llm. now destruct (node_call_llm s w) as [[s' | cls] w'].
  - exact I.
  - now destruct (String.eqb _ "has_new_claims").
  - now destruct (_retrieve_evidence retrieve s w) as [[s' | cls] w'].
  - now destruct (_verify_claims verify s w) as [[s' | cls] w'].
  - destruct (_check_escalation s w) as [[s' | cls] w']; [| exact I].
    now destruct (String.eqb _ "escalate_to_llm").
  - intros Hs. apply uncached_decisions. exact Hs.
  - intros Hs. apply assemble_unchanged, Hinv.
    destruct (assemble_frame s) as (Hcl & Hca & _).
    intros c Hc. specialize (Hs c). rewrite Hcl, Hca in Hs. now apply Hs.
  - exact Hinv.
Qed.

Lemma sequential_run_unchanged (s : HalluShieldState.t) (w : world) :
  match sequential_run s w with
  | (Raise _, _) => True
  | (Ok s', _) => no_cache_hits s' -> answer_unchanged s'
  end.
Proof.
  unfold sequential_run, verify_sequential.
  destruct (_call_llm _ _ _ _ _ _ _ _ _ _ s w) as [[s1 | cls] w1]; [| exact I].
  destruct (String.eqb _ "has_new_claims").
  - destruct (_retrieve_evidence retrieve _ w1) as [[s2 | cls] w2]; [| exact I].
    destruct (_verify_claims verify s2 w2) as [[s3 | cls] w3]; [| exact I].
    apply policy_then_assembly_unchanged.
  - apply policy_then_assembly_unchanged.
Qed.

(** C10. Every decision that the policy's [decide] builds has no corrected
    claim; and when a request ends in a state in which no claim hit the
    cache, the verified answer is the raw generated text, letter for letter,
    and no modification is a correction. *)
Theorem uncached_run_leaves_answer_unchanged :
  (forall (claim : Claim.t) (v : VerificationResult.t)
          (evidence : list Evidence.t),
     Decision.corrected_claim (AdaptiveDecisionPolicy.decide claim v evidence)
     = None)
  /\ forall (query : string) (user_id : option string) (w : world),
       match request query user_id w with
       | (Raise _, _) => True
       | (Ok state, _) => no_cache_hits state -> answer_unchanged state
       end.
Proof.
  split; [reflexivity |]. intros query user_id w.
  unfold request, verify_query, ainvoke. fold graph_run. fold sequential_run.
  destruct langgraph_available.
  - pose proof (graph_run_unchanged 25 (HalluShieldState.initial query user_id) w)
      as H.
    destruct (graph_run 25 call_llm _ w) as [[[s' | cls] w'] trace]; exact H.
  - apply sequential_run_unchanged.
Qed.

(** *** Claims without evidence *)

(** The scoring loop passes over a claim id without evidence: it makes no
    scoring call for it and records no result for it. *)
Lemma verify_loop_skips (em : gmap string (list Evidence.t)) (k : string) :
  em !! k = None \/ em !! k = Some [] ->
  forall (cs : list Claim.t) (vr : gmap string VerificationResult.t)
         (w : world),
    scorings_of_id k (verify_loop verify em cs vr w).2 = scorings_of_id k w
    /\ forall vr',
         (verify_loop verify em cs vr w).1 = Ok vr' -> vr' !! k = vr !! k.
Proof.
  intros Hk. induction cs as [| c rest IH]; intros vr w; cbn [verify_loop].
  - split; [reflexivity |]. now intros vr' [= <-].
  - destruct (em !! Claim.id c) as [[| e es] |] eqn:Ec; try apply IH.
    assert (Hne : Claim.id c <> k)
      by (intros E; rewrite E in Ec; destruct Hk; congruence).
    assert (Hlog : scorings_of_id k (log_scoring w (Claim.id c) (Claim.text c))
                   = scorings_of_id k w).
    { unfold scorings_of_id. cbn [scored log_scoring List.filter fst].
      now rewrite (proj2 (String.eqb_neq _ _) Hne). }
    destruct (verify _ _ _ _) as [v | cls].
    + destruct (IH (<[Claim.id c := v]> vr)
                  (log_scoring w (Claim.id c) (Claim.text c))) as [H1 H2].
      split; [now rewrite H1 |].
      intros vr' Hvr. rewrite (H2 vr' Hvr). now apply lookup_insert_ne.
    + split; [exact Hlog | discriminate].
Qed.

(** C9. For every uncached claim for which the evidence retrieved is the
    empty list, the scoring stage makes no scoring call for the claim and
    records no verification result for it, and the policy stage decides it
    from the default verification result (support 0, contradiction 0,
    neutral 1, evidence_agreement 0, source_count 0) and no evidence: the
    action of every decision for the claim is ABSTAIN. *)
Theorem empty_evidence_abstains :
  forall (s : HalluShieldState.t) (w : world) (c : Claim.t),
    In c (claims_of s) ->
    cached_of s !! Claim.id c = None ->
    default ∅ (evidence_map s) !! Claim.id c = Some [] ->
    scorings_of_id (Claim.id c) (_verify_claims verify s w).2
    = scorings_of_id (Claim.id c) w
    /\ forall s',
         (_verify_claims verify s w).1 = Ok s' ->
         default ∅ (verification_results s') !! Claim.id c = None
         /\ (exists d,
               In d (decisions_of (_apply_policy s'))
               /\ Decision.claim_id d = Claim.id c)
         /\ forall d,
              In d (decisions_of (_apply_policy s')) ->
              Decision.claim_id d = Claim.id c ->
              Decision.action d = "ABSTAIN"
              /\ exists c' v,
                   In c' (claims_of s)
                   /\ same_verification v (default_verification (Claim.id c))
                   /\ d = AdaptiveDecisionPolicy.decide c' v [].
Proof.
  intros s w c Hc Hcached Hev. unfold _verify_claims.
  destruct (verify_loop_skips (default ∅ (evidence_map s)) (Claim.id c)
              (or_intror Hev) (default [] (claims s)) ∅ w) as [Hlog Hvr].
  destruct (verify_loop verify _ _ ∅ w) as [[vr | cls] w'];
    cbn [fst snd] in *; [| split; [exact Hlog | discriminate]].
  split; [exact Hlog |]. intros s' [= <-].
  specialize (Hvr vr eq_refl). rewrite lookup_empty in Hvr.
  split; [exact Hvr |]. split.
  - exists (AdaptiveDecisionPolicy.decide c
              {| VerificationResult.claim_id := Claim.id c;
                 VerificationResult.support_score := 0.0;
                 VerificationResult.contradiction_score := 0.0;
                 VerificationResult.neutral_score := 1.0;
                 VerificationResult.evidence_agreement := 0.0;
                 VerificationResult.source_count := 0;
                 VerificationResult.evidence_ids := [] |} []).
    split; [| reflexivity].
    unfold decisions_of, _apply_policy.
    cbn [decisions update_decisions update_verification_results default
         cached_claims evidence_map verification_results claims].
    apply in_map_iff. exists c. split; [| exact Hc].
    fold (cached_of s). change (id vr) with vr.
    rewrite Hcached, Hvr, Hev. reflexivity.
  - intros d Hd Hid.
    apply apply_policy_decisions in Hd as (c' & Hc' & Hid' & _ & Hd).
    assert (Heq : Claim.id c' = Claim.id c) by congruence.
    change (claims_of (update_verification_results s vr)) with (claims_of s)
      in Hc'.
    change (cached_of (update_verification_results s vr)) with (cached_of s)
      in Hd.
    cbn [evidence_map verification_results update_verification_results default]
      in Hd.
    change (id vr) with vr in Hd.
    rewrite Heq, Hcached, Hvr, Hev in Hd. cbn [default] in Hd.
    destruct Hd as (v & evidence & -> & -> & ->).
    split; [reflexivity |]. eexists c', _. split; [exact Hc' |].
    split; [| reflexivity]. repeat split; reflexivity.
Qed.

(** *** The cache lookup *)

Lemma check_memory_keeps (m : MemoryStore.t) (k tx : string)
    (cs : list Claim.t) :
  (forall c, In c cs -> Claim.id c = k -> Claim.text c = tx) ->
  forall acc : gmap string MemoryStore.payload,
    acc !! k = MemoryStore.check_claim m tx ->
    fold_left
      (fun cached claim =>
         match MemoryStore.check_claim m (Claim.text claim) with
         | Some cached_result => <[Claim.id claim := cached_result]> cached
         | None => cached
         end) cs acc !! k
    = MemoryStore.check_claim m tx.
Proof.
  induction cs as [| c rest IH]; intros Hcs acc Hacc; cbn [fold_left];
    [exact Hacc |].
  apply IH; [intros c' Hc'; apply Hcs; now right |].
  destruct (MemoryStore.check_claim m (Claim.text c)) as [r |] eqn:Er;
    [| exact Hacc].
  destruct (String.eqb_spec (Claim.id c) k) as [E | E].
  - rewrite E, lookup_insert_eq.
    rewrite <- (Hcs c (or_introl eq_refl) E). now rewrite Er.
  - now rewrite lookup_insert_ne.
Qed.

Lemma check_memory_finds (m : MemoryStore.t) (k tx : string)
    (cs : list Claim.t) :
  (forall c, In c cs -> Claim.id c = k -> Claim.text c = tx) ->
  (exists c, In c cs /\ Claim.id c = k) ->
  forall acc : gmap string MemoryStore.payload,
    acc !! k = None ->
    fold_left
      (fun cached claim =>
         match MemoryStore.check_claim m (Claim.text claim) with
         | Some cached_result => <[Claim.id claim := cached_result]> cached
         | None => cached
         end) cs acc !! k
    = MemoryStore.check_claim m tx.
Proof.
  induction cs as [| c rest IH]; intros Hcs (c0 & Hc0 & Hk) acc Hacc;
    [destruct Hc0 |].
  cbn [fold_left].
  assert (Hrest : forall c', In c' rest -> Claim.id c' = k -> Claim.text c' = tx)
    by (intros c' Hc'; apply Hcs; now right).
  destruct (String.eqb_spec (Claim.id c) k) as [E | E].
  - apply check_memory_keeps; [exact Hrest |].
    rewrite <- (Hcs c (or_introl eq_refl) E).
    destruct (MemoryStore.check_claim m (Claim.text c)) as [r |].
    + now rewrite E, lookup_insert_eq.
    + exact Hacc.
  - apply IH; [exact Hrest | |].
    + destruct Hc0 as [-> | Hc0]; [contradiction | now exists c0].
    + destruct (MemoryStore.check_claim m (Claim.text c)) as [r |];
        [now rewrite lookup_insert_ne | exact Hacc].
Qed.

(** When ids follow texts, the cache hits of [_check_memory] are what the
    store holds for the texts of the claims. *)
Lemma check_memory_reflects (s : HalluShieldState.t) (w : world) :
  ids_follow_text extract ->
  claims_extracted extract s ->
  cache_reflects (memory_store w) (_check_memory s w).
Proof.
  intros Hids Hext c Hc.
  change (claims_of (_check_memory s w)) with (claims_of s) in Hc.
  unfold cached_of, _check_memory. cbn [cached_claims update_cached_claims default].
  fold (claims_of s).
  apply check_memory_finds; [| now exists c | apply lookup_empty].
  intros c' Hc' Hid.
  destruct (Hext c Hc) as [raw Hraw]. destruct (Hext c' Hc') as [raw' Hraw'].
  now apply (Hids raw' raw c' c Hraw' Hraw).
Qed.

(** *** The retrieval and scoring loops *)

Lemma retrieve_loop_frame (cached : gmap string MemoryStore.payload)
    (cs : list Claim.t) :
  forall (em : gmap string (list Evidence.t)) (w : world),
    memory_store (retrieve_loop retrieve cached cs em w).2 = memory_store w
    /\ scored (retrieve_loop retrieve cached cs em w).2 = scored w.
Proof.
  induction cs as [| c rest IH]; intros em w; cbn [retrieve_loop];
    [split; reflexivity |].
  destruct (cached !! Claim.id c); [apply IH |].
  destruct (retrieve _ _) as [evidence | cls]; [| split; reflexivity].
  destruct (IH (<[Claim.id c := evidence]> em)
              (log_retrieval w (Claim.text c))) as [H1 H2].
  rewrite H1, H2. split; reflexivity.
Qed.

(** No retrieval call is made for a text whose claims are all cache hits. *)
Lemma retrieve_loop_skips (cached : gmap string MemoryStore.payload)
    (tx : string) (cs : list Claim.t) :
  (forall c, In c cs -> Claim.text c = tx -> cached !! Claim.id c <> None) ->
  forall (em : gmap string (list Evidence.t)) (w : world),
    retrievals_of tx (retrieve_loop retrieve cached cs em w).2
    = retrievals_of tx w.
Proof.
  induction cs as [| c rest IH]; intros Hcs em w; cbn [retrieve_loop];
    [reflexivity |].
  assert (Hrest : forall c', In c' rest -> Claim.text c' = tx ->
                             cached !! Claim.id c' <> None)
    by (intros c' Hc'; apply Hcs; now right).
  destruct (cached !! Claim.id c) eqn:Ec; [now apply IH |].
  assert (Hne : tx <> Claim.text c).
  { intros E. apply (Hcs c (or_introl eq_refl)); [now symmetry | exact Ec]. }
  assert (Hlog : retrievals_of tx (log_retrieval w (Claim.text c))
                 = retrievals_of tx w).
  { unfold retrievals_of. cbn [retrieved log_retrieval List.filter].
    now rewrite (proj2 (String.eqb_neq _ _) Hne). }
  destruct (retrieve _ _) as [evidence | cls]; [| exact Hlog].
  rewrite (IH Hrest). exact Hlog.
Qed.

(** The evidence map gets no entry for the id of a cache hit. *)
Lemma retrieve_loop_keys (cached : gmap string MemoryStore.payload)
    (k : string) (cs : list Claim.t) :
  cached !! k <> None ->
  forall (em em' : gmap string (list Evidence.t)) (w : world),
    (retrieve_loop retrieve cached cs em w).1 = Ok em' ->
    em' !! k = em !! k.
Proof.
  intros Hk. induction cs as [| c rest IH]; intros em em' w;
    cbn [retrieve_loop].
  - now intros [= <-].
  - destruct (cached !! Claim.id c) eqn:Ec; [apply IH |].
    destruct (retrieve _ _) as [evidence | cls]; [| discriminate].
    intros H. rewrite (IH _ _ _ H). apply lookup_insert_ne. congruence.
Qed.

Lemma verify_loop_frame (em : gmap string (list Evidence.t))
    (cs : list Claim.t) :
  forall (vr : gmap string VerificationResult.t) (w : world),
    memory_store (verify_loop verify em cs vr w).2 = memory_store w
    /\ retrieved (verify_loop verify em cs vr w).2 = retrieved w.
Proof.
  induction cs as [| c rest IH]; intros vr w; cbn [verify_loop];
    [split; reflexivity |].
  destruct (em !! Claim.id c) as [[| e es] |]; try apply IH.
  destruct (verify _ _ _ _) as [v | cls]; [| split; reflexivity].
  destruct (IH (<[Claim.id c := v]> vr)
              (log_scoring w (Claim.id c) (Claim.text c))) as [H1 H2].
  rewrite H1, H2. split; reflexivity.
Qed.

(** No scoring call is made for a text whose claims have no entry in the
    evidence map. *)
Lemma verify_loop_passes (em : gmap string (list Evidence.t)) (tx : string)
    (cs : list Claim.t) :
  (forall c, In c cs -> Claim.text c = tx -> em !! Claim.id c = None) ->
  forall (vr : gmap string VerificationResult.t) (w : world),
    scorings_of tx (verify_loop verify em cs vr w).2 = scorings_of tx w.
Proof.
  induction cs as [| c rest IH]; intros Hcs vr w; cbn [verify_loop];
    [reflexivity |].
  assert (Hrest : forall c', In c' rest -> Claim.text c' = tx ->
                             em !! Claim.id c' = None)
    by (intros c' Hc'; apply Hcs; now right).
  destruct (em !! Claim.id c) as [[| e es] |] eqn:Ec; try now apply IH.
  assert (Hne : Claim.text c <> tx).
  { intros E. now rewrite (Hcs c (or_introl eq_refl) E) in Ec. }
  assert (Hlog : scorings_of tx (log_scoring w (Claim.id c) (Claim.text c))
                 = scorings_of tx w).
  { unfold scorings_of. cbn [scored log_scoring List.filter snd].
    now rewrite (proj2 (String.eqb_neq _ _) Hne). }
  destruct (verify _ _ _ _) as [v | cls]; [| exact Hlog].
  rewrite (IH Hrest). exact Hlog.
Qed.

(** *** What a node leaves alone *)

Lemma untouched_step (t : string) (w0 w w' : world) :
  untouched t w0 w ->
  memory_store w' = memory_store w ->
  (stored w0 t <> None ->
   retrievals_of t w' = retrievals_of t w
   /\ scorings_of t w' = scorings_of t w) ->
  untouched t w0 w'.
Proof.
  intros [Hm Hlog] Hm' Hlog'. split; [congruence |].
  intros Hk. destruct (Hlog Hk) as [H1 H2]. destruct (Hlog' Hk) as [H3 H4].
  split; congruence.
Qed.

Lemma same_logs (t : string) (w w' : world) :
  retrieved w' = retrieved w ->
  scored w' = scored w ->
  retrievals_of t w' = retrievals_of t w
  /\ scorings_of t w' = scorings_of t w.
Proof. unfold retrievals_of, scorings_of. now intros -> ->. Qed.

Lemma call_llm_frame (s : HalluShieldState.t) (w : world) :
  memory_store (node_call_llm s w).2 = memory_store w
  /\ retrieved (node_call_llm s w).2 = retrieved w
  /\ scored (node_call_llm s w).2 = scored w
  /\ forall s', (node_call_llm s w).1 = Ok s' -> claims_of s' = claims_of s.
Proof.
  unfold node_call_llm, _call_llm.
  destruct (if default false (force_llm_tier s) then _ else _)
    as [[response | cls] router]; cbn [fst snd];
    (split; [reflexivity | split; [reflexivity | split; [reflexivity |]]]).
  - now intros s' [= <-].
  - discriminate.
Qed.

Lemma check_escalation_frame (s : HalluShieldState.t) (w : world) :
  memory_store (_check_escalation s w).2 = memory_store w
  /\ retrieved (_check_escalation s w).2 = retrieved w
  /\ scored (_check_escalation s w).2 = scored w
  /\ forall s',
       (_check_escalation s w).1 = Ok s' ->
       claims_of s' = claims_of s /\ cached_of s' = cached_of s.
Proof.
  unfold _check_escalation.
  destruct (is_jstr _ "llm").
  { do 3 (split; [reflexivity |]). intros s' [= <-]. split; reflexivity. }
  destruct (if (Z.of_nat (size (default ∅ (verification_results s))) =? 0)%Z
            then _ else _) as [h c].
  destruct (bind (as_str _) _) as [slm_response | cls].
  - destruct (ModelRouter.should_escalate slm_response h c) as [[] reason];
      do 3 (split; [reflexivity |]); intros s' [= <-]; split; reflexivity.
  - do 3 (split; [reflexivity |]). discriminate.
Qed.

Lemma update_memory_frame (s : HalluShieldState.t) (w : world) :
  retrieved (_update_memory s w) = retrieved w
  /\ scored (_update_memory s w) = scored w.
Proof.
  unfold _update_memory. revert w.
  induction (default [] (decisions s)) as [| d rest IH]; intros w;
    cbn [fold_left]; [split; reflexivity |].
  destruct (default ∅ (cached_claims s) !! Decision.claim_id d);
    [apply IH |].
  destruct (IH (with_store w
                  (MemoryStore.store_verification (memory_store w)
                     (Decision.original_claim d) (Decision.action d)
                     (Decision.corrected_claim d) (Decision.evidence_urls d)
                     (Decision.confidence d)))) as [H1 H2].
  rewrite H1, H2. split; reflexivity.
Qed.

Lemma assemble_decided (s : HalluShieldState.t) :
  decided s -> decided (_assemble_answer s).
Proof.
  unfold decided, _assemble_answer.
  destruct (fold_left assemble_step _ _) as [verified ms]. intros H. exact H.
Qed.

(** *** One step of a request *)

Section Replay.

Hypothesis Hids : ids_follow_text extract.

Lemma replay_step (t : string) (w0 : world) (n : node)
    (s : HalluShieldState.t) (w : world) :
  replay_invariant extract t w0 n s w ->
  match node_run n s w with
  | (Raise _, w') => untouched t w0 w'
  | (Ok s', w') =>
      match next_node n s' with
      | Some n' => replay_invariant extract t w0 n' s' w'
      | None => served extract t w0 s' w'
      end
  end.
Proof.
  intros (Hw & Hext & Hn).
  destruct n; cbn [node_run run_node next_node].
  - (* call_llm *)
    fold node_call_llm.
    destruct (call_llm_frame s w) as (Hm & Hr & Hs & Hc).
    destruct (node_call_llm s w) as [[s' | cls] w']; cbn [fst snd] in *.
    + split; [| split; [| exact I]].
      * apply (untouched_step t w0 w); [exact Hw | exact Hm |].
        intros _. now apply same_logs.
      * intros c. rewrite (Hc s' eq_refl). apply Hext.
    + apply (untouched_step t w0 w); [exact Hw | exact Hm |].
      intros _. now apply same_logs.
  - (* extract_claims *)
    split; [exact Hw |]. split; [| exact I].
    intros c Hc. now exists (default "" (raw_llm_response s)).
  - (* check_memory *)
    assert (Hcm : cache_reflects (memory_store w0) (_check_memory s w)).
    { rewrite <- (proj1 Hw). now apply check_memory_reflects. }
    destruct (String.eqb _ "has_new_claims");
      (split; [exact Hw |]); (split; [exact Hext | exact Hcm]).
  - (* retrieve_evidence *)
    unfold _retrieve_evidence. fold (cached_of s). fold (claims_of s).
    destruct (retrieve_loop_frame (cached_of s) (claims_of s) ∅ w) as [Hm Hs].
    assert (Hhit : stored w0 t <> None ->
                   forall c, In c (claims_of s) -> Claim.text c = t ->
                             cached_of s !! Claim.id c <> None).
    { intros Hk c Hc Ht. rewrite (Hn c Hc), Ht. exact Hk. }
    assert (Hw' : untouched t w0
                    (retrieve_loop retrieve (cached_of s) (claims_of s) ∅ w).2).
    { apply (untouched_step t w0 w); [exact Hw | exact Hm |].
      intros Hk. split.
      - apply retrieve_loop_skips. now apply Hhit.
      - unfold scorings_of. now rewrite Hs. }
    pose proof (fun k Hk em' =>
                  retrieve_loop_keys (cached_of s) k (claims_of s) Hk ∅ em' w)
      as Hkeys.
    destruct (retrieve_loop retrieve (cached_of s) (claims_of s) ∅ w)
      as [[em | cls] w']; cbn [fst snd] in *; [| exact Hw'].
    split; [exact Hw' |]. split; [exact Hext |]. split; [exact Hn |].
    intros Hk c Hc Ht. cbn [evidence_map update_evidence_map default].
    change (id em) with em.
    rewrite (Hkeys (Claim.id c) (Hhit Hk c Hc Ht) em eq_refl).
    apply lookup_empty.
  - (* verify_claims *)
    destruct Hn as [Hcm Hem].
    unfold _verify_claims. fold (claims_of s).
    destruct (verify_loop_frame (default ∅ (evidence_map s)) (claims_of s) ∅ w)
      as [Hm Hr].
    assert (Hw' : untouched t w0
                    (verify_loop verify (default ∅ (evidence_map s))
                       (claims_of s) ∅ w).2).
    { apply (untouched_step t w0 w); [exact Hw | exact Hm |].
      intros Hk. split.
      - unfold retrievals_of. now rewrite Hr.
      - apply verify_loop_passes. now apply Hem. }
    destruct (verify_loop verify _ (claims_of s) ∅ w) as [[vr | cls] w'];
      cbn [fst snd] in *; [| exact Hw'].
    split; [exact Hw' |]. split; [exact Hext | exact Hcm].
  - (* check_escalation *)
    destruct (check_escalation_frame s w) as (Hm & Hr & Hs & Hc).
    destruct (_check_escalation s w) as [[s' | cls] w']; cbn [fst snd] in *.
    + destruct (Hc s' eq_refl) as [Hcl Hca].
      assert (Hw' : untouched t w0 w').
      { apply (untouched_step t w0 w); [exact Hw | exact Hm |].
        intros _. now apply same_logs. }
      assert (Hext' : claims_extracted extract s').
      { intros c. rewrite Hcl. apply Hext. }
      destruct (String.eqb _ "escalate_to_llm").
      * split; [exact Hw' |]. split; [exact Hext' | exact I].
      * split; [exact Hw' |]. split; [exact Hext' |].
        intros c. rewrite Hcl, Hca. apply Hn.
    + apply (untouched_step t w0 w); [exact Hw | exact Hm |].
      intros _. now apply same_logs.
  - (* apply_policy *)
    split; [exact Hw |]. split; [exact Hext |]. split; [exact Hn |].
    reflexivity.
  - (* assemble_answer *)
    destruct Hn as [Hcm Hd]. destruct (assemble_frame s) as (Hcl & Hca & _).
    split; [exact Hw |]. split; [| split].
    + intros c. rewrite Hcl. apply Hext.
    + intros c. rewrite Hcl, Hca. apply Hcm.
    + now apply assemble_decided.
  - (* update_memory *)
    destruct Hn as [Hcm Hd]. exists w.
    split; [exact Hw |]. split; [exact Hext |]. split; [exact Hcm |].
    split; [exact Hd | reflexivity].
Qed.

(** *** Whole requests *)

Lemma graph_run_served (t : string) (w0 : world) (limit : nat)
    (s : HalluShieldState.t) (w : world) :
  untouched t w0 w ->
  claims_extracted extract s ->
  match graph_run limit call_llm s w with
  | (Raise _, w', _) => untouched t w0 w'
  | (Ok s', w', _) => served extract t w0 s' w'
  end.
Proof.
  intros Hw Hext.
  apply (run_invariant (replay_invariant extract t w0) (served extract t w0)
           (untouched t w0)).
  - intros n s1 w1 H. apply H.
  - intros n s1 w1. apply replay_step.
  - split; [exact Hw |]. split; [exact Hext | exact I].
Qed.

Lemma policy_to_end_served (t : string) (w0 : world)
    (s : HalluShieldState.t) (w : world) :
  untouched t w0 w ->
  claims_extracted extract s ->
  cache_reflects (memory_store w0) s ->
  served extract t w0 (_assemble_answer (_apply_policy s))
    (_update_memory (_assemble_answer (_apply_policy s)) w).
Proof.
  intros Hw Hext Hcm.
  pose proof (replay_step t w0 apply_policy s w
                (conj Hw (conj Hext Hcm))) as H1.
  cbn [node_run run_node next_node] in H1.
  pose proof (replay_step t w0 assemble_answer _ w H1) as H2.
  cbn [node_run run_node next_node] in H2.
  exact (replay_step t w0 update_memory _ w H2).
Qed.

Lemma sequential_run_served (t : string) (w0 : world)
    (s : HalluShieldState.t) (w : world) :
  untouched t w0 w ->
  claims_extracted extract s ->
  match sequential_run s w with
  | (Raise _, w') => untouched t w0 w'
  | (Ok s', w') => served extract t w0 s' w'
  end.
Proof.
  intros Hw Hext. unfold sequential_run, verify_sequential.
  pose proof (replay_step t w0 call_llm s w (conj Hw (conj Hext I))) as H1.
  cbn [node_run run_node next_node] in H1.
  destruct (_call_llm _ _ _ _ _ _ _ _ _ _ s w) as [[s1 | cls] w1];
    [| exact H1].
  pose proof (replay_step t w0 extract_claims s1 w1 H1) as H2.
  cbn [node_run run_node next_node] in H2.
  pose proof (replay_step t w0 check_memory _ w1 H2) as H3.
  cbn [node_run run_node next_node] in H3.
  destruct (String.eqb _ "has_new_claims").
  - pose proof (replay_step t w0 retrieve_evidence _ w1 H3) as H4.
    cbn [node_run run_node next_node] in H4.
    destruct (_retrieve_evidence retrieve _ w1) as [[s2 | cls] w2];
      [| exact H4].
    pose proof (replay_step t w0 verify_claims s2 w2 H4) as H5.
    cbn [node_run run_node next_node] in H5.
    destruct (_verify_claims verify s2 w2) as [[s3 | cls] w3]; [| exact H5].
    destruct H5 as (Hw3 & Hext3 & Hcm3).
    now apply policy_to_end_served.
  - destruct H3 as (Hw1 & Hext1 & Hcm1).
    apply policy_to_end_served; [exact Hw1 | exact Hext1 | exact Hcm1].
Qed.

Lemma untouched_refl (t : string) (w : world) : untouched t w w.
Proof. split; [reflexivity |]. intros _. split; reflexivity. Qed.

(** What a request that starts in [w0] leaves behind. *)
Lemma request_served (t : string) (query : string) (user_id : option string)
    (w0 : world) :
  match request query user_id w0 with
  | (Raise _, w') => untouched t w0 w'
  | (Ok s', w') => served extract t w0 s' w'
  end.
Proof.
  assert (Hext : claims_extracted extract
                   (HalluShieldState.initial query user_id))
    by (intros c []).
  unfold request, verify_query, ainvoke. fold graph_run. fold sequential_run.
  destruct langgraph_available.
  - pose proof (graph_run_served t w0 25 _ w0 (untouched_refl t w0) Hext) as H.
    destruct (graph_run 25 call_llm _ w0) as [[[s' | cls] w'] trace]; exact H.
  - apply sequential_run_served; [apply untouched_refl | exact Hext].
Qed.

(** *** What the store holds after a request *)

Lemma update_memory_stores (cached : gmap string MemoryStore.payload)
    (tx : string) (p : MemoryStore.payload) (ds : list Decision.t) :
  (forall d,
     In d ds -> Decision.original_claim d = tx ->
     cached !! Decision.claim_id d = None -> payload_of d = p) ->
  forall w : world,
    (stored w tx = Some p
     \/ exists d,
          In d ds /\ Decision.original_claim d = tx
          /\ cached !! Decision.claim_id d = None) ->
    stored
      (fold_left
         (fun w decision =>
            match cached !! Decision.claim_id decision with
            | Some _ => w
            | None =>
                with_store w
                  (MemoryStore.store_verification (memory_store w)
                     (Decision.original_claim decision)
                     (Decision.action decision)
                     (Decision.corrected_claim decision)
                     (Decision.evidence_urls decision)
                     (Decision.confidence decision))
            end) ds w) tx
    = Some p.
Proof.
  induction ds as [| d rest IH]; intros Hds w Hw; cbn [fold_left].
  - destruct Hw as [Hw | (d & [] & _)]. exact Hw.
  - assert (Hrest : forall d', In d' rest -> Decision.original_claim d' = tx ->
                               cached !! Decision.claim_id d' = None ->
                               payload_of d' = p)
      by (intros d' Hd'; apply Hds; now right).
    apply (IH Hrest).
    destruct (cached !! Decision.claim_id d) eqn:Ec.
    + destruct Hw as [Hw | (d0 & [<- | Hd0] & Ht & Hn)];
        [now left | congruence | right; now exists d0].
    + destruct (String.eqb_spec (Decision.original_claim d) tx) as [E | E].
      * left. unfold stored, MemoryStore.check_claim.
        cbn [memory_store with_store MemoryStore.store_verification
             MemoryStore._in_memory].
        rewrite E, lookup_insert_eq. f_equal.
        apply (Hds d (or_introl eq_refl) E Ec).
      * destruct Hw as [Hw | (d0 & [<- | Hd0] & Ht & Hn)];
          [left | contradiction | right; now exists d0].
        unfold stored, MemoryStore.check_claim.
        cbn [memory_store with_store MemoryStore.store_verification
             MemoryStore._in_memory].
        rewrite lookup_insert_ne by exact E. exact Hw.
Qed.

Lemma served_logs (t : string) (w0 : world) (s : HalluShieldState.t)
    (w : world) :
  served extract t w0 s w ->
  stored w0 t <> None ->
  retrievals_of t w = retrievals_of t w0
  /\ scorings_of t w = scorings_of t w0.
Proof.
  intros (w' & [_ Hlog] & _ & _ & _ & ->) Hk.
  destruct (Hlog Hk) as [H1 H2]. rewrite <- H1, <- H2.
  destruct (update_memory_frame s w') as [Hr Hs]. now apply same_logs.
Qed.

(** A decision for a text that the store held when the request started is
    built from the stored record. *)
Lemma served_replays (t : string) (w0 : world) (s : HalluShieldState.t)
    (w : world) (p : MemoryStore.payload) (d : Decision.t) :
  served extract t w0 s w ->
  stored w0 t = Some p ->
  In d (decisions_of s) ->
  Decision.original_claim d = t ->
  exists c, In c (claims_of s) /\ Claim.text c = t /\ d = from_cache c p.
Proof.
  intros (w' & _ & _ & Hcm & Hdec & _) Hp Hd Ht.
  rewrite Hdec in Hd.
  apply apply_policy_decisions in Hd as (c & Hc & _ & Htx & Hd).
  exists c. split; [exact Hc |]. split; [congruence |].
  assert (Hs : MemoryStore.check_claim (memory_store w0) (Claim.text c)
               = Some p) by (rewrite <- Htx, Ht; exact Hp).
  rewrite (Hcm c Hc), Hs in Hd. exact Hd.
Qed.

(** After a request the store holds, for the text of each decision, what
    the decision says. *)
Lemma served_stores (t : string) (w0 : world) (s : HalluShieldState.t)
    (w : world) (d : Decision.t) :
  served extract t w0 s w ->
  In d (decisions_of s) ->
  stored w (Decision.original_claim d) = Some (payload_of d)
  /\ exists c,
       In c (claims_of s) /\ (exists raw, In c (extract raw))
       /\ Decision.claim_id d = Claim.id c
       /\ Decision.original_claim d = Claim.text c.
Proof.
  intros (w' & [Hm _] & Hext & Hcm & Hdec & ->) Hd.
  pose proof Hd as Hd'. rewrite Hdec in Hd'.
  apply apply_policy_decisions in Hd' as (c & Hc & Hid & Htx & Hdc).
  split; [| exists c; repeat split; try assumption; now apply Hext].
  unfold _update_memory. fold (cached_of s). fold (decisions_of s).
  apply update_memory_stores.
  - intros d' Hd' Htx' Hn'. rewrite Hdec in Hd'.
    apply apply_policy_decisions in Hd' as (c' & Hc' & Hid' & Htx'' & Hdc').
    assert (Heq : Claim.id c' = Claim.id c).
    { destruct (Hext c Hc) as [raw Hraw].
      destruct (Hext c' Hc') as [raw' Hraw'].
      apply (Hids raw' raw c' c Hraw' Hraw). congruence. }
    rewrite <- Hid', Hn' in Hdc'. rewrite <- Heq, <- Hid', Hn' in Hdc.
    destruct Hdc' as (v' & e' & -> & -> & ->).
    destruct Hdc as (v & e & -> & -> & ->).
    rewrite Hid'. reflexivity.
  - destruct (cached_of s !! Claim.id c) as [p |] eqn:Ec.
    + left. unfold stored. rewrite Hm, Htx, <- (Hcm c Hc), Ec, Hdc.
      destruct p. reflexivity.
    + right. exists d. split; [exact Hd |]. split; [reflexivity |].
      now rewrite Hid.
Qed.


End Replay.

End Run.

End RunFacts.

(** ** Sample runs *)

Module RunExamples.

Import Py HalluShieldState HalluShieldPipeline RunSpec Samples.

Lemma empty_evidence_abstains_witness :
  scorings_of_id (Claim.id lone_claim)
    (_verify_claims verify_heuristic unsupported_state fresh_world).2
  = scorings_of_id (Claim.id lone_claim) fresh_world
  /\ forall s',
       (_verify_claims verify_heuristic unsupported_state fresh_world).1 = Ok s' ->
       default ∅ (verification_results s') !! Claim.id lone_claim = None
       /\ (exists d,
             In d (decisions_of (_apply_policy s'))
             /\ Decision.claim_id d = Claim.id lone_claim)
       /\ forall d,
            In d (decisions_of (_apply_policy s')) ->
            Decision.claim_id d = Claim.id lone_claim ->
            Decision.action d = "ABSTAIN"
            /\ exists c' v,
                 In c' (claims_of unsupported_state)
                 /\ same_verification v
                      (default_verification (Claim.id lone_claim))
                 /\ d = AdaptiveDecisionPolicy.decide c' v [].
Proof.
  apply (RunFacts.empty_evidence_abstains verify_heuristic unsupported_state
           fresh_world lone_claim).
  - left. reflexivity.
  - vm_compute. reflexivity.
  - vm_compute. reflexivity.
Defined.

(** The first request about Paris decides its claim without the cache and
    leaves the answer as generated. *)
Example first_request_unchanged :
  no_cache_hits (final_state first_request)
  /\ answer_unchanged (final_state first_request).
Proof.
  split.
  - intros c Hc. vm_compute in Hc. destruct Hc as [<- | []].
    vm_compute. reflexivity.
  - eexists. split; [vm_compute; reflexivity |].
    repeat split. constructor.
Qed.

(** The stand-in extractor makes ids from texts. *)
Lemma one_claim_ids_follow_text : ids_follow_text one_claim.
Proof.
  intros raw1 raw2 c1 c2 H1 H2.
  destruct raw1 as [| a1 r1]; [destruct H1 |].
  destruct raw2 as [| a2 r2]; [destruct H2 |].
  destruct H1 as [<- | []]. destruct H2 as [<- | []].
  cbn [Claim.id Claim.text]. split.
  - intros E. vm_compute in E. now injection E as -> ->.
  - now intros [= -> ->].
Qed.



End RunExamples.

(** ** More on the verifier *)

Module VerifierLaws.

Import Py NLIVerifier HeuristicSpec EscalationSpec.
Import ParseFacts VerifierFacts EscalationFacts.

(** Case analysis on every [min2] and [max2] of the goal. *)
Ltac minmax_cases :=
  repeat match goal with
    | |- context [min2 ?a ?b] =>
        let H := fresh in
        let E := fresh in
        destruct (min2_cases a b) as [[H E] | [H E]]; rewrite !E in *; clear E
    | |- context [max2 ?a ?b] =>
        let H := fresh in
        let E := fresh in
        destruct (max2_cases a b) as [[H E] | [H E]]; rewrite !E in *; clear E
    end.

Lemma clamp_code_mono (x y : Q) :
  x <= y -> max2 0.0 (min2 1.0 x) <= max2 0.0 (min2 1.0 y).
Proof. intros Hxy. minmax_cases; lra. Qed.

Lemma clamp_code_bounds (base : Q) :
  0 <= base -> base <= 1 ->
  0.2 <= max2 0.0 (min2 1.0 (0.2 + 0.8 * base)) <= 1.
Proof.
  intros H0 H1. minmax_cases; lra.
Qed.

Lemma present_le (tokens : list string) (snippet : string) :
  (length (present tokens snippet) <= length tokens)%nat.
Proof. unfold present. apply filter_length_le. Qed.

Lemma hit_ratio_le_1 (tokens : list string) (snippet : string) :
  tokens <> [] -> hit_ratio tokens snippet <= 1.
Proof.
  intros Hne. unfold hit_ratio.
  pose proof (present_le tokens snippet) as Hle.
  assert (Hpos : 0 < inject_Z (Z.of_nat (length tokens))).
  { change 0 with (inject_Z 0). rewrite <- Zlt_Qlt.
    destruct tokens; [congruence | cbn [length]; lia]. }
  apply Qle_shift_div_r; [exact Hpos |]. rewrite Qmult_1_l.
  rewrite <- Zle_Qle. lia.
Qed.

Lemma is_maximum_le (m b : Q) (xs : list Q) :
  is_maximum m xs -> Forall (fun x => x <= b) xs -> m <= b.
Proof.
  intros [Hex _] Hall. apply List.Exists_exists in Hex as (x & Hin & Hx).
  rewrite List.Forall_forall in Hall. specialize (Hall x Hin). lra.
Qed.

(** The heuristic support of a claim against any evidence lies between 0.2
    and 1. *)
Lemma heuristic_support_bounds (claim : string)
    (evidence_list : list Evidence.t) :
  0.2 <= _heuristic_support claim evidence_list <= 1.
Proof.
  destruct evidence_list as [| e es] eqn:El.
  - unfold _heuristic_support.
    destruct (map lower _) as [| t ts]; [split; lra |].
    cbn [map max_list]. apply clamp_code_bounds; lra.
  - rewrite <- El.
    destruct (heuristic_support_cases claim evidence_list)
      as [[_ ->] | [Ht (base & Hb0 & Hmax & ->)]];
      [rewrite El; discriminate | split; lra |].
    apply clamp_code_bounds; [exact Hb0 |].
    apply (is_maximum_le _ _ _ Hmax). apply List.Forall_forall.
    intros x Hx. apply in_map_iff in Hx as (e' & <- & _).
    now apply hit_ratio_le_1.
Qed.

Lemma heuristic_support_no_tokens (claim : string)
    (evidence_list : list Evidence.t) :
  claim_tokens claim = [] -> _heuristic_support claim evidence_list = 0.3.
Proof.
  intros Ht. unfold _heuristic_support. fold (claim_tokens claim).
  now rewrite Ht.
Qed.

(** X1. Further evidence never lowers the heuristic support of a claim. *)
Theorem heuristic_support_grows_with_evidence :
  forall (claim : string) (evidence_list more : list Evidence.t),
    _heuristic_support claim evidence_list
    <= _heuristic_support claim (evidence_list ++ more).
Proof.
  intros claim es more.
  destruct (claim_tokens claim) as [| t ts] eqn:Et.
  { rewrite !heuristic_support_no_tokens by exact Et. lra. }
  destruct es as [| e es'] eqn:El.
  { cbn [app]. unfold _heuristic_support at 1. fold (claim_tokens claim).
    rewrite Et. cbn [map max_list].
    pose proof (heuristic_support_bounds claim more) as [Hlo _].
    minmax_cases; lra. }
  rewrite <- El.
  assert (Hes : es <> []) by (rewrite El; discriminate).
  assert (Hall : (es ++ more)%list <> [])
    by (rewrite El; discriminate).
  destruct (heuristic_support_cases claim es Hes)
    as [[Hn _] | [_ (b1 & _ & Hm1 & ->)]]; [congruence |].
  destruct (heuristic_support_cases claim (es ++ more)%list Hall)
    as [[Hn _] | [_ (b2 & _ & Hm2 & ->)]]; [congruence |].
  apply clamp_code_mono.
  assert (b1 <= b2).
  { destruct Hm1 as [Hex _]. destruct Hm2 as [_ Hle].
    apply List.Exists_exists in Hex as (x & Hin & Hx).
    rewrite List.Forall_forall in Hle.
    assert (x <= b2) by (apply Hle; rewrite map_app; apply in_or_app; now left).
    lra. }
  lra.
Qed.

Lemma lower_app (a b : string) : lower (a ++ b) = lower a ++ lower b.
Proof.
  induction a as [| c a IH]; [now rewrite !append_nil_l |].
  cbn [lower]. rewrite !append_cons. cbn [lower]. now rewrite IH.
Qed.

Lemma is_substring_lower (n h : string) :
  is_substring n h -> is_substring (lower n) (lower h).
Proof.
  intros (pre & suf & ->). exists (lower pre), (lower suf).
  now rewrite !lower_app.
Qed.

Lemma is_substring_trans (a b c : string) :
  is_substring a b -> is_substring b c -> is_substring a c.
Proof.
  intros (p1 & s1 & ->) (p2 & s2 & ->).
  exists (p2 ++ p1), (s1 ++ s2).
  now rewrite !AssemblyFacts.append_assoc.
Qed.

Lemma string_of_rev_snoc (cur : list ascii) (c : ascii) :
  string_of_list_ascii (rev (c :: cur))
  = string_of_list_ascii (rev cur) ++ String c EmptyString.
Proof.
  cbn [rev]. induction (rev cur) as [| d l IH]; [reflexivity |].
  cbn [app string_of_list_ascii]. rewrite append_cons. now rewrite IH.
Qed.

(** Every run is a substring of the text read, the run in progress
    included. *)
Lemma runs_from_substring (p : ascii -> bool) (s : string) :
  forall (cur : list ascii) (t : string),
    In t (runs_from p cur s) ->
    is_substring t (string_of_list_ascii (rev cur) ++ s).
Proof.
  induction s as [| c s IH]; intros cur t; cbn [runs_from].
  - destruct cur as [| d cur]; [intros [] |].
    intros [<- | []]. exists EmptyString, EmptyString.
    now rewrite append_nil_l.
  - assert (Hshift : forall u,
               is_substring u (string_of_list_ascii (rev (c :: cur)) ++ s) ->
               is_substring u (string_of_list_ascii (rev cur) ++ String c s)).
    { intros u (pre & suf & E). exists pre, suf. rewrite <- E.
      rewrite string_of_rev_snoc, AssemblyFacts.append_assoc.
      now rewrite append_cons, append_nil_l. }
    assert (Hskip : forall u,
               is_substring u (string_of_list_ascii (rev []) ++ s) ->
               is_substring u (string_of_list_ascii (rev cur) ++ String c s)).
    { intros u (pre & suf & E). cbn [rev string_of_list_ascii] in E.
      rewrite append_nil_l in E.
      exists (string_of_list_ascii (rev cur) ++ String c pre), suf.
      rewrite E, AssemblyFacts.append_assoc, append_cons. reflexivity. }
    destruct (p c).
    + intros H. apply Hshift. now apply IH.
    + destruct cur as [| d cur].
      * intros H. apply Hskip. now apply IH.
      * intros [<- | H]; [| apply Hskip; now apply IH].
        exists EmptyString, (String c s). now rewrite append_nil_l.
Qed.

Lemma claim_token_in_claim (claim t : string) :
  In t (claim_tokens claim) -> is_substring t (lower claim).
Proof.
  unfold claim_tokens. intros H. apply in_map_iff in H as (tok & <- & H).
  apply filter_In in H as [H _]. apply is_substring_lower.
  apply (runs_from_substring is_alnum claim [] tok) in H.
  cbn [rev string_of_list_ascii] in H. now rewrite append_nil_l in H.
Qed.

Lemma hit_ratio_full (claim snippet : string) :
  claim_tokens claim <> [] ->
  is_substring claim snippet ->
  hit_ratio (claim_tokens claim) snippet == 1.
Proof.
  intros Hne Hsub. unfold hit_ratio, present.
  assert (Hall : List.filter (fun t => contains t (lower snippet))
                   (claim_tokens claim) = claim_tokens claim).
  { apply forallb_filter_id. apply forallb_forall. intros t Ht.
    apply contains_iff.
    apply (is_substring_trans _ (lower claim));
      [now apply claim_token_in_claim | now apply is_substring_lower]. }
  rewrite Hall. unfold Qdiv. apply Qmult_inv_r.
  assert (0 < inject_Z (Z.of_nat (length (claim_tokens claim)))).
  { change 0 with (inject_Z 0). rewrite <- Zlt_Qlt.
    destruct (claim_tokens claim); [congruence | cbn [length]; lia]. }
  lra.
Qed.

(** The largest hit-ratio is 1 when one of the snippets quotes the claim. *)
Lemma quoted_claim_base (claim : string) (evidence_list : list Evidence.t)
    (base : Q) :
  claim_tokens claim <> [] ->
  Exists (fun e => is_substring claim (Evidence.snippet e)) evidence_list ->
  is_maximum base
    (map (fun e => hit_ratio (claim_tokens claim) (Evidence.snippet e))
       evidence_list) ->
  base == 1.
Proof.
  intros Ht Hex Hmax.
  assert (Hle : base <= 1).
  { apply (is_maximum_le _ _ _ Hmax). apply List.Forall_forall.
    intros x Hx. apply in_map_iff in Hx as (e & <- & _).
    now apply hit_ratio_le_1. }
  assert (Hge : 1 <= base).
  { destruct Hmax as [_ Hall]. rewrite List.Forall_forall in Hall.
    apply List.Exists_exists in Hex as (e & He & Hsub).
    rewrite <- (hit_ratio_full claim (Evidence.snippet e) Ht Hsub).
    apply Hall. apply in_map_iff. now exists e. }
  lra.
Qed.

(** X2. A snippet that quotes the claim supports it fully: when the claim
    has a token of length at least four and the claim text occurs in the
    snippet of one of the evidence items, the heuristic support is 1. *)
Theorem heuristic_support_of_quoted_claim :
  forall (claim : string) (evidence_list : list Evidence.t),
    claim_tokens claim <> [] ->
    Exists (fun e => is_substring claim (Evidence.snippet e)) evidence_list ->
    _heuristic_support claim evidence_list == 1.
Proof.
  intros claim es Ht Hex.
  assert (Hes : es <> []) by (intros ->; inversion Hex).
  destruct (heuristic_support_cases claim es Hes)
    as [[Hn _] | [_ (base & Hb0 & Hmax & ->)]]; [congruence |].
  pose proof (quoted_claim_base claim es base Ht Hex Hmax) as Hb.
  minmax_cases; lra.
Qed.

Lemma heuristic_support_of_quoted_claim_witness :
  _heuristic_support "Paris is the capital of France."
    [Samples.placeholder_evidence] == 1.
Proof.
  apply (heuristic_support_of_quoted_claim "Paris is the capital of France."
           [Samples.placeholder_evidence]).
  - discriminate.
  - constructor. exists "Placeholder evidence for: ", EmptyString.
    reflexivity.
Defined.

Section Verifier.

Variable json_loads : string -> option json.
Variable float_of_str : string -> option float.
Variable llm_ainvoke : string -> string -> string -> result string.
Variables HALLUSHIELD_PROVIDER HALLUSHIELD_VERIFIER_MODEL : option string.
Variables GEMINI_API_KEY anthropic_api_key openai_api_key : option string.
Variable default_model : option string.

Let scorer :=
  _verify_with_llm json_loads llm_ainvoke HALLUSHIELD_PROVIDER
    HALLUSHIELD_VERIFIER_MODEL GEMINI_API_KEY anthropic_api_key
    openai_api_key default_model.

Let verifier :=
  verify json_loads float_of_str llm_ainvoke HALLUSHIELD_PROVIDER
    HALLUSHIELD_VERIFIER_MODEL GEMINI_API_KEY anthropic_api_key
    openai_api_key default_model.

(** What [verify] does, case by case. *)
Lemma verify_cases (claim_id claim : string)
    (evidence_list : list Evidence.t) :
  (evidence_list = []
   /\ verifier claim_id claim evidence_list
      = Ok {| VerificationResult.claim_id := claim_id;
              VerificationResult.support_score := 0.0;
              VerificationResult.contradiction_score := 0.0;
              VerificationResult.neutral_score := 1.0;
              VerificationResult.evidence_agreement := 0.0;
              VerificationResult.source_count := 0;
              VerificationResult.evidence_ids := [] |})
  \/ (evidence_list <> []
      /\ ((exists cls,
             scorer claim evidence_list = Raise cls
             /\ verifier claim_id claim evidence_list = Raise cls)
          \/ (scorer claim evidence_list = Ok JNull
              /\ verifier claim_id claim evidence_list
                 = Ok {| VerificationResult.claim_id := claim_id;
                         VerificationResult.support_score :=
                           _heuristic_support claim evidence_list;
                         VerificationResult.contradiction_score := 0.0;
                         VerificationResult.neutral_score :=
                           max2 0.0
                             (1.0 - _heuristic_support claim evidence_list
                              - 0.0);
                         VerificationResult.evidence_agreement :=
                           _heuristic_support claim evidence_list;
                         VerificationResult.source_count :=
                           len evidence_list;
                         VerificationResult.evidence_ids :=
                           map Evidence.source_url evidence_list |})
          \/ (exists v,
                scorer claim evidence_list = Ok v /\ v <> JNull
                /\ verifier claim_id claim evidence_list
                   = bind (bind (get v "support_score" (JNum 0.0))
                             (to_float float_of_str))
                       (fun support =>
                     bind (bind (get v "contradiction_score" (JNum 0.0))
                             (to_float float_of_str))
                       (fun contradiction =>
                     bind (bind (get v "neutral_score" (JNum 1.0))
                             (to_float float_of_str))
                       (fun neutral =>
                     bind (bind (get v "confidence" (JNum 0.0))
                             (to_float float_of_str))
                       (fun agreement =>
                     Ok {| VerificationResult.claim_id := claim_id;
                           VerificationResult.support_score := support;
                           VerificationResult.contradiction_score :=
                             contradiction;
                           VerificationResult.neutral_score := neutral;
                           VerificationResult.evidence_agreement := agreement;
                           VerificationResult.source_count :=
                             len evidence_list;
                           VerificationResult.evidence_ids :=
                             map Evidence.source_url evidence_list |}))))))).
Proof.
  destruct evidence_list as [| e es]; [left; split; reflexivity |].
  right. split; [discriminate |].
  unfold verifier, verify. cbv beta iota. fold scorer.
  destruct (scorer claim (e :: es)) as [v | cls] eqn:Es.
  - right. cbn [bind].
    destruct v; try (right; eexists; split; [reflexivity |];
                     split; [discriminate | reflexivity]).
    left. split; reflexivity.
  - left. exists cls. split; reflexivity.
Qed.

(** X3. With no verdict from the scorer the three scores of the result add
    up to 1: the contradiction score is 0, the neutral score is what the
    support leaves, and the evidence agreement is the support. *)
Theorem heuristic_scores_sum_to_one :
  forall (claim_id claim : string) (evidence_list : list Evidence.t)
         (r : VerificationResult.t),
    evidence_list <> [] ->
    scorer claim evidence_list = Ok JNull ->
    verifier claim_id claim evidence_list = Ok r ->
    VerificationResult.support_score r
    + VerificationResult.contradiction_score r
    + VerificationResult.neutral_score r == 1
    /\ 0 <= VerificationResult.neutral_score r
    /\ VerificationResult.neutral_score r <= 0.8
    /\ VerificationResult.evidence_agreement r
       = VerificationResult.support_score r.
Proof.
  intros cid claim es r Hes Hs.
  destruct (verify_cases cid claim es)
    as [[-> _] | [_ [(cls & Hc & _) | [[_ ->] | (v & Hv & Hn & _)]]]];
    [congruence | congruence | | congruence].
  intros [= <-].
  cbn [VerificationResult.support_score VerificationResult.contradiction_score
       VerificationResult.neutral_score VerificationResult.evidence_agreement].
  pose proof (heuristic_support_bounds claim es) as [Hlo Hhi].
  split; [| split; [| split; [| reflexivity]]]; minmax_cases; lra.
Qed.


(** X5. A reply of the scorer that is JSON but neither [null] nor an
    object (a list, a number, a string, a boolean) is not taken as a missing
    verdict: [verify] raises AttributeError instead of falling back to the
    heuristic. *)
Theorem verify_rejects_verdict_that_is_no_object :
  forall (claim_id claim : string) (evidence_list : list Evidence.t)
         (v : json),
    evidence_list <> [] ->
    scorer claim evidence_list = Ok v ->
    v <> JNull ->
    (forall members, v <> JObj members) ->
    verifier claim_id claim evidence_list = Raise "AttributeError".
Proof.
  intros cid claim es v Hes Hs Hn Ho.
  destruct (verify_cases cid claim es)
    as [[-> _] | [_ [(cls & Hc & _) | [[Hc _] | (v' & Hv & _ & ->)]]]];
    try congruence.
  assert (v' = v) by congruence. subst v'.
  destruct v; try reflexivity. now destruct (Ho members).
Qed.


End Verifier.

End VerifierLaws.

(** ** More on evidence retrieval *)

Module RetrieverLaws.

Import Py EvidenceRetriever.
Import ParseFacts.

Lemma take_prefix {A : Type} (k : Z) (xs : list A) :
  exists n : nat, take k xs = firstn n xs.
Proof. unfold take. destruct (0 <=? k)%Z; eauto. Qed.

Lemma take_length {A : Type} (k : Z) (xs : list A) :
  (0 <= k)%Z -> (len (take k xs) <= Z.min k (len xs))%Z.
Proof.
  intros Hk. unfold take, len.
  rewrite (proj2 (Z.leb_le 0 k) Hk), length_firstn. lia.
Qed.

Lemma take_all {A : Type} (k : Z) (xs : list A) :
  (len xs <= k)%Z -> take k xs = xs.
Proof.
  intros Hk. unfold take, len in *.
  rewrite (proj2 (Z.leb_le 0 k)) by lia. apply firstn_all2. lia.
Qed.

Lemma concat_at_most_one {A B : Type} (f : A -> list B) (xs : list A) :
  (forall x, (length (f x) <= 1)%nat) ->
  (length (concat (map f xs)) <= length xs)%nat.
Proof.
  intros Hf. induction xs as [| x xs IH]; [reflexivity |].
  cbn [map concat length]. rewrite length_app. specialize (Hf x). lia.
Qed.

Lemma web_evidence_at_most_one (item : web_item) :
  (length (web_evidence item) <= 1)%nat.
Proof. unfold web_evidence. destruct (_ || _); cbn; lia. Qed.

Lemma wiki_evidence_at_most_one (item : wiki_item) :
  (length (wiki_evidence item) <= 1)%nat.
Proof. unfold wiki_evidence. destruct (_ || _); cbn; lia. Qed.

Lemma placeholders_length (a b : float) (claim : string) (k : Z) :
  len (placeholders a b claim k) = Z.max 0 k.
Proof.
  unfold placeholders, range, len. rewrite !length_map, length_seq. lia.
Qed.

Section Retriever.

Variable brave_api_key : option string.
Variable httpx_available : bool.
Variable brave_get : string -> Z -> response web_item.
Variable wikipedia_get : string -> Z -> response wiki_item.

Let search_web := _search_web brave_api_key httpx_available brave_get.
Let search_wikipedia := _search_wikipedia httpx_available wikipedia_get.
Let retriever :=
  retrieve brave_api_key httpx_available brave_get wikipedia_get.

Lemma search_web_length (claim : string) (k : Z) (l : list Evidence.t) :
  (0 <= k)%Z -> search_web claim k = Ok l -> (len l <= k)%Z.
Proof.
  intros Hk. unfold search_web, _search_web.
  destruct (negb (truthy_opt brave_api_key)).
  { intros [= <-]. rewrite placeholders_length. lia. }
  destruct (negb httpx_available).
  { intros [= <-]. rewrite placeholders_length. lia. }
  destruct (brave_get claim (Z.max 1 k)) as [items | | cls];
    [| intros [= <-]; rewrite placeholders_length; lia | discriminate].
  intros [= <-].
  pose proof (concat_at_most_one web_evidence (take k items)
                web_evidence_at_most_one) as H1.
  pose proof (take_length k items Hk) as H2. unfold len in *. lia.
Qed.

Lemma search_wikipedia_length (claim : string) (k : Z)
    (l : list Evidence.t) :
  search_wikipedia claim k = Ok l -> (len l <= Z.max 0 k)%Z.
Proof.
  unfold search_wikipedia, _search_wikipedia.
  destruct (k <=? 0)%Z eqn:Ek; [intros [= <-]; unfold len; cbn [length]; lia |].
  apply Z.leb_gt in Ek.
  destruct (negb httpx_available); [intros [= <-]; unfold len; cbn [length]; lia |].
  destruct (wikipedia_get claim k) as [items | | cls];
    [| intros [= <-]; unfold len; cbn [length]; lia | discriminate].
  intros [= <-].
  pose proof (concat_at_most_one wiki_evidence (take k items)
                wiki_evidence_at_most_one) as H1.
  pose proof (take_length k items ltac:(lia)) as H2. unfold len in *. lia.
Qed.

Lemma insert_desc_perm (e : Evidence.t) (l : list Evidence.t) :
  Permutation (insert_desc e l) (e :: l).
Proof.
  induction l as [| x l IH]; cbn [insert_desc]; [reflexivity |].
  destruct (Qltb _ _); [| reflexivity].
  rewrite IH. apply perm_swap.
Qed.

Lemma sorted_desc_perm (l : list Evidence.t) : Permutation (sorted_desc l) l.
Proof.
  unfold sorted_desc. induction l as [| e l IH]; cbn [fold_right];
    [reflexivity |].
  rewrite insert_desc_perm. now constructor.
Qed.

Lemma insert_desc_sorted (e : Evidence.t) (l : list Evidence.t) :
  StronglySorted
    (fun a b => Evidence.relevance_score b <= Evidence.relevance_score a) l ->
  StronglySorted
    (fun a b => Evidence.relevance_score b <= Evidence.relevance_score a)
    (insert_desc e l).
Proof.
  induction 1 as [| x l Hl IH Hx]; cbn [insert_desc].
  - repeat constructor.
  - destruct (Qltb (Evidence.relevance_score e) (Evidence.relevance_score x))
      eqn:E.
    + apply Qltb_lt in E. constructor; [exact IH |].
      apply List.Forall_forall. intros y Hy.
      apply (Permutation_in _ (insert_desc_perm e l)) in Hy.
      destruct Hy as [<- | Hy]; [lra |].
      rewrite List.Forall_forall in Hx. now apply Hx.
    + apply Qltb_ge in E. constructor; [now constructor |].
      constructor; [exact E |].
      apply List.Forall_forall. intros y Hy.
      rewrite List.Forall_forall in Hx. specialize (Hx y Hy). lra.
Qed.

Lemma sorted_desc_sorted (l : list Evidence.t) :
  StronglySorted
    (fun a b => Evidence.relevance_score b <= Evidence.relevance_score a)
    (sorted_desc l).
Proof.
  unfold sorted_desc. induction l as [| e l IH]; cbn [fold_right];
    [constructor | now apply insert_desc_sorted].
Qed.

Lemma firstn_In {A : Type} (n : nat) (l : list A) (y : A) :
  In y (firstn n l) -> In y l.
Proof.
  revert n. induction l as [| x l IH]; intros [| n]; cbn [firstn];
    try contradiction.
  intros [<- | Hy]; [now left | right; now apply (IH n)].
Qed.

Lemma firstn_sorted {A : Type} (R : A -> A -> Prop) (n : nat) (l : list A) :
  StronglySorted R l -> StronglySorted R (firstn n l).
Proof.
  intros H. revert n. induction H as [| x l Hl IH Hx]; intros [| n];
    cbn [firstn]; try constructor.
  - apply IH.
  - apply List.Forall_forall. intros y Hy.
    rewrite List.Forall_forall in Hx. apply Hx.
    now apply (firstn_In n).
Qed.

(** What [retrieve] returns when it returns. *)
Lemma retrieve_cases (claim : string) (top_k : Z) (l : list Evidence.t) :
  retriever claim top_k = Ok l ->
  exists web wiki,
    search_web claim (Z.min 3 top_k) = Ok web
    /\ search_wikipedia claim (Z.min 2 (Z.max 0 (top_k - len web))) = Ok wiki
    /\ l = take top_k (_rank_evidence (web ++ wiki)).
Proof.
  unfold retriever, retrieve. fold search_web. fold search_wikipedia.
  destruct (search_web claim (Z.min 3 top_k)) as [web | cls] eqn:Eweb;
    [| discriminate].
  cbn [bind].
  destruct (search_wikipedia claim _) as [wiki | cls] eqn:Ewiki;
    [| discriminate].
  cbn [bind]. intros [= <-]. exists web, wiki.
  split; [reflexivity |]. split; [exact Ewiki | reflexivity].
Qed.

Lemma rank_evidence_length (l : list Evidence.t) :
  length (_rank_evidence l) = length l.
Proof.
  unfold _rank_evidence. rewrite (Permutation_length (sorted_desc_perm _)).
  apply length_map.
Qed.

(** X7. For a count [top_k] that is not negative, [retrieve] returns at
    most [top_k] items and never more than five, whatever the providers
    reply. *)
Theorem retrieve_returns_at_most_top_k :
  forall (claim : string) (top_k : Z) (l : list Evidence.t),
    (0 <= top_k)%Z ->
    retriever claim top_k = Ok l ->
    (len l <= Z.min top_k 5)%Z.
Proof.
  intros claim top_k l Hk H.
  apply retrieve_cases in H as (web & wiki & Hweb & Hwiki & ->).
  apply search_web_length in Hweb; [| lia].
  apply search_wikipedia_length in Hwiki.
  pose proof (take_length top_k (_rank_evidence (web ++ wiki)) Hk) as Ht.
  unfold len in *. rewrite rank_evidence_length, length_app in Ht. lia.
Qed.

(** X8. The items that [retrieve] returns are in the order of their
    relevance scores, the highest first. *)
Theorem retrieve_orders_by_relevance :
  forall (claim : string) (top_k : Z) (l : list Evidence.t),
    retriever claim top_k = Ok l ->
    StronglySorted
      (fun a b => Evidence.relevance_score b <= Evidence.relevance_score a) l.
Proof.
  intros claim top_k l H.
  apply retrieve_cases in H as (web & wiki & _ & _ & ->).
  destruct (take_prefix top_k (_rank_evidence (web ++ wiki))) as [n ->].
  apply firstn_sorted, sorted_desc_sorted.
Qed.

Lemma rank_evidence_in (l : list Evidence.t) (e : Evidence.t) :
  In e (_rank_evidence l) ->
  exists e0,
    In e0 l
    /\ Evidence.source_url e = Evidence.source_url e0
    /\ Evidence.snippet e = Evidence.snippet e0
    /\ Evidence.credibility_score e = Evidence.credibility_score e0
    /\ Evidence.relevance_score e
       = Evidence.relevance_score e0 * Evidence.credibility_score e0.
Proof.
  unfold _rank_evidence. intros H.
  apply (Permutation_in _ (sorted_desc_perm _)) in H.
  apply in_map_iff in H as (e0 & <- & H0). exists e0. repeat split. exact H0.
Qed.

Lemma rank_evidence_keeps (l : list Evidence.t) (e0 : Evidence.t) :
  In e0 l ->
  exists e,
    In e (_rank_evidence l) /\ Evidence.snippet e = Evidence.snippet e0.
Proof.
  intros H. unfold _rank_evidence.
  eexists. split.
  - apply (Permutation_in _ (Permutation_sym (sorted_desc_perm _))).
    apply in_map_iff. exists e0. split; [reflexivity | exact H].
  - reflexivity.
Qed.

Lemma placeholders_in (a b : float) (claim : string) (k : Z)
    (e : Evidence.t) :
  In e (placeholders a b claim k) ->
  Evidence.snippet e = "Placeholder evidence for: " ++ claim
  /\ exists i, Evidence.source_url e
               = "https://example.com/evidence/" ++ str_of_Z i.
Proof.
  unfold placeholders. intros H. apply in_map_iff in H as (i & <- & _).
  split; [reflexivity | now exists i].
Qed.

Lemma search_web_in (claim : string) (k : Z) (l : list Evidence.t)
    (e : Evidence.t) :
  search_web claim k = Ok l -> In e l ->
  Evidence.source_url e <> "" /\ Evidence.snippet e <> "".
Proof.
  assert (Hp : forall a b, In e (placeholders a b claim k) ->
                           Evidence.source_url e <> ""
                           /\ Evidence.snippet e <> "").
  { intros a b H. apply placeholders_in in H as [-> [i ->]].
    split; discriminate. }
  unfold search_web, _search_web.
  destruct (negb (truthy_opt brave_api_key)); [intros [= <-]; apply Hp |].
  destruct (negb httpx_available); [intros [= <-]; apply Hp |].
  destruct (brave_get claim (Z.max 1 k)) as [items | | cls];
    [| intros [= <-]; apply Hp | discriminate].
  intros [= <-] H. apply in_concat in H as (xs & Hxs & He).
  apply in_map_iff in Hxs as (item & <- & _).
  unfold web_evidence in He.
  destruct (or_empty (url item)) as [| c u] eqn:Eu;
    [destruct He |].
  destruct (strip (or_empty (description item))) as [| d sn] eqn:Es;
    [destruct He |].
  destruct He as [<- | []]. split; discriminate.
Qed.

Lemma search_wikipedia_in (claim : string) (k : Z) (l : list Evidence.t)
    (e : Evidence.t) :
  search_wikipedia claim k = Ok l -> In e l ->
  Evidence.snippet e <> ""
  /\ exists title,
       Evidence.source_url e
       = "https://en.wikipedia.org/wiki/" ++ replace title " " "_".
Proof.
  unfold search_wikipedia, _search_wikipedia.
  destruct (k <=? 0)%Z; [now intros [= <-] |].
  destruct (negb httpx_available); [now intros [= <-] |].
  destruct (wikipedia_get claim k) as [items | | cls];
    [| now intros [= <-] | discriminate].
  intros [= <-] H. apply in_concat in H as (xs & Hxs & He).
  apply in_map_iff in Hxs as (item & <- & _).
  unfold wiki_evidence in He.
  destruct (negb (truthy_opt (title item))); [destruct He |].
  destruct (replace (replace _ _ _) _ _) as [| d sn] eqn:Es; [destruct He |].
  destruct He as [<- | []]. split; [discriminate |].
  now exists (or_empty (title item)).
Qed.

(** X9. Whatever the providers reply, no item that [retrieve] returns has
    an empty url or an empty snippet. *)
Theorem retrieve_items_have_url_and_snippet :
  forall (claim : string) (top_k : Z) (l : list Evidence.t) (e : Evidence.t),
    retriever claim top_k = Ok l ->
    In e l ->
    Evidence.source_url e <> "" /\ Evidence.snippet e <> "".
Proof.
  intros claim top_k l e H He.
  apply retrieve_cases in H as (web & wiki & Hweb & Hwiki & ->).
  destruct (take_prefix top_k (_rank_evidence (web ++ wiki))) as [n En].
  rewrite En in He. apply firstn_In in He.
  apply rank_evidence_in in He as (e0 & H0 & -> & -> & _).
  apply in_app_or in H0 as [H0 | H0].
  - exact (search_web_in _ _ _ _ Hweb H0).
  - destruct (search_wikipedia_in _ _ _ _ Hwiki H0) as [Hs [title ->]].
    split; [discriminate | exact Hs].
Qed.

Lemma replace_space_from (s : string) :
  contains " " (replace_from " " "_" 0 s) = false.
Proof.
  induction s as [| c s IH]; [reflexivity |].
  cbn [replace_from].
  change (String.prefix " " (String c s))
    with (if ascii_dec " " c then String.prefix "" s else false).
  destruct (ascii_dec " " c) as [<- | Hne].
  - replace (String.prefix "" s) with true by (now destruct s).
    cbn [String.length Nat.sub]. rewrite append_cons, append_nil_l.
    cbn [contains].
    change (String.prefix " " (String "_" (replace_from " " "_" 0 s)))
      with false.
    exact IH.
  - cbn [contains].
    change (String.prefix " " (String c (replace_from " " "_" 0 s)))
      with (if ascii_dec " " c
            then String.prefix "" (replace_from " " "_" 0 s) else false).
    destruct (ascii_dec " " c); [contradiction | exact IH].
Qed.

(** X10. The url of an item of the reference provider is the wiki address
    of a title in which every space was replaced: no space is left in
    it. *)
Theorem wikipedia_urls_have_no_space :
  forall (claim : string) (top_k : Z) (l : list Evidence.t) (e : Evidence.t),
    search_wikipedia claim top_k = Ok l ->
    In e l ->
    contains " " (Evidence.source_url e) = false.
Proof.
  intros claim top_k l e H He.
  destruct (search_wikipedia_in _ _ _ _ H He) as [_ [title ->]].
  unfold replace.
  pose proof (replace_space_from title) as Hr.
  set (t := replace_from " " "_" 0 title) in *. clearbody t.
  destruct (contains " " ("https://en.wikipedia.org/wiki/" ++ t)) eqn:E;
    [| reflexivity].
  apply EscalationFacts.contains_iff in E as (pre & suf & E).
  exfalso.
  assert (Hno : forall p : string,
             contains " " p = false -> forall q r,
             p ++ t = q ++ " " ++ r -> False).
  { clear E pre suf. induction p as [| c p IHp]; intros Hp q r Hq.
    - rewrite append_nil_l in Hq.
      assert (contains " " t = true)
        by (apply EscalationFacts.contains_iff; now exists q, r).
      congruence.
    - cbn [contains] in Hp. apply orb_false_iff in Hp as [Hc Hp].
      change (String.prefix " " (String c p))
        with (if ascii_dec " " c then String.prefix "" p else false) in Hc.
      destruct q as [| d q].
      + rewrite append_nil_l, !append_cons in Hq. injection Hq as Hcd _.
        destruct (ascii_dec " " c); [now destruct p | congruence].
      + rewrite !append_cons in Hq. injection Hq as _ Hq.
        exact (IHp Hp q r Hq). }
  apply (Hno "https://en.wikipedia.org/wiki/" eq_refl pre suf E).
Qed.

(** X11. [retrieve] raises exactly when a provider's call fails with an
    exception that is not an HTTP error: the web search's call, made when
    the key and the HTTP client are there, or else the reference provider's
    call, made for a positive count when the HTTP client is there.  The
    exception raised is that of the call. *)
Theorem retrieve_raises_what_a_provider_raises :
  forall (claim : string) (top_k : Z) (cls : string),
    retriever claim top_k = Raise cls
    <-> httpx_available = true
        /\ ((truthy_opt brave_api_key = true
             /\ brave_get claim (Z.max 1 (Z.min 3 top_k)) = Failed cls)
            \/ exists web,
                 search_web claim (Z.min 3 top_k) = Ok web
                 /\ (0 < Z.min 2 (Z.max 0 (top_k - len web)))%Z
                 /\ wikipedia_get claim
                      (Z.min 2 (Z.max 0 (top_k - len web))) = Failed cls).
Proof.
  intros claim top_k cls. unfold retriever, retrieve. fold search_web.
  destruct (search_web claim (Z.min 3 top_k)) as [web | cls'] eqn:Eweb;
    cbn [bind].
  - fold search_wikipedia.
    assert (Hnot : httpx_available = true ->
                   ~ (truthy_opt brave_api_key = true
                      /\ brave_get claim (Z.max 1 (Z.min 3 top_k))
                         = Failed cls)).
    { intros Hh [Hk Hb]. unfold search_web, _search_web in Eweb.
      rewrite Hk, Hh, Hb in Eweb. discriminate. }
    unfold search_wikipedia, _search_wikipedia.
    destruct (Z.min 2 (Z.max 0 (top_k - len web)) <=? 0)%Z eqn:Ek;
      cbn [bind].
    { apply Z.leb_le in Ek. split; [discriminate |].
      intros [Hh [H | (web' & [= <-] & Hpos & _)]];
        [destruct (Hnot Hh H) | lia]. }
    apply Z.leb_gt in Ek.
    destruct httpx_available; cbn [negb bind].
    + destruct (wikipedia_get claim _) as [items | | cls''] eqn:Ew;
        cbn [bind].
      * split; [discriminate |].
        intros [Hh [H | (web' & [= <-] & _ & Hw)]];
          [destruct (Hnot Hh H) | congruence].
      * split; [discriminate |].
        intros [Hh [H | (web' & [= <-] & _ & Hw)]];
          [destruct (Hnot Hh H) | congruence].
      * split.
        -- intros [= ->]. split; [reflexivity |]. right. now exists web.
        -- intros [Hh [H | (web' & [= <-] & _ & Hw)]];
          [destruct (Hnot Hh H) | congruence].
    + split; [discriminate | intros [? _]; discriminate].
  - unfold search_web, _search_web in Eweb.
    destruct (truthy_opt brave_api_key); cbn [negb] in Eweb;
      [| discriminate].
    destruct httpx_available; cbn [negb] in Eweb; [| discriminate].
    destruct (brave_get claim (Z.max 1 (Z.min 3 top_k))) as [items | | c]
      eqn:Eb; try discriminate.
    injection Eweb as ->. split.
    + intros [= ->]. split; [reflexivity |]. left. now split.
    + intros [_ [[_ [= ->]] | (web' & [=] & _)]]. reflexivity.
Qed.

End Retriever.

End RetrieverLaws.

(** ** Retrieval, verification and policy without configuration *)

Module DegradedLaws.

Import Py NLIVerifier EvidenceRetriever HeuristicSpec EscalationSpec.
Import VerifierFacts VerifierLaws RetrieverLaws.

Section Degraded.

Variable brave_api_key : option string.
Variable httpx_available : bool.
Variable brave_get : string -> Z -> response web_item.
Variable wikipedia_get : string -> Z -> response wiki_item.
Variable json_loads : string -> option json.
Variable float_of_str : string -> option float.
Variable llm_ainvoke : string -> string -> string -> result string.
Variables HALLUSHIELD_PROVIDER HALLUSHIELD_VERIFIER_MODEL : option string.
Variables GEMINI_API_KEY anthropic_api_key openai_api_key : option string.
Variable default_model : option string.

Let retriever :=
  retrieve brave_api_key httpx_available brave_get wikipedia_get.

Let scorer :=
  _verify_with_llm json_loads llm_ainvoke HALLUSHIELD_PROVIDER
    HALLUSHIELD_VERIFIER_MODEL GEMINI_API_KEY anthropic_api_key
    openai_api_key default_model.

Let verifier :=
  verify json_loads float_of_str llm_ainvoke HALLUSHIELD_PROVIDER
    HALLUSHIELD_VERIFIER_MODEL GEMINI_API_KEY anthropic_api_key
    openai_api_key default_model.

(** Without a search key the evidence retrieved for a positive count holds
    a placeholder, which quotes the claim. *)
Lemma retrieved_placeholder (claim : string) (top_k : Z)
    (evidence_list : list Evidence.t) :
  truthy_opt brave_api_key = false ->
  (1 <= top_k)%Z ->
  retriever claim top_k = Ok evidence_list ->
  Exists (fun e => is_substring claim (Evidence.snippet e)) evidence_list.
Proof.
  intros Hkey Hk H.
  apply retrieve_cases in H as (web & wiki & Hweb & Hwiki & ->).
  pose proof Hweb as Hw. unfold _search_web in Hw. rewrite Hkey in Hw.
  injection Hw as Hw.
  assert (H3 : (0 <= Z.min 3 top_k)%Z) by lia.
  pose proof (search_web_length _ _ _ _ _ _ H3 Hweb) as Hl1.
  pose proof (search_wikipedia_length _ _ _ _ _ Hwiki) as Hl2.
  rewrite take_all
    by (unfold len in *; rewrite rank_evidence_length, length_app; lia).
  assert (Hin : exists p, In p web).
  { pose proof (placeholders_length 0.8 0.6 claim (Z.min 3 top_k)) as Hp.
    rewrite Hw in Hp. destruct web as [| p web'];
      [unfold len in Hp; cbn [length] in Hp; lia | exists p; now left]. }
  destruct Hin as [p Hp].
  assert (Hsn : Evidence.snippet p = "Placeholder evidence for: " ++ claim).
  { rewrite <- Hw in Hp. now apply placeholders_in in Hp as [-> _]. }
  apply List.Exists_exists.
  destruct (rank_evidence_keeps (web ++ wiki) p) as (e & He & Hs);
    [apply in_or_app; now left |].
  exists e. split; [exact He |]. rewrite Hs, Hsn.
  exists "Placeholder evidence for: ", EmptyString.
  now rewrite AssemblyFacts.append_nil_r.
Qed.

(** X12. A pipeline with no search key and no verdict from the scorer
    accepts every claim that has a token of length at least four: the
    placeholder evidence quotes the claim, so that the heuristic support is
    1, and the policy's action is ACCEPT with confidence 1. *)
Theorem placeholder_evidence_accepts_every_claim :
  forall (claim_id claim : string) (top_k : Z)
         (evidence_list : list Evidence.t) (r : VerificationResult.t)
         (c : Claim.t),
    truthy_opt brave_api_key = false ->
    (1 <= top_k)%Z ->
    claim_tokens claim <> [] ->
    retriever claim top_k = Ok evidence_list ->
    scorer claim evidence_list = Ok JNull ->
    verifier claim_id claim evidence_list = Ok r ->
    VerificationResult.support_score r == 1
    /\ Decision.action (AdaptiveDecisionPolicy.decide c r evidence_list)
       = "ACCEPT"
    /\ Decision.confidence (AdaptiveDecisionPolicy.decide c r evidence_list)
       == 1.
Proof.
  intros cid claim top_k es r c Hkey Hk Ht Hr Hs.
  pose proof (retrieved_placeholder claim top_k es Hkey Hk Hr) as Hex.
  assert (Hes : es <> []) by (intros ->; inversion Hex).
  destruct (verify_cases json_loads float_of_str llm_ainvoke
              HALLUSHIELD_PROVIDER HALLUSHIELD_VERIFIER_MODEL GEMINI_API_KEY
              anthropic_api_key openai_api_key default_model cid claim es)
    as [[-> _] | [_ [(cls & Hc & _) | [[_ Hv] | (v & Hv & Hn & _)]]]];
    [congruence | fold scorer in Hc; congruence | | fold scorer in Hv; congruence].
  fold verifier in Hv. rewrite Hv. intros [= <-].
  cbn [VerificationResult.support_score AdaptiveDecisionPolicy.decide
       Decision.action Decision.confidence
       VerificationResult.evidence_agreement].
  destruct (heuristic_support_cases claim es Hes)
    as [[Hn _] | [_ (base & Hb0 & Hmax & Hsup)]]; [congruence |].
  pose proof (quoted_claim_base claim es base Ht Hex Hmax) as Hb.
  assert (H1 : _heuristic_support claim es == 1)
    by (rewrite Hsup; minmax_cases; lra).
  split; [exact H1 |]. split; [| exact H1].
  unfold AdaptiveDecisionPolicy._rule_based_action.
  cbn [VerificationResult.support_score
       VerificationResult.contradiction_score].
  change (Qltb 0.0 0.1) with true.
  replace (Qgtb (_heuristic_support claim es) 0.85) with true;
    [reflexivity |].
  symmetry. apply Qgtb_gt. lra.
Qed.

End Degraded.

End DegradedLaws.

(** ** The model router *)

Module RouterLaws.

Import Py ModelRouter Accounting.

Lemma cost_table_nonneg (tier : string) : 0 <= cost_table tier.
Proof.
  unfold cost_table.
  destruct (String.eqb tier "slm"); [lra |].
  destruct (String.eqb tier "llm_flash"); [lra |].
  destruct (String.eqb tier "llm_pro"); lra.
Qed.

Lemma calculate_cost_nonneg (tokens : Z) (tier : string) :
  (0 <= tokens)%Z -> 0 <= _calculate_cost tokens tier.
Proof.
  intros Ht. unfold _calculate_cost.
  apply Qmult_le_0_compat; [| apply cost_table_nonneg].
  apply Qle_shift_div_l; [lra |]. rewrite Qmult_0_l.
  change 0 with (inject_Z 0). now rewrite <- Zle_Qle.
Qed.

Section Router.

Variable GROQ_API_KEY : option string.
Variable HF_TOKEN : option string.
Variable GEMINI_API_KEY : option string.
Variable ANTHROPIC_API_KEY : option string.
Variable groq_create : nat -> string -> string -> result groq_completion.
Variable hf_create : nat -> string -> result hf_completion.
Variable gemini_generate : nat -> string -> string -> result string.
Variable claude_create : nat -> string -> result claude_message.

Let call_groq := _call_groq GROQ_API_KEY groq_create.
Let call_huggingface := _call_huggingface HF_TOKEN hf_create.
Let call_gemini := _call_gemini GEMINI_API_KEY gemini_generate.
Let call_claude := _call_claude ANTHROPIC_API_KEY claude_create.
Let call_slm := _call_slm GROQ_API_KEY HF_TOKEN groq_create hf_create.
Let call_llm :=
  _call_llm GEMINI_API_KEY ANTHROPIC_API_KEY gemini_generate claude_create.
Let router_response :=
  get_response GROQ_API_KEY HF_TOKEN GEMINI_API_KEY ANTHROPIC_API_KEY
    groq_create hf_create gemini_generate claude_create.

Lemma call_groq_effect (query model : string) (r : t) :
  provider_effect r (call_groq query model r).
Proof.
  unfold provider_effect, call_groq, _call_groq.
  destruct (negb (truthy_opt GROQ_API_KEY)); [repeat split |].
  destruct (groq_create (api_calls r) query model); repeat split.
Qed.

Lemma call_huggingface_effect (query : string) (r : t) :
  provider_effect r (call_huggingface query r).
Proof.
  unfold provider_effect, call_huggingface, _call_huggingface.
  destruct (negb (truthy_opt HF_TOKEN)); [repeat split |].
  destruct (hf_create (api_calls r) query); repeat split.
Qed.

Lemma call_gemini_effect (query model : string) (r : t) :
  provider_effect r (call_gemini query model r).
Proof.
  unfold provider_effect, call_gemini, _call_gemini.
  destruct (negb (truthy_opt GEMINI_API_KEY)); [repeat split |].
  destruct (gemini_generate (api_calls r) query model); repeat split.
Qed.

Lemma call_claude_effect (query : string) (r : t) :
  provider_effect r (call_claude query r).
Proof.
  unfold provider_effect, call_claude, _call_claude.
  destruct (negb (truthy_opt ANTHROPIC_API_KEY)); [repeat split |].
  destruct (claude_create (api_calls r) query); repeat split.
Qed.

(** A provider that raises leaves the statistics as they were, so that a
    fallback starts from the counters of the first attempt. *)
Lemma provider_effect_then (r r1 : t) (cls : string)
    (out : result ModelResponse.t * t) :
  provider_effect r (Raise cls, r1) ->
  provider_effect r1 out ->
  provider_effect r out.
Proof.
  unfold provider_effect. cbn [fst snd].
  intros (A1 & A2 & A3 & A4 & A5) (B1 & B2 & B3 & B4 & B5).
  repeat split; try congruence.
  rewrite B5. destruct out.1; now rewrite A5.
Qed.

Lemma call_slm_effect (query model : string) (r : t) :
  provider_effect (add_slm_call r) (call_slm query model r).
Proof.
  unfold call_slm, _call_slm. fold call_groq. fold call_huggingface.
  pose proof (call_groq_effect query model (add_slm_call r)) as Hg.
  destruct (call_groq query model (add_slm_call r)) as [[resp | cls] r1];
    [exact Hg |].
  pose proof (call_huggingface_effect query r1) as Hh.
  destruct (call_huggingface query r1) as [[resp | cls'] r2].
  - exact (provider_effect_then _ _ _ _ Hg Hh).
  - exact (provider_effect_then _ _ _ (Raise "Exception", r2) Hg Hh).
Qed.

Lemma call_llm_effect (query model : string) (r : t) :
  provider_effect (add_llm_call r) (call_llm query model r).
Proof.
  unfold call_llm, _call_llm. fold call_gemini. fold call_claude.
  pose proof (call_gemini_effect query model (add_llm_call r)) as Hg.
  destruct (call_gemini query model (add_llm_call r)) as [[resp | cls] r1];
    [exact Hg |].
  pose proof (call_claude_effect query r1) as Hh.
  destruct (call_claude query r1) as [[resp | cls'] r2].
  - exact (provider_effect_then _ _ _ _ Hg Hh).
  - exact (provider_effect_then _ _ _ (Raise "Exception", r2) Hg Hh).
Qed.

(** X13. Every request to the router is counted once, whether it is
    answered or not: at the llm tier by the count of llm calls, at any
    other tier by the count of slm calls.  The counts of escalations and of
    savings stay, and the total cost grows by the cost of the response, if
    there is one. *)
Theorem get_response_counts_the_call :
  forall (query model_tier slm_model llm_model : string) (r : t),
    let out := router_response query model_tier slm_model llm_model r in
    (if String.eqb model_tier "llm"
     then llm_calls (stats out.2) = (llm_calls (stats r) + 1)%Z
          /\ slm_calls (stats out.2) = slm_calls (stats r)
     else slm_calls (stats out.2) = (slm_calls (stats r) + 1)%Z
          /\ llm_calls (stats out.2) = llm_calls (stats r))
    /\ escalations (stats out.2) = escalations (stats r)
    /\ cost_saved (stats out.2) = cost_saved (stats r)
    /\ total_cost (stats out.2)
       = match out.1 with
         | Ok response => total_cost (stats r) + ModelResponse.cost response
         | Raise _ => total_cost (stats r)
         end.
Proof.
  intros query tier slm llm r. unfold router_response, get_response.
  fold call_llm. fold call_slm.
  destruct (String.eqb tier "llm").
  - destruct (call_llm_effect query llm r) as (A1 & A2 & A3 & A4 & A5).
    cbv zeta. rewrite A1, A2, A3, A4, A5. repeat split.
  - assert (E : (if String.eqb tier "slm" then call_slm query slm r
                 else call_slm query slm r) = call_slm query slm r)
      by (now destruct (String.eqb tier "slm")).
    rewrite E.
    destruct (call_slm_effect query slm r) as (A1 & A2 & A3 & A4 & A5).
    cbv zeta. rewrite A1, A2, A3, A4, A5. repeat split.
Qed.

(** X14. At a tier other than llm the answer is Groq's whenever Groq
    answers; it is HuggingFace's when Groq has no key or raises and
    HuggingFace answers; and when neither answers, the exception raised is
    a plain Exception, whatever the providers raised. *)
Theorem small_model_falls_back_once :
  forall (query model_tier slm_model llm_model : string) (r : t),
    model_tier <> "llm" ->
    let out := router_response query model_tier slm_model llm_model r in
    let r1 := add_slm_call r in
    match keyed GROQ_API_KEY (groq_create (api_calls r1) query slm_model) with
    | Ok completion =>
        exists response,
          out.1 = Ok response
          /\ ModelResponse.provider response = "groq"
          /\ ModelResponse.tier response = "slm"
          /\ ModelResponse.model response = slm_model
          /\ ModelResponse.text response = groq_content completion
          /\ api_calls out.2 = S (api_calls r)
    | Raise _ =>
        match keyed HF_TOKEN
                (hf_create (after_try GROQ_API_KEY (api_calls r1)) query) with
        | Ok completion =>
            exists response,
              out.1 = Ok response
              /\ ModelResponse.provider response = "huggingface"
              /\ ModelResponse.tier response = "slm"
              /\ ModelResponse.text response = hf_content completion
        | Raise _ => out.1 = Raise "Exception"
        end
    end.
Proof.
  intros query tier slm llm r Ht. unfold router_response, get_response.
  rewrite (proj2 (String.eqb_neq _ _) Ht).
  assert (E : (if String.eqb tier "slm"
               then _call_slm GROQ_API_KEY HF_TOKEN groq_create hf_create
                      query slm r
               else _call_slm GROQ_API_KEY HF_TOKEN groq_create hf_create
                      query slm r)
              = call_slm query slm r)
    by (now destruct (String.eqb tier "slm")).
  rewrite E. clear E. cbv zeta.
  unfold call_slm, _call_slm, _call_groq, _call_huggingface, keyed, after_try.
  destruct (truthy_opt GROQ_API_KEY); cbn [negb].
  - destruct (groq_create (api_calls (add_slm_call r)) query slm)
      as [c | cls].
    + eexists. repeat split.
    + cbn [api_calls tick].
      destruct (truthy_opt HF_TOKEN); cbn [negb]; [| reflexivity].
      destruct (hf_create _ query) as [h | cls']; [| reflexivity].
      eexists. repeat split.
  - destruct (truthy_opt HF_TOKEN); cbn [negb]; [| reflexivity].
    destruct (hf_create _ query) as [h | cls']; [| reflexivity].
    eexists. repeat split.
Qed.

(** X15. At the llm tier the answer is Gemini's whenever Gemini answers;
    it is Claude's when Gemini has no key or raises and Claude answers; and
    when neither answers, the exception raised is a plain Exception.  An
    answer carries the tier llm. *)
Theorem large_model_falls_back_once :
  forall (query slm_model llm_model : string) (r : t),
    let out := router_response query "llm" slm_model llm_model r in
    let r1 := add_llm_call r in
    match keyed GEMINI_API_KEY
            (gemini_generate (api_calls r1) query llm_model) with
    | Ok text =>
        exists response,
          out.1 = Ok response
          /\ ModelResponse.provider response = "gemini"
          /\ ModelResponse.tier response = "llm"
          /\ ModelResponse.model response = llm_model
          /\ ModelResponse.text response = text
    | Raise _ =>
        match keyed ANTHROPIC_API_KEY
                (claude_create (after_try GEMINI_API_KEY (api_calls r1))
                   query) with
        | Ok message =>
            exists response,
              out.1 = Ok response
              /\ ModelResponse.provider response = "anthropic"
              /\ ModelResponse.tier response = "llm"
              /\ ModelResponse.model response = "claude-sonnet-4-20250514"
              /\ ModelResponse.text response = claude_text message
        | Raise _ => out.1 = Raise "Exception"
        end
    end.
Proof.
  intros query slm llm r. unfold router_response, get_response.
  change (String.eqb "llm" "llm") with true. cbv iota zeta.
  unfold _call_llm, _call_gemini, _call_claude, keyed, after_try.
  destruct (truthy_opt GEMINI_API_KEY); cbn [negb].
  - destruct (gemini_generate (api_calls (add_llm_call r)) query llm)
      as [c | cls].
    + eexists. repeat split.
    + cbn [api_calls tick].
      destruct (truthy_opt ANTHROPIC_API_KEY); cbn [negb]; [| reflexivity].
      destruct (claude_create _ query) as [h | cls']; [| reflexivity].
      eexists. repeat split.
  - destruct (truthy_opt ANTHROPIC_API_KEY); cbn [negb]; [| reflexivity].
    destruct (claude_create _ query) as [h | cls']; [| reflexivity].
    eexists. repeat split.
Qed.

(** X16. The total cost of the router never decreases, as long as the
    providers that report their usage report token counts that are not
    negative (the counts of the other two providers are estimated from the
    number of words, and are never negative). *)
Theorem total_cost_never_decreases :
  (forall n query model completion p c total,
     groq_create n query model = Ok completion ->
     groq_usage completion = Some (p, c, total) -> (0 <= total)%Z) ->
  (forall n query message,
     claude_create n query = Ok message ->
     (0 <= claude_input_tokens message + claude_output_tokens message)%Z) ->
  forall (query model_tier slm_model llm_model : string) (r : t),
    total_cost (stats r)
    <= total_cost
         (stats (router_response query model_tier slm_model llm_model r).2).
Proof.
  intros Hgroq Hclaude query tier slm llm r.
  assert (Hcost : forall r0 (out : result ModelResponse.t * t),
             provider_effect r0 out ->
             (forall response, out.1 = Ok response ->
                               0 <= ModelResponse.cost response) ->
             total_cost (stats r0) <= total_cost (stats out.2)).
  { intros r0 out (_ & _ & _ & _ & E) Hc. rewrite E.
    destruct out.1 as [response |]; [| lra].
    specialize (Hc response eq_refl). lra. }
  assert (Hg : forall q m r0 response,
             (call_groq q m r0).1 = Ok response ->
             0 <= ModelResponse.cost response).
  { intros q m r0 response. unfold call_groq, _call_groq.
    destruct (negb (truthy_opt GROQ_API_KEY)); [discriminate |].
    destruct (groq_create (api_calls r0) q m) as [c |] eqn:Ec;
      [| discriminate].
    intros [= <-]. cbn [ModelResponse.cost].
    apply calculate_cost_nonneg.
    destruct (groq_usage c) as [[[p cm] total] |] eqn:Eu; [| lia].
    exact (Hgroq _ _ _ _ _ _ _ Ec Eu). }
  assert (Hh : forall q r0 response,
             (call_huggingface q r0).1 = Ok response ->
             0 <= ModelResponse.cost response).
  { intros q r0 response. unfold call_huggingface, _call_huggingface.
    destruct (negb (truthy_opt HF_TOKEN)); [discriminate |].
    destruct (hf_create (api_calls r0) q) as [c |]; [| discriminate].
    intros [= <-]. cbn [ModelResponse.cost].
    apply calculate_cost_nonneg.
    apply Z.div_pos; [unfold len; lia | lia]. }
  assert (Hm : forall q m r0 response,
             (call_gemini q m r0).1 = Ok response ->
             0 <= ModelResponse.cost response).
  { intros q m r0 response. unfold call_gemini, _call_gemini.
    destruct (negb (truthy_opt GEMINI_API_KEY)); [discriminate |].
    destruct (gemini_generate (api_calls r0) q m) as [c |]; [| discriminate].
    intros [= <-]. cbn [ModelResponse.cost].
    apply calculate_cost_nonneg.
    apply Z.div_pos; [unfold len; lia | lia]. }
  assert (Hc : forall q r0 response,
             (call_claude q r0).1 = Ok response ->
             0 <= ModelResponse.cost response).
  { intros q r0 response. unfold call_claude, _call_claude.
    destruct (negb (truthy_opt ANTHROPIC_API_KEY)); [discriminate |].
    destruct (claude_create (api_calls r0) q) as [c |] eqn:Ec;
      [| discriminate].
    intros [= <-]. cbn [ModelResponse.cost].
    apply calculate_cost_nonneg. exact (Hclaude _ _ _ Ec). }
  unfold router_response, get_response.
  assert (Hslm : total_cost (stats r)
                 <= total_cost (stats (call_slm query slm r).2)).
  { change (total_cost (stats r)) with (total_cost (stats (add_slm_call r))).
    apply Hcost; [apply call_slm_effect |].
    unfold call_slm, _call_slm. fold call_groq. fold call_huggingface.
    intros response.
    pose proof (Hg query slm (add_slm_call r)) as Hg'.
    destruct (call_groq query slm (add_slm_call r)) as [[resp | cls] r1];
      cbn [fst] in *; [intros [= <-]; now apply Hg' |].
    pose proof (Hh query r1) as Hh'.
    destruct (call_huggingface query r1) as [[resp | cls'] r2];
      cbn [fst] in *; [intros [= <-]; now apply Hh' | discriminate]. }
  destruct (String.eqb tier "llm");
    [| destruct (String.eqb tier "slm"); exact Hslm].
  change (total_cost (stats r)) with (total_cost (stats (add_llm_call r))).
  apply Hcost; [apply call_llm_effect |].
  unfold call_llm, _call_llm. fold call_gemini. fold call_claude.
  intros response.
  pose proof (Hm query llm (add_llm_call r)) as Hm'.
  destruct (call_gemini query llm (add_llm_call r)) as [[resp | cls] r1];
    cbn [fst] in *; [intros [= <-]; now apply Hm' |].
  pose proof (Hc query r1) as Hc'.
  destruct (call_claude query r1) as [[resp | cls'] r2];
    cbn [fst] in *; [intros [= <-]; now apply Hc' | discriminate].
Qed.

End Router.

Lemma round_half_even_error (x : Q) :
  Qabs (inject_Z (round_half_even x) - x) <= 1 # 2.
Proof.
  unfold round_half_even.
  pose proof (Qfloor_le x) as Hlo. pose proof (Qlt_floor x) as Hhi.
  rewrite inject_Z_plus in Hhi.
  change (inject_Z 1) with 1 in Hhi.
  apply Qabs_Qle_condition.
  destruct (Qltb (x - inject_Z (Qfloor x)) 0.5) eqn:E1.
  { apply Qltb_lt in E1. split; lra. }
  apply Qltb_ge in E1.
  destruct (Qltb 0.5 (x - inject_Z (Qfloor x))) eqn:E2.
  { apply Qltb_lt in E2. rewrite inject_Z_plus.
    change (inject_Z 1) with 1. split; lra. }
  apply Qltb_ge in E2.
  destruct (Z.even (Qfloor x)); [split; lra |].
  rewrite inject_Z_plus. change (inject_Z 1) with 1. split; lra.
Qed.

Lemma round_ndigits_error (x : Q) (n : nat) :
  Qabs (RouterStats.round_ndigits x n - x)
  <= (1 # 2) / inject_Z (10 ^ Z.of_nat n).
Proof.
  unfold RouterStats.round_ndigits.
  set (s := inject_Z (10 ^ Z.of_nat n)).
  assert (Hs : 0 < s).
  { subst s. change 0 with (inject_Z 0). rewrite <- Zlt_Qlt.
    apply Z.pow_pos_nonneg; lia. }
  pose proof (round_half_even_error (x * s)) as He.
  apply Qabs_Qle_condition in He as [He1 He2].
  apply Qabs_Qle_condition.
  assert (E : inject_Z (round_half_even (x * s)) / s - x
              == (inject_Z (round_half_even (x * s)) - x * s) / s)
    by (field; lra).
  rewrite E. split.
  - apply Qle_shift_div_l; [exact Hs |].
    assert (E2 : - ((1 # 2) / s) * s == - (1 # 2)) by (field; lra).
    rewrite E2. exact He1.
  - apply Qle_shift_div_r; [exact Hs |].
    assert (E2 : (1 # 2) / s * s == 1 # 2) by (field; lra).
    rewrite E2. exact He2.
Qed.


End RouterLaws.

(** ** What a request does to the router's statistics *)

Module CountingLaws.

Import Py HalluShieldState HalluShieldPipeline LoopSpec Accounting Counters.

Lemma counted_same_router (w0 w w' : world) (a b c : Z) :
  model_router w' = model_router w ->
  counted w0 w a b c -> counted w0 w' a b c.
Proof.
  unfold counted, slm_calls_of, llm_calls_of, escalations_of.
  now intros ->.
Qed.

Section Counting.

Variable llm_model : option string.
Variable HALLUSHIELD_SLM_MODEL : option string.
Variable GROQ_API_KEY : option string.
Variable HF_TOKEN : option string.
Variable GEMINI_API_KEY : option string.
Variable ANTHROPIC_API_KEY : option string.
Variable groq_create
  : nat -> string -> string -> result ModelRouter.groq_completion.
Variable hf_create : nat -> string -> result ModelRouter.hf_completion.
Variable gemini_generate : nat -> string -> string -> result string.
Variable claude_create : nat -> string -> result ModelRouter.claude_message.
Variable extract : string -> list Claim.t.
Variable retrieve : nat -> string -> result (list Evidence.t).
Variable verify
  : nat -> string -> string -> list Evidence.t -> result VerificationResult.t.
Variable langgraph_available : bool.

Let node_call_llm :=
  _call_llm llm_model HALLUSHIELD_SLM_MODEL GROQ_API_KEY HF_TOKEN
    GEMINI_API_KEY ANTHROPIC_API_KEY groq_create hf_create gemini_generate
    claude_create.

Let node_run :=
  run_node llm_model HALLUSHIELD_SLM_MODEL GROQ_API_KEY HF_TOKEN
    GEMINI_API_KEY ANTHROPIC_API_KEY groq_create hf_create gemini_generate
    claude_create extract retrieve verify.

Let graph_run :=
  run_from llm_model HALLUSHIELD_SLM_MODEL GROQ_API_KEY HF_TOKEN
    GEMINI_API_KEY ANTHROPIC_API_KEY groq_create hf_create gemini_generate
    claude_create extract retrieve verify.

Let sequential_run :=
  verify_sequential llm_model HALLUSHIELD_SLM_MODEL GROQ_API_KEY HF_TOKEN
    GEMINI_API_KEY ANTHROPIC_API_KEY groq_create hf_create gemini_generate
    claude_create extract retrieve verify.

Let request :=
  verify_query llm_model HALLUSHIELD_SLM_MODEL GROQ_API_KEY HF_TOKEN
    GEMINI_API_KEY ANTHROPIC_API_KEY groq_create hf_create gemini_generate
    claude_create extract retrieve verify langgraph_available.

(** Generation counts one call, of the tier that the state asks for. *)
Lemma call_llm_counts (w0 : world) (s : HalluShieldState.t) (w : world)
    (a b c : Z) :
  counted w0 w a b c ->
  if default false (force_llm_tier s)
  then counted w0 (node_call_llm s w).2 a (b + 1) c
  else counted w0 (node_call_llm s w).2 (a + 1) b c.
Proof.
  unfold counted, slm_calls_of, llm_calls_of, escalations_of.
  intros (Ha & Hb & Hc).
  unfold node_call_llm, _call_llm, get_response, ModelRouter.get_response.
  destruct (default false (force_llm_tier s)).
  - change (String.eqb "llm" "llm") with true. cbv iota.
    destruct (RouterLaws.call_llm_effect GEMINI_API_KEY ANTHROPIC_API_KEY
                gemini_generate claude_create (query s)
                (or_str llm_model "gemini-2.5-flash") (model_router w))
      as (A1 & A2 & A3 & _).
    destruct (ModelRouter._call_llm _ _ _ _ _ _ (model_router w))
      as [[response | cls] r]; cbn [fst snd model_router with_router] in *;
      rewrite A1, A2, A3; cbn; lia.
  - change (String.eqb "slm" "llm") with false.
    change (String.eqb "slm" "slm") with true. cbv iota.
    destruct (RouterLaws.call_slm_effect GROQ_API_KEY HF_TOKEN groq_create
                hf_create (query s)
                (default "llama-3.3-70b-versatile" HALLUSHIELD_SLM_MODEL)
                (model_router w))
      as (A1 & A2 & A3 & _).
    destruct (ModelRouter._call_slm _ _ _ _ _ _ (model_router w))
      as [[response | cls] r]; cbn [fst snd model_router with_router] in *;
      rewrite A1, A2, A3; cbn; lia.
Qed.

Lemma check_escalation_counts (s : HalluShieldState.t) (w : world) :
  match _check_escalation s w with
  | (Raise _, w') => w' = w
  | (Ok s', w') =>
      (should_escalate s' = Some false /\ w' = w)
      \/ (should_escalate s' = Some true /\ force_llm_tier s' = Some true
          /\ counted w w' 0 0 1)
  end.
Proof.
  unfold _check_escalation.
  destruct (is_jstr _ "llm"); [left; split; reflexivity |].
  destruct (if (Z.of_nat (size (default ∅ (verification_results s))) =? 0)%Z
            then _ else _) as [h c].
  destruct (bind (as_str _) _) as [slm_response | cls]; [| reflexivity].
  destruct (ModelRouter.should_escalate slm_response h c) as [[] reason].
  - right. split; [reflexivity |]. split; [reflexivity |].
    unfold counted, slm_calls_of, llm_calls_of, escalations_of. cbn.
    repeat split; lia.
  - left. split; reflexivity.
Qed.

Lemma update_memory_router (s : HalluShieldState.t) (w : world) :
  model_router (_update_memory s w) = model_router w.
Proof.
  unfold _update_memory. revert w.
  induction (default [] (decisions s)) as [| d ds IH]; intros w;
    cbn [fold_left]; [reflexivity |].
  rewrite IH. now destruct (_ !! _).
Qed.

Lemma counted_then (w0 w w' : world) (a b c : Z) :
  counted w0 w a b c -> counted w w' 0 0 1 -> counted w0 w' a b (c + 1).
Proof.
  unfold counted. intros (A1 & A2 & A3) (B1 & B2 & B3).
  repeat split; lia.
Qed.

(** A run whose steps keep an invariant and lower the rank ends, within a
    limit of at least the rank, in [Fin] or, by an exception of a node, in
    [Err]: the limit is not reached. *)
Lemma ranked_run
    (Inv : bool -> node -> HalluShieldState.t -> world -> Prop)
    (Fin : HalluShieldState.t -> world -> Prop) (Err : world -> Prop) :
  (forall e n s w,
     Inv e n s w ->
     match node_run n s w with
     | (Raise _, w') => Err w'
     | (Ok s', w') =>
         match next_node n s' with
         | Some n' => exists e', Inv e' n' s' w' /\ (rank e' n' < rank e n)%nat
         | None => Fin s' w'
         end
     end) ->
  forall limit e n s w,
    Inv e n s w ->
    (rank e n <= limit)%nat ->
    match graph_run limit n s w with
    | (Raise _, w', _) => Err w'
    | (Ok s', w', _) => Fin s' w'
    end.
Proof.
  intros Hstep. induction limit as [| limit IH]; intros e n s w Hinv Hrank.
  - pose proof (LoopFacts.rank_positive e n). lia.
  - cbn [graph_run run_from]. fold node_run. fold graph_run.
    specialize (Hstep e n s w Hinv).
    destruct (node_run n s w) as [[s' | cls] w']; [| exact Hstep].
    destruct (next_node n s') as [n' |]; [| exact Hstep].
    destruct Hstep as (e' & Hinv' & Hlt).
    specialize (IH e' n' s' w' Hinv' ltac:(lia)).
    destruct (graph_run limit n' s' w') as [[[s'' | cls] w''] trace];
      exact IH.
Qed.

Lemma counting_step (w0 : world) (e : bool) (n : node)
    (s : HalluShieldState.t) (w : world) :
  counting_invariant w0 e n s w ->
  match node_run n s w with
  | (Raise _, w') => one_request_counted w0 w'
  | (Ok s', w') =>
      match next_node n s' with
      | Some n' =>
          exists e',
            counting_invariant w0 e' n' s' w' /\ (rank e' n' < rank e n)%nat
      | None => one_request_counted w0 w'
      end
  end.
Proof.
  intros Hinv.
  assert (Hkeep : forall (n' : node) (s' : HalluShieldState.t) (w' : world),
             node_eqb call_llm n = false ->
             node_eqb call_llm n' = false ->
             model_router w' = model_router w ->
             (e = true -> after_escalation n' s') ->
             (rank e n' < rank e n)%nat ->
             exists e',
               counting_invariant w0 e' n' s' w'
               /\ (rank e' n' < rank e n)%nat).
  { intros n' s' w' Hn Hn' Hr Ha Hlt. exists e. split; [| exact Hlt].
    unfold counting_invariant in *. rewrite Hn in Hinv. rewrite Hn'.
    destruct e.
    - destruct Hinv as [_ Hc]. split; [now apply Ha |].
      exact (counted_same_router _ _ _ _ _ _ Hr Hc).
    - destruct Hinv as [_ Hc].
      split; [intros ->; discriminate |].
      exact (counted_same_router _ _ _ _ _ _ Hr Hc). }
  assert (Hend : forall w' : world,
             node_eqb call_llm n = false ->
             model_router w' = model_router w ->
             one_request_counted w0 w').
  { intros w' Hn Hr. unfold counting_invariant in Hinv. rewrite Hn in Hinv.
    destruct e; destruct Hinv as [_ Hc]; [right | left];
      exact (counted_same_router _ _ _ _ _ _ Hr Hc). }
  destruct n; cbn [node_run run_node next_node].
  - (* call_llm *)
    fold node_call_llm. unfold counting_invariant in Hinv.
    cbn [node_eqb] in Hinv. destruct e.
    + destruct Hinv as [Hf Hc]. cbn [after_escalation] in Hf.
      pose proof (call_llm_counts w0 s w _ _ _ Hc) as Hn.
      rewrite Hf in Hn. cbn [default] in Hn.
      destruct (node_call_llm s w) as [[s' | cls] w'] eqn:Er;
        cbn [fst snd] in Hn.
      * exists true. split; [| cbn; lia]. split; [| exact Hn].
        cbn [after_escalation].
        exact (LoopFacts.call_llm_records_tier _ _ _ _ _ _ _ _ _ _ _ _ _ _
                 Hf Er).
      * right. exact Hn.
    + destruct Hinv as [Hf Hc].
      pose proof (call_llm_counts w0 s w _ _ _ Hc) as Hn.
      rewrite (Hf eq_refl) in Hn.
      destruct (node_call_llm s w) as [[s' | cls] w'] eqn:Er;
        cbn [fst snd] in Hn.
      * exists false. split; [| cbn; lia].
        split; [discriminate | exact Hn].
      * left. exact Hn.
  - (* extract_claims *)
    apply Hkeep; try reflexivity; [| destruct e; cbn; lia].
    intros ->. exact (proj1 Hinv).
  - (* check_memory *)
    destruct (String.eqb _ "has_new_claims");
      (apply Hkeep; try reflexivity; [| destruct e; cbn; lia]);
      intros ->; exact (proj1 Hinv).
  - (* retrieve_evidence *)
    unfold _retrieve_evidence.
    pose proof (LoopFacts.retrieve_loop_router retrieve
                  (default ∅ (cached_claims s)) (default [] (claims s)) ∅ w)
      as Hr.
    destruct (retrieve_loop _ _ _ _ w) as [[m | cls] w']; cbn [snd] in Hr.
    + apply Hkeep; try reflexivity; [exact Hr | | destruct e; cbn; lia].
      intros ->. exact (proj1 Hinv).
    + now apply Hend.
  - (* verify_claims *)
    unfold _verify_claims.
    pose proof (LoopFacts.verify_loop_router verify
                  (default ∅ (evidence_map s)) (default [] (claims s)) ∅ w)
      as Hr.
    destruct (verify_loop _ _ _ _ w) as [[m | cls] w']; cbn [snd] in Hr.
    + apply Hkeep; try reflexivity; [exact Hr | | destruct e; cbn; lia].
      intros ->. exact (proj1 Hinv).
    + now apply Hend.
  - (* check_escalation *)
    unfold counting_invariant in Hinv. cbn [node_eqb] in Hinv.
    destruct e.
    + destruct Hinv as [Ht Hc]. cbn [after_escalation] in Ht.
      rewrite (LoopFacts.check_escalation_capped s w Ht).
      cbn. exists true. split; [| lia]. split; [exact I | exact Hc].
    + destruct Hinv as [_ Hc].
      pose proof (check_escalation_counts s w) as Ho.
      destruct (_check_escalation s w) as [[s' | cls] w'].
      * unfold _route_by_escalation.
        destruct Ho as [[Hs ->] | (Hs & Hf & Hw)]; rewrite Hs; cbn.
        -- exists false. split; [| lia].
           split; [discriminate | exact Hc].
        -- exists true. split; [| lia]. split; [exact Hf |].
           exact (counted_then _ _ _ _ _ _ Hc Hw).
      * subst w'. left. exact Hc.
  - (* apply_policy *)
    apply Hkeep; try reflexivity; try (destruct e; cbn; lia);
      try (intros _; exact I).
  - (* assemble_answer *)
    apply Hkeep; try reflexivity; try (destruct e; cbn; lia);
      try (intros _; exact I).
  - (* update_memory *)
    apply Hend; [reflexivity | apply update_memory_router].
Qed.

Lemma counted_start (w : world) : counted w w 0 0 0.
Proof. unfold counted. repeat split; lia. Qed.

Lemma request_counted (query : string) (user_id : option string)
    (w : world) :
  one_request_counted w (request query user_id w).2.
Proof.
  unfold request, verify_query, ainvoke.
  destruct langgraph_available.
  - fold graph_run.
    pose proof (ranked_run (counting_invariant w) (fun _ => one_request_counted w)
                  (one_request_counted w) (counting_step w) 25 false call_llm
                  (HalluShieldState.initial query user_id) w) as Hrun.
    destruct (graph_run 25 call_llm _ w) as [[[s' | cls] w'] trace];
      cbn [snd]; apply Hrun; try (cbn; lia);
      (split; [reflexivity | apply counted_start]).
  - fold sequential_run. unfold sequential_run, verify_sequential.
    fold node_call_llm.
    pose proof (call_llm_counts w (HalluShieldState.initial query user_id)
                  w 0 0 0 (counted_start w)) as Hc.
    cbn [default force_llm_tier HalluShieldState.initial] in Hc.
    destruct (node_call_llm _ w) as [[s1 | cls] w1]; cbn [fst snd] in Hc;
      [| left; exact Hc].
    destruct (String.eqb _ "has_new_claims").
    + unfold _retrieve_evidence.
      pose proof (LoopFacts.retrieve_loop_router retrieve
                    (default ∅ (cached_claims (_check_memory
                                                (_extract_claims extract s1) w1)))
                    (default [] (claims (_check_memory
                                           (_extract_claims extract s1) w1)))
                    ∅ w1) as Hr.
      destruct (retrieve_loop _ _ _ _ w1) as [[m | cls] w2];
        cbn [snd] in Hr;
        [| left; exact (counted_same_router _ _ _ _ _ _ Hr Hc)].
      unfold _verify_claims.
      match goal with
      | |- context [verify_loop verify ?em ?cs ∅ w2] =>
          pose proof (LoopFacts.verify_loop_router verify em cs ∅ w2) as Hv;
          destruct (verify_loop verify em cs ∅ w2) as [[vr | cls] w3]
      end; cbn [snd] in Hv; left.
      * cbn [snd]. apply (counted_same_router _ w1); [| exact Hc].
        rewrite update_memory_router. congruence.
      * cbn [snd]. apply (counted_same_router _ w1); [congruence | exact Hc].
    + cbn [snd]. left. apply (counted_same_router _ w1); [| exact Hc].
      apply update_memory_router.
Qed.

(** X18. Every request, answered or not, is counted as one slm call, and
    as one llm call for the escalation it counts, of which there is at most
    one: the count of llm calls grows as the count of escalations does. *)
Theorem request_counts_its_calls :
  forall (query : string) (user_id : option string) (w : world),
    let w' := (request query user_id w).2 in
    slm_calls_of w' = (slm_calls_of w + 1)%Z
    /\ ((llm_calls_of w' = llm_calls_of w
         /\ escalations_of w' = escalations_of w)
        \/ (llm_calls_of w' = (llm_calls_of w + 1)%Z
            /\ escalations_of w' = (escalations_of w + 1)%Z)).
Proof.
  intros query user_id w.
  pose proof (request_counted query user_id w) as H.
  cbv zeta. unfold one_request_counted, counted in H.
  destruct H as [(A & B & C) | (A & B & C)];
    (split; [lia |]); [left | right]; split; lia.
Qed.

Lemma serve_counts (queries : list (string * option string)) :
  forall w : world,
    let w' :=
      serve llm_model HALLUSHIELD_SLM_MODEL GROQ_API_KEY HF_TOKEN
        GEMINI_API_KEY ANTHROPIC_API_KEY groq_create hf_create
        gemini_generate claude_create extract retrieve verify
        langgraph_available queries w in
    slm_calls_of w' = (slm_calls_of w + len queries)%Z
    /\ (llm_calls_of w' - llm_calls_of w
        = escalations_of w' - escalations_of w)%Z
    /\ (0 <= escalations_of w' - escalations_of w <= len queries)%Z.
Proof.
  induction queries as [| [query user_id] rest IH]; intros w.
  - cbn [serve]. unfold len. cbn [length]. lia.
  - cbn [serve]. fold request.
    pose proof (request_counted query user_id w) as Hq.
    unfold one_request_counted, counted in Hq.
    specialize (IH (request query user_id w).2).
    cbv zeta in IH. cbv zeta.
    set (w1 := (request query user_id w).2) in *.
    unfold len in *. cbn [length].
    destruct Hq as [(A & B & C) | (A & B & C)]; lia.
Qed.

End Counting.

Lemma escalation_rate_bounds (esc slm : Z) :
  (0 <= esc <= slm)%Z ->
  0 <= inject_Z esc / inject_Z (Z.max slm 1) <= 1.
Proof.
  intros H.
  assert (Hpos : 0 < inject_Z (Z.max slm 1))
    by (change 0 with (inject_Z 0); rewrite <- Zlt_Qlt; lia).
  split.
  - apply Qle_shift_div_l; [exact Hpos |]. rewrite Qmult_0_l.
    change 0 with (inject_Z 0). rewrite <- Zle_Qle. lia.
  - apply Qle_shift_div_r; [exact Hpos |]. rewrite Qmult_1_l.
    rewrite <- Zle_Qle. lia.
Qed.

(** X19. The report of a pipeline that started fresh and has served any
    sequence of requests, answered or not: the slm calls are as many as the
    requests, the llm calls are as many as the escalations, which are at
    most as many as the requests, and the escalation rate lies between 0
    and 1. *)
Theorem report_after_requests :
  forall (llm_model HALLUSHIELD_SLM_MODEL GROQ_API_KEY HF_TOKEN
            GEMINI_API_KEY ANTHROPIC_API_KEY : option string)
         groq_create hf_create gemini_generate claude_create extract retrieve
         verify (langgraph_available : bool)
         (queries : list (string * option string)),
    let report :=
      RouterStats.get_stats
        (model_router
           (serve llm_model HALLUSHIELD_SLM_MODEL GROQ_API_KEY HF_TOKEN
              GEMINI_API_KEY ANTHROPIC_API_KEY groq_create hf_create
              gemini_generate claude_create extract retrieve verify
              langgraph_available queries Samples.fresh_world)) in
    RouterStats.slm_calls report = len queries
    /\ RouterStats.llm_calls report = RouterStats.escalations report
    /\ (0 <= RouterStats.escalations report <= len queries)%Z
    /\ RouterStats.total_calls report
       = (len queries + RouterStats.escalations report)%Z
    /\ 0 <= RouterStats.escalation_rate report <= 1.
Proof.
  intros. subst report.
  pose proof (serve_counts llm_model HALLUSHIELD_SLM_MODEL GROQ_API_KEY
                HF_TOKEN GEMINI_API_KEY ANTHROPIC_API_KEY groq_create
                hf_create gemini_generate claude_create extract retrieve
                verify langgraph_available queries Samples.fresh_world)
    as (Hs & Hl & He).
  set (w := serve _ _ _ _ _ _ _ _ _ _ _ _ _ _ queries Samples.fresh_world)
    in *.
  unfold slm_calls_of, llm_calls_of, escalations_of in Hs, Hl, He.
  cbn [model_router Samples.fresh_world ModelRouter.new ModelRouter.stats
       ModelRouter.slm_calls ModelRouter.llm_calls ModelRouter.escalations]
    in Hs, Hl, He.
  unfold RouterStats.get_stats.
  cbn [RouterStats.slm_calls RouterStats.llm_calls RouterStats.escalations
       RouterStats.total_calls RouterStats.escalation_rate].
  split; [lia |]. split; [lia |]. split; [lia |]. split; [lia |].
  apply escalation_rate_bounds. lia.
Qed.

End CountingLaws.

(** ** The store and the requests *)

Module StoreLaws.

Import Py HalluShieldState HalluShieldPipeline RunSpec.


Section Requests.

Variable llm_model : option string.
Variable HALLUSHIELD_SLM_MODEL : option string.
Variable GROQ_API_KEY : option string.
Variable HF_TOKEN : option string.
Variable GEMINI_API_KEY : option string.
Variable ANTHROPIC_API_KEY : option string.
Variable groq_create
  : nat -> string -> string -> result ModelRouter.groq_completion.
Variable hf_create : nat -> string -> result ModelRouter.hf_completion.
Variable gemini_generate : nat -> string -> string -> result string.
Variable claude_create : nat -> string -> result ModelRouter.claude_message.
Variable extract : string -> list Claim.t.
Variable retrieve : nat -> string -> result (list Evidence.t).
Variable verify
  : nat -> string -> string -> list Evidence.t -> result VerificationResult.t.
Variable langgraph_available : bool.

Let request :=
  verify_query llm_model HALLUSHIELD_SLM_MODEL GROQ_API_KEY HF_TOKEN
    GEMINI_API_KEY ANTHROPIC_API_KEY groq_create hf_create gemini_generate
    claude_create extract retrieve verify langgraph_available.



End Requests.

End StoreLaws.

(** ** The stages of a request *)

Module StageLaws.

Import Py HalluShieldState HalluShieldPipeline RunSpec AssemblySpec.
Import VerifierFacts.

(** The loop of [_check_memory]. *)
Lemma check_memory_size (m : MemoryStore.t) (cs : list Claim.t) :
  forall acc : gmap string MemoryStore.payload,
    let cached :=
      fold_left
        (fun cached claim =>
           match MemoryStore.check_claim m (Claim.text claim) with
           | Some cached_result => <[Claim.id claim := cached_result]> cached
           | None => cached
           end) cs acc in
    (size cached <= size acc + length cs)%nat
    /\ (size cached = size acc + length cs ->
        (forall c, In c cs ->
                   MemoryStore.check_claim m (Claim.text c) <> None)
        /\ (forall c, In c cs -> acc !! Claim.id c = None)
        /\ List.NoDup (map Claim.id cs))%nat
    /\ (forall k, acc !! k <> None -> cached !! k <> None)
    /\ (forall c, In c cs ->
                  MemoryStore.check_claim m (Claim.text c) <> None ->
                  cached !! Claim.id c <> None).
Proof.
  induction cs as [| c rest IH]; intros acc; cbn [fold_left length].
  - cbv zeta. split; [lia |]. split; [| split; [tauto |]].
    + intros _. split; [intros c [] |]. split; [intros c [] | constructor].
    + intros c [].
  - cbv zeta.
    destruct (MemoryStore.check_claim m (Claim.text c)) as [r |] eqn:Er.
    + specialize (IH (<[Claim.id c := r]> acc)). cbv zeta in IH.
      destruct IH as (Hle & Heq & Hkeep & Hhit).
      pose proof (map_size_insert (Claim.id c) r acc) as Hsz.
      destruct (acc !! Claim.id c) as [old |] eqn:Eo; cbn [id] in Hsz.
      * split; [lia |]. split; [intros Hx; lia |].
        split.
        -- intros k Hk. apply Hkeep.
           destruct (String.eqb_spec (Claim.id c) k) as [-> | Hne];
             [now rewrite lookup_insert_eq | now rewrite lookup_insert_ne].
        -- intros c' [<- | Hc'] Hck; [| now apply Hhit].
           apply Hkeep. now rewrite lookup_insert_eq.
      * split; [lia |]. split.
        -- intros Hx. destruct Heq as (H1 & H2 & H3); [lia |].
           split; [| split].
           ++ intros c' [<- | Hc']; [congruence | now apply H1].
           ++ intros c' [<- | Hc']; [exact Eo |].
              specialize (H2 c' Hc').
              destruct (String.eqb_spec (Claim.id c) (Claim.id c'))
                as [E | Hne];
                [rewrite E, lookup_insert_eq in H2; discriminate |].
              now rewrite lookup_insert_ne in H2.
           ++ cbn [map]. constructor; [| exact H3].
              intros Hin. apply in_map_iff in Hin as (c' & E & Hc').
              specialize (H2 c' Hc'). rewrite E, lookup_insert_eq in H2.
              discriminate.
        -- split.
           ++ intros k Hk. apply Hkeep.
              destruct (String.eqb_spec (Claim.id c) k) as [-> | Hne];
                [now rewrite lookup_insert_eq | now rewrite lookup_insert_ne].
           ++ intros c' [<- | Hc'] Hck; [| now apply Hhit].
              apply Hkeep. now rewrite lookup_insert_eq.
    + specialize (IH acc). cbv zeta in IH.
      destruct IH as (Hle & Heq & Hkeep & Hhit).
      split; [lia |]. split; [intros Hx; lia |].
      split; [exact Hkeep |].
      intros c' [<- | Hc'] Hck; [congruence | now apply Hhit].
Qed.

(** X23. The shortcut past retrieval and scoring is sound: when, after the
    cache lookup, the route is "all_cached", every claim of the state is a
    cache hit (and no two claims share an id); no claim that still needs
    evidence skips retrieval. *)
Theorem all_cached_means_every_claim_hit :
  forall (state : HalluShieldState.t) (w : world),
    _route_by_cache (_check_memory state w) = "all_cached" ->
    (forall c,
       In c (claims_of state) ->
       stored w (Claim.text c) <> None
       /\ cached_of (_check_memory state w) !! Claim.id c <> None)
    /\ List.NoDup (map Claim.id (claims_of state)).
Proof.
  intros state w. unfold _route_by_cache.
  destruct (_ =? _)%Z eqn:E; [| discriminate]. intros _.
  apply Z.eqb_eq in E. unfold len in E. apply Nat2Z.inj in E.
  unfold _check_memory in *.
  cbn [cached_claims update_cached_claims claims default] in E.
  change (id (fold_left ?f ?l ?a)) with (fold_left f l a) in E.
  unfold cached_of. cbn [cached_claims update_cached_claims default].
  fold (claims_of state) in *.
  destruct (check_memory_size (memory_store w) (claims_of state) ∅)
    as (_ & Heq & _ & Hhit).
  rewrite map_size_empty in Heq. destruct (Heq E) as (H1 & _ & H3).
  split; [| exact H3].
  intros c Hc. split; [now apply H1 |]. apply Hhit; [exact Hc | now apply H1].
Qed.

Lemma count_action_partition (ds : list Decision.t) :
  Forall (fun d => In (Decision.action d)
                     ["ACCEPT"; "CORRECT"; "ABSTAIN"; "FLAG_FOR_HUMAN"]) ds ->
  (count_action "ACCEPT" ds + count_action "CORRECT" ds
   + count_action "ABSTAIN" ds + count_action "FLAG_FOR_HUMAN" ds
   = length ds)%nat.
Proof.
  unfold count_action. induction 1 as [| d ds Hd Hds IH]; [reflexivity |].
  cbn [List.filter length].
  destruct Hd as [E | [E | [E | [E | []]]]]; rewrite <- E; cbn [String.eqb];
    cbn; lia.
Qed.

(** X24. The breakdown of the final answer counts every decision once: for
    decisions whose actions are among the four of the policy, the counts of
    verified, corrected, abstained and flagged claims add up to the total,
    and the hallucination score lies between 0 and 1. *)
Theorem claim_breakdown_adds_up :
  forall (state : HalluShieldState.t),
    Forall (fun d => In (Decision.action d)
                       ["ACCEPT"; "CORRECT"; "ABSTAIN"; "FLAG_FOR_HUMAN"])
      (decisions_of state) ->
    exists answer,
      final_answer (_assemble_answer state) = Some answer
      /\ total_claims (claim_breakdown answer) = len (decisions_of state)
      /\ (verified (claim_breakdown answer)
          + corrected (claim_breakdown answer)
          + abstained (claim_breakdown answer)
          + flagged (claim_breakdown answer)
          = total_claims (claim_breakdown answer))%Z
      /\ 0 <= HalluShieldState.hallucination_score answer <= 1.
Proof.
  intros state Hds. unfold _assemble_answer. fold (decisions_of state).
  destruct (fold_left assemble_step (decisions_of state) _) as [answer ms].
  eexists. split; [reflexivity |].
  cbn [claim_breakdown total_claims verified corrected abstained flagged
       HalluShieldState.hallucination_score].
  pose proof (count_action_partition _ Hds) as Hsum.
  unfold count_action in Hsum.
  split; [reflexivity |]. split.
  - rewrite !count_if_filter. unfold len. lia.
  - rewrite AssemblyFacts.problematic_count. unfold count_action, len.
    destruct (Z.of_nat (length (decisions_of state)) =? 0)%Z eqn:E;
      [split; lra |].
    apply Z.eqb_neq in E.
    assert (Hpos : 0 < inject_Z (Z.of_nat (length (decisions_of state))))
      by (change 0 with (inject_Z 0); rewrite <- Zlt_Qlt; lia).
    split.
    + apply Qle_shift_div_l; [exact Hpos |]. rewrite Qmult_0_l.
      change 0 with (inject_Z 0). rewrite <- Zle_Qle. lia.
    + apply Qle_shift_div_r; [exact Hpos |]. rewrite Qmult_1_l.
      rewrite <- Zle_Qle. lia.
Qed.

End StageLaws.

(** ** What a request returns *)

Module RequestLaws.

Import Py HalluShieldState HalluShieldPipeline RunSpec Answered.

Section Requests.

Variable llm_model : option string.
Variable HALLUSHIELD_SLM_MODEL : option string.
Variable GROQ_API_KEY : option string.
Variable HF_TOKEN : option string.
Variable GEMINI_API_KEY : option string.
Variable ANTHROPIC_API_KEY : option string.
Variable groq_create
  : nat -> string -> string -> result ModelRouter.groq_completion.
Variable hf_create : nat -> string -> result ModelRouter.hf_completion.
Variable gemini_generate : nat -> string -> string -> result string.
Variable claude_create : nat -> string -> result ModelRouter.claude_message.
Variable extract : string -> list Claim.t.
Variable retrieve : nat -> string -> result (list Evidence.t).
Variable verify
  : nat -> string -> string -> list Evidence.t -> result VerificationResult.t.
Variable langgraph_available : bool.

Let node_call_llm :=
  _call_llm llm_model HALLUSHIELD_SLM_MODEL GROQ_API_KEY HF_TOKEN
    GEMINI_API_KEY ANTHROPIC_API_KEY groq_create hf_create gemini_generate
    claude_create.

Let node_run :=
  run_node llm_model HALLUSHIELD_SLM_MODEL GROQ_API_KEY HF_TOKEN
    GEMINI_API_KEY ANTHROPIC_API_KEY groq_create hf_create gemini_generate
    claude_create extract retrieve verify.

Let graph_run :=
  run_from llm_model HALLUSHIELD_SLM_MODEL GROQ_API_KEY HF_TOKEN
    GEMINI_API_KEY ANTHROPIC_API_KEY groq_create hf_create gemini_generate
    claude_create extract retrieve verify.

Let sequential_run :=
  verify_sequential llm_model HALLUSHIELD_SLM_MODEL GROQ_API_KEY HF_TOKEN
    GEMINI_API_KEY ANTHROPIC_API_KEY groq_create hf_create gemini_generate
    claude_create extract retrieve verify.

Let request :=
  verify_query llm_model HALLUSHIELD_SLM_MODEL GROQ_API_KEY HF_TOKEN
    GEMINI_API_KEY ANTHROPIC_API_KEY groq_create hf_create gemini_generate
    claude_create extract retrieve verify langgraph_available.

(** The updates of the nodes that may raise. *)
Lemma call_llm_update (s s' : HalluShieldState.t) (w : world) :
  (node_call_llm s w).1 = Ok s' ->
  exists text metadata, s' = update_call_llm s text metadata.
Proof.
  unfold node_call_llm, _call_llm.
  destruct (if default false (force_llm_tier s) then _ else _)
    as [[response | cls] router]; cbn [fst]; [| discriminate].
  intros [= <-]. eauto.
Qed.

Lemma retrieve_evidence_update (s s' : HalluShieldState.t) (w : world) :
  (_retrieve_evidence retrieve s w).1 = Ok s' ->
  exists evidence_map, s' = update_evidence_map s evidence_map.
Proof.
  unfold _retrieve_evidence.
  destruct (retrieve_loop _ _ _ _ w) as [[m | cls] w']; cbn [fst];
    [| discriminate].
  intros [= <-]. eauto.
Qed.

Lemma verify_claims_update (s s' : HalluShieldState.t) (w : world) :
  (_verify_claims verify s w).1 = Ok s' ->
  exists results, s' = update_verification_results s results.
Proof.
  unfold _verify_claims.
  destruct (verify_loop _ _ _ _ w) as [[m | cls] w']; cbn [fst];
    [| discriminate].
  intros [= <-]. eauto.
Qed.

Lemma check_escalation_update (s s' : HalluShieldState.t) (w : world) :
  (_check_escalation s w).1 = Ok s' ->
  (exists reason, s' = update_not_escalating s false reason)
  \/ (exists e reason h c, s' = update_escalation s e reason h c e).
Proof.
  unfold _check_escalation.
  destruct (is_jstr _ "llm"); [intros [= <-]; left; eauto |].
  destruct (if (Z.of_nat (size (default ∅ (verification_results s))) =? 0)%Z
            then _ else _) as [h c].
  destruct (bind (as_str _) _) as [slm_response | cls]; [| discriminate].
  destruct (ModelRouter.should_escalate slm_response h c) as [e reason].
  intros [= <-]. right. eauto 6.
Qed.

Lemma assemble_keeps (s : HalluShieldState.t) :
  HalluShieldState.query (_assemble_answer s) = HalluShieldState.query s
  /\ HalluShieldState.user_id (_assemble_answer s)
     = HalluShieldState.user_id s
  /\ errors (_assemble_answer s) = errors s
  /\ raw_llm_response (_assemble_answer s) = raw_llm_response s
  /\ claims (_assemble_answer s) = claims s
  /\ cached_claims (_assemble_answer s) = cached_claims s
  /\ evidence_map (_assemble_answer s) = evidence_map s
  /\ verification_results (_assemble_answer s) = verification_results s
  /\ decisions (_assemble_answer s) = decisions s.
Proof.
  unfold _assemble_answer. destruct (fold_left assemble_step _ _).
  repeat split.
Qed.

Lemma assemble_reads (s1 s2 : HalluShieldState.t) :
  decisions s1 = decisions s2 ->
  raw_llm_response s1 = raw_llm_response s2 ->
  final_answer (_assemble_answer s1) = final_answer (_assemble_answer s2).
Proof.
  intros Hd Hr. unfold _assemble_answer. rewrite Hd, Hr.
  destruct (fold_left assemble_step _ _). reflexivity.
Qed.

Lemma apply_policy_reads (s1 s2 : HalluShieldState.t) :
  claims s1 = claims s2 ->
  cached_claims s1 = cached_claims s2 ->
  evidence_map s1 = evidence_map s2 ->
  verification_results s1 = verification_results s2 ->
  decisions (_apply_policy s1) = decisions (_apply_policy s2).
Proof.
  intros Hc Hk He Hv. unfold _apply_policy.
  cbn [decisions update_decisions]. now rewrite Hc, Hk, He, Hv.
Qed.

Lemma assembly_complete (query : string) (user_id : option string)
    (s : HalluShieldState.t) :
  progress query user_id assemble_answer s ->
  complete query user_id (_assemble_answer s).
Proof.
  intros (Hq & Hu & He & Hr & Hc & Hk & Hd).
  destruct (assemble_keeps s)
    as (A1 & A2 & A3 & A4 & A5 & A6 & A7 & A8 & A9).
  unfold complete. rewrite A1, A2, A3, A4, A5, A6, A9.
  repeat split; try assumption.
  - rewrite Hd. symmetry. now apply apply_policy_reads.
  - symmetry. now apply assemble_reads.
Qed.

Lemma policy_progress (query : string) (user_id : option string)
    (s : HalluShieldState.t) :
  progress query user_id apply_policy s ->
  progress query user_id assemble_answer (_apply_policy s).
Proof.
  intros (Hq & Hu & He & Hr & Hc & Hk). repeat split; assumption.
Qed.

Lemma policy_claim_ids (s : HalluShieldState.t) :
  map Decision.claim_id (decisions_of (_apply_policy s))
  = map Claim.id (claims_of s).
Proof.
  unfold decisions_of, claims_of, _apply_policy.
  cbn [decisions update_decisions default id]. rewrite map_map.
  apply map_ext. intros c. now destruct (_ !! _).
Qed.

Lemma policy_claim_texts (s : HalluShieldState.t) :
  map Decision.original_claim (decisions_of (_apply_policy s))
  = map Claim.text (claims_of s).
Proof.
  unfold decisions_of, claims_of, _apply_policy.
  cbn [decisions update_decisions default id]. rewrite map_map.
  apply map_ext. intros c. now destruct (_ !! _).
Qed.

Lemma progress_step (query : string) (user_id : option string) (n : node)
    (s : HalluShieldState.t) (w : world) :
  progress query user_id n s ->
  match node_run n s w with
  | (Raise _, _) => True
  | (Ok s', _) =>
      match next_node n s' with
      | Some n' => progress query user_id n' s'
      | None => complete query user_id s'
      end
  end.
Proof.
  intros (Hq & Hu & He & Hn).
  destruct n; cbn [node_run run_node next_node].
  - fold node_call_llm. pose proof (fun s' => call_llm_update s s' w) as Hup.
    destruct (node_call_llm s w) as [[s' | cls] w']; [| exact I].
    destruct (Hup s' eq_refl) as (text & md & ->).
    repeat split; try assumption. discriminate.
  - repeat split; try assumption; discriminate.
  - destruct Hn as [Hr Hc].
    destruct (String.eqb _ "has_new_claims");
      repeat split; try assumption; discriminate.
  - pose proof (fun s' => retrieve_evidence_update s s' w) as Hup.
    destruct (_retrieve_evidence retrieve s w) as [[s' | cls] w'];
      [| exact I].
    destruct (Hup s' eq_refl) as (em & ->).
    destruct Hn as (Hr & Hc & Hk). repeat split; assumption.
  - pose proof (fun s' => verify_claims_update s s' w) as Hup.
    destruct (_verify_claims verify s w) as [[s' | cls] w']; [| exact I].
    destruct (Hup s' eq_refl) as (vr & ->).
    destruct Hn as (Hr & Hc & Hk). repeat split; assumption.
  - pose proof (fun s' => check_escalation_update s s' w) as Hup.
    destruct (_check_escalation s w) as [[s' | cls] w']; [| exact I].
    destruct Hn as (Hr & Hc & Hk).
    destruct (Hup s' eq_refl) as [(reason & ->) | (e & reason & h & c & ->)];
      destruct (String.eqb _ "escalate_to_llm");
      repeat split; assumption.
  - apply policy_progress. repeat split; try assumption; apply Hn.
  - assert (Hc : complete query user_id (_assemble_answer s))
      by (apply assembly_complete; repeat split; try assumption; apply Hn).
    split; [apply Hc | split; [apply Hc | split; [apply Hc | exact Hc]]].
  - exact Hn.
Qed.

(** X25. An answered request returns a complete state: the query and the
    user as given, no error recorded, the generated text, the claims and
    the cache hits, one decision for each claim, in the order of the
    claims and with the id and the text of its claim, and the final answer
    assembled from these decisions, whose total is the number of claims. *)
Theorem answered_request_is_complete :
  forall (query : string) (user_id : option string) (w : world)
         (state : HalluShieldState.t) (w' : world),
    request query user_id w = (Ok state, w') ->
    complete query user_id state
    /\ map Decision.claim_id (decisions_of state)
       = map Claim.id (claims_of state)
    /\ map Decision.original_claim (decisions_of state)
       = map Claim.text (claims_of state)
    /\ exists answer,
         final_answer state = Some answer
         /\ original_answer answer = default "" (raw_llm_response state)
         /\ total_claims (claim_breakdown answer) = len (claims_of state).
Proof.
  intros query user_id w state w' Hrun.
  assert (Hstart : progress query user_id call_llm
                     (HalluShieldState.initial query user_id))
    by (repeat split).
  assert (Hc : complete query user_id state).
  { unfold request, verify_query, ainvoke in Hrun.
    destruct langgraph_available.
    - fold graph_run in Hrun.
      pose proof (RunFacts.run_invariant llm_model HALLUSHIELD_SLM_MODEL
                    GROQ_API_KEY HF_TOKEN GEMINI_API_KEY ANTHROPIC_API_KEY
                    groq_create hf_create gemini_generate claude_create
                    extract retrieve verify
                    (fun n s _ => progress query user_id n s)
                    (fun s _ => complete query user_id s) (fun _ => True)
                    (fun _ _ _ _ => I)) as Hinv.
      specialize (Hinv (fun n s w0 H => progress_step query user_id n s w0 H)
                    25%nat call_llm (HalluShieldState.initial query user_id)
                    w Hstart).
      fold graph_run in Hinv.
      destruct (graph_run 25 call_llm _ w) as [[[s' | cls] w1] trace];
        [| discriminate].
      injection Hrun as <- <-. exact Hinv.
    - fold sequential_run in Hrun.
      unfold sequential_run, verify_sequential in Hrun.
      pose proof (progress_step query user_id call_llm _ w Hstart) as H1.
      cbn [node_run run_node next_node] in H1.
      destruct (_call_llm _ _ _ _ _ _ _ _ _ _ _ w) as [[s1 | cls] w1];
        [| discriminate].
      pose proof (progress_step query user_id extract_claims s1 w1 H1) as H2.
      cbn [node_run run_node next_node] in H2.
      pose proof (progress_step query user_id check_memory _ w1 H2) as H3.
      cbn [node_run run_node next_node] in H3.
      destruct (String.eqb _ "has_new_claims").
      + pose proof (progress_step query user_id retrieve_evidence _ w1 H3)
          as H4.
        cbn [node_run run_node next_node] in H4.
        destruct (_retrieve_evidence retrieve _ w1) as [[s2 | cls] w2];
          [| discriminate].
        pose proof (progress_step query user_id verify_claims s2 w2 H4) as H5.
        cbn [node_run run_node next_node] in H5.
        destruct (_verify_claims verify s2 w2) as [[s3 | cls] w3];
          [| discriminate].
        injection Hrun as <- <-.
        apply assembly_complete, policy_progress.
        destruct H5 as (A & B & C & D). repeat split; try assumption;
          apply D.
      + injection Hrun as <- <-.
        apply assembly_complete, policy_progress.
        destruct H3 as (A & B & C & D). repeat split; try assumption;
          apply D. }
  split; [exact Hc |].
  destruct Hc as (Hq & Hu & He & Hr & Hcl & Hk & Hd & Hf).
  unfold decisions_of. rewrite Hd. fold (decisions_of (_apply_policy state)).
  split; [apply policy_claim_ids | split; [apply policy_claim_texts |]].
  rewrite Hf. unfold _assemble_answer.
  destruct (fold_left assemble_step _ _) as [answer ms].
  eexists. split; [reflexivity |]. split; [reflexivity |].
  cbn [claim_breakdown total_claims]. rewrite Hd.
  fold (decisions_of (_apply_policy state)).
  unfold len. rewrite <- (length_map Decision.claim_id), policy_claim_ids.
  now rewrite length_map.
Qed.

End Requests.

End RequestLaws.

(** ** The claim extractor *)

Module ExtractorLaws.

Import Py ClaimExtractor ExtractorSpec.

(** *** Stripping *)

Lemma rstrip_eq (c : ascii) (s : string) :
  rstrip (String c s)
  = match rstrip s with
    | EmptyString => if is_space c then EmptyString else String c EmptyString
    | r => String c r
    end.
Proof. reflexivity. Qed.

Lemma lstrip_head (x : string) :
  lstrip x = "" \/ exists c r, lstrip x = String c r /\ is_space c = false.
Proof.
  induction x as [| c x IH]; [now left |]. cbn [lstrip].
  destruct (is_space c) eqn:E; [exact IH |]. right. eauto.
Qed.

Lemma rstrip_cons (c : ascii) (r : string) :
  is_space c = false -> exists r', rstrip (String c r) = String c r'.
Proof.
  intros E. rewrite rstrip_eq. destruct (rstrip r); rewrite ?E; eauto.
Qed.

Lemma strip_head (x : string) :
  strip x = "" \/ exists c r, strip x = String c r /\ is_space c = false.
Proof.
  unfold strip. destruct (lstrip_head x) as [-> | (c & r & -> & E)];
    [now left |].
  right. destruct (rstrip_cons c r E) as [r' ->]. eauto.
Qed.

Lemma rstrip_idem (u : string) : rstrip (rstrip u) = rstrip u.
Proof.
  induction u as [| c u IH]; [reflexivity |]. rewrite rstrip_eq.
  destruct (rstrip u) as [| d r] eqn:E.
  - destruct (is_space c) eqn:Ec; [reflexivity |].
    rewrite rstrip_eq. cbn [rstrip]. now rewrite Ec.
  - rewrite rstrip_eq, IH. reflexivity.
Qed.

Lemma strip_rstrip (x : string) : rstrip (strip x) = strip x.
Proof. apply rstrip_idem. Qed.

Lemma visible_cons (c : ascii) (s : string) :
  visible (String c s) = if is_space c then visible s else c :: visible s.
Proof.
  unfold visible. cbn [list_ascii_of_string List.filter].
  now destruct (is_space c).
Qed.

Lemma visible_lstrip (x : string) : visible (lstrip x) = visible x.
Proof.
  induction x as [| c x IH]; [reflexivity |]. cbn [lstrip].
  rewrite visible_cons. destruct (is_space c) eqn:E; [exact IH |].
  now rewrite visible_cons, E.
Qed.

Lemma visible_rstrip (x : string) : visible (rstrip x) = visible x.
Proof.
  induction x as [| c x IH]; [reflexivity |]. rewrite rstrip_eq.
  rewrite (visible_cons c x), <- IH.
  destruct (rstrip x) as [| d r].
  - destruct (is_space c) eqn:E; [reflexivity |].
    now rewrite visible_cons, E.
  - now rewrite visible_cons.
Qed.

Lemma visible_strip (x : string) : visible (strip x) = visible x.
Proof. unfold strip. now rewrite visible_rstrip, visible_lstrip. Qed.

Lemma strip_blank (x : string) : strip x = "" -> visible x = [].
Proof. intros H. now rewrite <- visible_strip, H. Qed.

Lemma truthy_false (x : string) : truthy x = false -> x = "".
Proof. now destruct x. Qed.

(** A test that no space passes sees the visible characters only. *)
Lemma any_char_visible (p : ascii -> bool) (x : string) :
  (forall c, p c = true -> is_space c = false) ->
  any_char p x = existsb p (visible x).
Proof.
  intros Hp. induction x as [| c x IH]; [reflexivity |].
  cbn [any_char]. rewrite visible_cons, IH.
  destruct (is_space c) eqn:E; [| reflexivity].
  destruct (p c) eqn:Ep; [| reflexivity].
  apply Hp in Ep. congruence.
Qed.

Lemma digit_no_space (c : ascii) : is_digit c = true -> is_space c = false.
Proof.
  unfold is_digit, is_space. intros H.
  apply andb_true_iff in H as [H1 H2].
  apply Nat.leb_le in H1. apply Nat.leb_le in H2.
  apply orb_false_iff. split; apply andb_false_iff.
  - right. apply Nat.leb_gt. lia.
  - right. apply Nat.leb_gt. lia.
Qed.

Lemma upper_no_space (c : ascii) : is_upper c = true -> is_space c = false.
Proof.
  unfold is_upper, is_space. intros H.
  apply andb_true_iff in H as [H1 H2].
  apply Nat.leb_le in H1. apply Nat.leb_le in H2.
  apply orb_false_iff. split; apply andb_false_iff.
  - right. apply Nat.leb_gt. lia.
  - right. apply Nat.leb_gt. lia.
Qed.

(** *** Splitting *)

Lemma visible_of_list (l : list ascii) :
  visible (string_of_list_ascii l)
  = List.filter (fun c => negb (is_space c)) l.
Proof. unfold visible. now rewrite list_ascii_of_string_of_list_ascii. Qed.

(** The visible characters of the parts of a split are those of the part
    being read followed by those of the text still to read. *)
Lemma split_from_visible (s : string) :
  forall (cur : list ascii) (in_sep : bool),
    (in_sep = true -> cur = []) ->
    flat_map visible (split_from cur in_sep s)
    = (List.filter (fun c => negb (is_space c)) (rev cur) ++ visible s)%list.
Proof.
  induction s as [| c s IH]; intros cur in_sep Hsep.
  - cbn [split_from flat_map]. now rewrite visible_of_list.
  - cbn [split_from]. rewrite visible_cons.
    destruct (is_space c) eqn:E.
    + destruct in_sep.
      * rewrite (Hsep eq_refl). now rewrite IH.
      * destruct (after_stop cur).
        -- cbn [flat_map]. rewrite visible_of_list.
           now rewrite IH.
        -- rewrite IH by discriminate. cbn [rev].
           rewrite List.filter_app. cbn [List.filter]. rewrite E.
           cbn [negb]. now rewrite app_nil_r.
    + rewrite IH by discriminate. cbn [rev].
      rewrite List.filter_app. cbn [List.filter]. rewrite E. cbn [negb].
      now rewrite <- app_assoc.
Qed.

Lemma filter_blank_visible (parts : list string) :
  flat_map visible (List.filter (fun p => truthy (strip p)) parts)
  = flat_map visible parts.
Proof.
  induction parts as [| p parts IH]; [reflexivity |].
  cbn [List.filter flat_map]. destruct (truthy (strip p)) eqn:E.
  - cbn [flat_map]. now rewrite IH.
  - apply truthy_false, strip_blank in E. now rewrite E, IH.
Qed.

Lemma re_split_visible (s : string) :
  flat_map visible (re_split s) = visible s.
Proof.
  unfold re_split. now rewrite split_from_visible by discriminate.
Qed.

Lemma split_from_nonempty (s : string) :
  forall (cur : list ascii) (in_sep : bool), split_from cur in_sep s <> [].
Proof.
  induction s as [| c s IH]; intros cur in_sep; [discriminate |].
  cbn [split_from]. destruct (is_space c); [| apply IH].
  destruct in_sep; [apply IH |]. destruct (after_stop cur); [discriminate |].
  apply IH.
Qed.

Lemma removelast_cons {A : Type} (x : A) (l : list A) :
  l <> [] -> removelast (x :: l) = x :: removelast l.
Proof. now destruct l. Qed.

(** Every part of a split but the last ends where a sentence ends. *)
Lemma split_from_ends (s : string) :
  forall (cur : list ascii) (in_sep : bool),
    List.Forall (fun p => ends_sentence p = true)
      (removelast (split_from cur in_sep s)).
Proof.
  induction s as [| c s IH]; intros cur in_sep; [constructor |].
  cbn [split_from]. destruct (is_space c); [| apply IH].
  destruct in_sep; [apply IH |].
  destruct (after_stop cur) eqn:E; [| apply IH].
  rewrite removelast_cons by apply split_from_nonempty.
  constructor; [| apply IH].
  unfold ends_sentence, chars.
  now rewrite list_ascii_of_string_of_list_ascii, rev_involutive.
Qed.

Lemma removelast_filter {A : Type} (P : A -> Prop) (f : A -> bool)
    (l : list A) :
  List.Forall P (removelast l) -> List.Forall P (removelast (List.filter f l)).
Proof.
  induction l as [| x l IH]; [easy |].
  destruct l as [| y l].
  - intros _. cbn [List.filter]. destruct (f x); constructor.
  - rewrite removelast_cons by discriminate. intros H.
    inversion H as [| ? ? Hx Hl]; subst. specialize (IH Hl).
    change (List.filter f (x :: y :: l))
      with (if f x then x :: List.filter f (y :: l)
            else List.filter f (y :: l)).
    destruct (f x); [| exact IH].
    destruct (List.filter f (y :: l)) as [| z l'] eqn:E; [constructor |].
    rewrite removelast_cons by discriminate. now constructor.
Qed.

Lemma existsb_flat_map {A B : Type} (p : B -> bool) (f : A -> list B)
    (l : list A) :
  existsb p (flat_map f l) = existsb (fun a => existsb p (f a)) l.
Proof.
  induction l as [| a l IH]; [reflexivity |].
  cbn [flat_map existsb]. now rewrite existsb_app, IH.
Qed.

(** A test that no space passes, and that fails on every character of a
    text, fails on every character of every sentence of the text. *)
Lemma sentence_any_char (p : ascii -> bool) (text sent : string) :
  (forall c, p c = true -> is_space c = false) ->
  any_char p text = false ->
  In sent (_split_sentences text) ->
  any_char p (strip sent) = false.
Proof.
  intros Hp Hno Hin.
  rewrite (any_char_visible p _ Hp), visible_strip.
  rewrite (any_char_visible p _ Hp), <- visible_strip, <- re_split_visible,
    <- filter_blank_visible in Hno.
  fold (_split_sentences text) in Hno.
  rewrite existsb_flat_map in Hno.
  destruct (existsb p (visible sent)) eqn:E; [| reflexivity].
  assert (existsb (fun a => existsb p (visible a)) (_split_sentences text)
          = true) by (apply existsb_exists; eauto).
  congruence.
Qed.

(** *** Words *)

Lemma any_char_of_list (p : ascii -> bool) (l : list ascii) :
  any_char p (string_of_list_ascii l) = existsb p l.
Proof.
  induction l as [| c l IH]; [reflexivity |].
  cbn [string_of_list_ascii any_char existsb]. now rewrite IH.
Qed.

Lemma existsb_reversed {A : Type} (p : A -> bool) (l : list A) :
  existsb p (rev l) = existsb p l.
Proof.
  induction l as [| a l IH]; [reflexivity |].
  cbn [rev existsb]. rewrite existsb_app, IH. cbn [existsb].
  rewrite orb_false_r. apply orb_comm.
Qed.

Lemma runs_from_any_char (p q : ascii -> bool) (s : string) :
  forall (cur : list ascii) (w : string),
    In w (runs_from p cur s) ->
    any_char q w = true ->
    existsb q cur = true \/ any_char q s = true.
Proof.
  induction s as [| c s IH]; intros cur w Hin Hq.
  - cbn [runs_from] in Hin. destruct cur as [| d cur]; [contradiction |].
    destruct Hin as [<- | []]. left.
    now rewrite any_char_of_list, existsb_reversed in Hq.
  - cbn [runs_from] in Hin. cbn [any_char].
    destruct (p c).
    + destruct (IH _ _ Hin Hq) as [H | H].
      * cbn [existsb] in H. apply orb_true_iff in H as [H | H].
        -- right. now rewrite H.
        -- now left.
      * right. rewrite H. apply orb_true_r.
    + destruct cur as [| d cur].
      * destruct (IH _ _ Hin Hq) as [H | H]; [discriminate |].
        right. rewrite H. apply orb_true_r.
      * destruct Hin as [<- | Hin].
        -- left. now rewrite any_char_of_list, existsb_reversed in Hq.
        -- destruct (IH _ _ Hin Hq) as [H | H]; [discriminate |].
           right. rewrite H. apply orb_true_r.
Qed.

Lemma capitalized_upper (w : string) :
  capitalized w = true -> any_char is_upper w = true.
Proof.
  destruct w as [| c r]; [discriminate |]. cbn [capitalized any_char].
  intros H. apply andb_true_iff in H as [H _].
  apply andb_true_iff in H as [H _]. now rewrite H.
Qed.

Lemma no_upper_not_capitalized (s : string) :
  any_char is_upper s = false -> existsb capitalized (word_runs s) = false.
Proof.
  intros Hno. destruct (existsb capitalized (word_runs s)) eqn:E;
    [| reflexivity].
  apply existsb_exists in E as (w & Hin & Hcap).
  destruct (runs_from_any_char is_word is_upper s [] w Hin
              (capitalized_upper w Hcap)) as [H | H]; [discriminate |].
  congruence.
Qed.

(** *** Normalising *)

Lemma sub_spaces_chars (s : string) :
  forall (in_run : bool) (ch : ascii),
    In ch (chars (sub_spaces in_run s)) ->
    is_space ch = true -> ch = " "%char.
Proof.
  unfold chars.
  induction s as [| c s IH]; intros in_run ch Hin Hsp; [contradiction |].
  cbn [sub_spaces] in Hin. destruct (is_space c) eqn:E.
  - destruct in_run; [now apply (IH true) |].
    destruct Hin as [<- | Hin]; [reflexivity | now apply (IH true)].
  - destruct Hin as [<- | Hin]; [congruence | now apply (IH false)].
Qed.

Lemma contains_cons (needle : string) (c : ascii) (hay : string) :
  contains needle (String c hay)
  = String.prefix needle (String c hay) || contains needle hay.
Proof. reflexivity. Qed.

Lemma prefix_blank_cons (c : ascii) (s : string) (needle : string) :
  String.prefix (String " " needle) (String c s)
  = Ascii.eqb c " " && String.prefix needle s.
Proof.
  cbn [String.prefix]. destruct (ascii_dec " " c) as [<- | Hne].
  - reflexivity.
  - destruct (Ascii.eqb c " ") eqn:E; [| reflexivity].
    apply Ascii.eqb_eq in E. congruence.
Qed.

Lemma space_is_space : is_space " " = true.
Proof. reflexivity. Qed.

(** No two blanks in a row are left, and after a space the result does not
    begin with a blank. *)
Lemma sub_spaces_single (s : string) :
  forall in_run : bool,
    contains "  " (sub_spaces in_run s) = false
    /\ (in_run = true -> String.prefix " " (sub_spaces in_run s) = false).
Proof.
  induction s as [| c s IH]; intros in_run.
  - split; [reflexivity | intros _; reflexivity].
  - cbn [sub_spaces]. destruct (is_space c) eqn:E.
    + destruct (IH true) as [H1 H2]. destruct in_run.
      * split; [exact H1 | intros _; now apply H2].
      * split; [| discriminate].
        rewrite contains_cons, H1, prefix_blank_cons, H2 by reflexivity.
        reflexivity.
    + destruct (IH false) as [H1 _].
      assert (Hc : Ascii.eqb c " " = false).
      { destruct (Ascii.eqb c " ") eqn:Ec; [| reflexivity].
        apply Ascii.eqb_eq in Ec. subst c. discriminate. }
      split.
      * now rewrite contains_cons, H1, prefix_blank_cons, Hc.
      * intros _. now rewrite prefix_blank_cons, Hc.
Qed.

Lemma sub_spaces_visible (s : string) (in_run : bool) :
  visible (sub_spaces in_run s) = visible s.
Proof.
  revert in_run. induction s as [| c s IH]; intros in_run; [reflexivity |].
  cbn [sub_spaces]. rewrite (visible_cons c s).
  destruct (is_space c) eqn:E.
  - destruct in_run; [apply IH |].
    rewrite visible_cons, space_is_space. apply IH.
  - now rewrite visible_cons, E, IH.
Qed.

Lemma visible_nonempty (s : string) : visible s <> [] -> s <> "".
Proof. intros H ->. now apply H. Qed.

Lemma rstrip_visible (x : string) : rstrip x <> "" -> visible x <> [].
Proof.
  induction x as [| c x IH]; [easy |]. rewrite rstrip_eq, visible_cons.
  destruct (rstrip x) as [| d r].
  - destruct (is_space c); [easy | discriminate].
  - intros _. destruct (is_space c); [now apply IH | discriminate].
Qed.

(** A string with a visible last character keeps it. *)
Lemma sub_spaces_rstrip (s : string) :
  forall in_run : bool,
    rstrip s = s -> rstrip (sub_spaces in_run s) = sub_spaces in_run s.
Proof.
  induction s as [| c s IH]; intros in_run H; [reflexivity |].
  rewrite rstrip_eq in H. destruct (rstrip s) as [| d r] eqn:Er.
  - destruct (is_space c) eqn:E; [discriminate |].
    injection H as <-. cbn [sub_spaces]. rewrite E.
    rewrite rstrip_eq. cbn [rstrip]. now rewrite E.
  - injection H as Hs. rewrite Hs in Er.
    assert (Hne : forall b, sub_spaces b s <> "").
    { intros b. apply visible_nonempty. rewrite sub_spaces_visible.
      apply rstrip_visible. rewrite Er, <- Hs. discriminate. }
    assert (Hcons : forall x b,
               rstrip (String x (sub_spaces b s))
               = String x (sub_spaces b s)).
    { intros x b. rewrite rstrip_eq, (IH b Hs).
      specialize (Hne b). now destruct (sub_spaces b s). }
    cbn [sub_spaces]. destruct (is_space c).
    + destruct in_run; [now apply IH | apply Hcons].
    + apply Hcons.
Qed.

(** On a stripped sentence that is not empty the final [strip] of
    [_normalize_claim] changes nothing. *)
Lemma normalize_stripped (x : string) :
  strip x <> "" ->
  _normalize_claim (strip x) = sub_spaces false (strip x)
  /\ _normalize_claim (strip x) <> "".
Proof.
  intros Hne. unfold _normalize_claim.
  pose proof (sub_spaces_rstrip (strip x) false (strip_rstrip x)) as Hr.
  destruct (strip_head x) as [H | (c & r & H & E)]; [contradiction |].
  rewrite H in Hr |- *. cbn [sub_spaces] in Hr |- *. rewrite E in Hr |- *.
  unfold strip at 1 2. cbn [lstrip]. rewrite E, Hr. split; [reflexivity |].
  discriminate.
Qed.

(** *** The loop of [extract] *)

Section Loop.

Variable md5_hexdigest : string -> string.

(** What the loop records for a claim. *)
Lemma extract_from_spec (sentences : list string) :
  forall (idx : Z) (c : Claim.t),
    In c (extract_from md5_hexdigest idx sentences) ->
    exists (k : nat) (sent : string),
      sentences !! k = Some sent
      /\ Claim.position c = (idx + Z.of_nat k)%Z
      /\ Claim.source_sentence c = strip sent
      /\ strip sent <> ""
      /\ endswith (strip sent) "?" = false
      /\ _looks_factual (strip sent) = true
      /\ Claim.text c = _normalize_claim (strip sent)
      /\ Claim.id c = _generate_claim_id md5_hexdigest (Claim.text c)
      /\ Claim.claim_type c = _infer_claim_type (strip sent).
Proof.
  induction sentences as [| sent rest IH]; intros idx c Hin; [contradiction |].
  assert (Hrest : In c (extract_from md5_hexdigest (idx + 1) rest) ->
                  exists k sent0,
                    (sent :: rest) !! k = Some sent0
                    /\ Claim.position c = (idx + Z.of_nat k)%Z
                    /\ Claim.source_sentence c = strip sent0
                    /\ strip sent0 <> ""
                    /\ endswith (strip sent0) "?" = false
                    /\ _looks_factual (strip sent0) = true
                    /\ Claim.text c = _normalize_claim (strip sent0)
                    /\ Claim.id c
                       = _generate_claim_id md5_hexdigest (Claim.text c)
                    /\ Claim.claim_type c = _infer_claim_type (strip sent0)).
  { intros H. destruct (IH _ _ H) as (k & sent0 & Hk & Hp & Hrec).
    exists (S k), sent0. split; [exact Hk |]. split; [lia | exact Hrec]. }
  cbn [extract_from] in Hin.
  destruct (truthy (strip sent)) eqn:Et; cbn [negb] in Hin;
    [| now apply Hrest].
  destruct (endswith (strip sent) "?") eqn:Eq; [now apply Hrest |].
  destruct (_looks_factual (strip sent)) eqn:Ef; cbn [negb] in Hin;
    [| now apply Hrest].
  destruct Hin as [<- | Hin]; [| now apply Hrest].
  exists 0%nat, sent. cbn [Claim.position Claim.source_sentence Claim.text
                           Claim.id Claim.claim_type].
  split; [reflexivity |]. split; [lia |].
  split; [reflexivity |]. split; [intros H; now rewrite H in Et |].
  repeat split; assumption.
Qed.

Lemma extract_from_sorted (sentences : list string) :
  forall idx : Z,
    StronglySorted (fun a b => (Claim.position a < Claim.position b)%Z)
      (extract_from md5_hexdigest idx sentences).
Proof.
  induction sentences as [| sent rest IH]; intros idx; [constructor |].
  cbn [extract_from].
  destruct (negb (truthy (strip sent))); [apply IH |].
  destruct (endswith (strip sent) "?"); [apply IH |].
  destruct (negb (_looks_factual (strip sent))); [apply IH |].
  constructor; [apply IH |].
  apply List.Forall_forall. intros c Hin.
  destruct (extract_from_spec _ _ _ Hin) as (k & _ & _ & Hp & _).
  cbn [Claim.position]. lia.
Qed.

Lemma extract_from_length (sentences : list string) :
  forall idx : Z,
    (length (extract_from md5_hexdigest idx sentences)
     <= length sentences)%nat.
Proof.
  induction sentences as [| sent rest IH]; intros idx; [reflexivity |].
  cbn [extract_from length].
  destruct (negb (truthy (strip sent))); [specialize (IH (idx + 1)%Z); lia |].
  destruct (endswith (strip sent) "?"); [specialize (IH (idx + 1)%Z); lia |].
  destruct (negb (_looks_factual (strip sent)));
    specialize (IH (idx + 1)%Z); cbn [length]; lia.
Qed.

Lemma extract_from_unfactual (sentences : list string) :
  forall idx : Z,
    Forall (fun sent => _looks_factual (strip sent) = false) sentences ->
    extract_from md5_hexdigest idx sentences = [].
Proof.
  induction sentences as [| sent rest IH]; intros idx H; [reflexivity |].
  inversion H as [| ? ? Hs Hr]; subst. cbn [extract_from].
  rewrite Hs. cbn [negb].
  destruct (negb (truthy (strip sent))); [now apply IH |].
  destruct (endswith (strip sent) "?"); now apply IH.
Qed.





End Loop.


End ExtractorLaws.

(** ** The laws at work on the sample deployments *)

Module LawExamples.

Import Py HalluShieldState HalluShieldPipeline RunSpec Samples Cases.

Lemma heuristic_scores_sum_to_one_witness :
  VerificationResult.support_score paris_verdict
  + VerificationResult.contradiction_score paris_verdict
  + VerificationResult.neutral_score paris_verdict == 1
  /\ 0 <= VerificationResult.neutral_score paris_verdict
  /\ VerificationResult.neutral_score paris_verdict <= 0.8
  /\ VerificationResult.evidence_agreement paris_verdict
     = VerificationResult.support_score paris_verdict.
Proof.
  apply (VerifierLaws.heuristic_scores_sum_to_one no_loads no_float no_llm
           None None None None None None "c1" paris [placeholder_evidence]
           paris_verdict).
  - discriminate.
  - vm_compute. reflexivity.
  - vm_compute. reflexivity.
Defined.


Lemma verify_rejects_verdict_that_is_no_object_witness :
  NLIVerifier.verify loads_list no_float llm_list (Some "google") None
    (Some "key") None None None "c1" paris [placeholder_evidence]
  = Raise "AttributeError".
Proof.
  apply (VerifierLaws.verify_rejects_verdict_that_is_no_object loads_list
           no_float llm_list (Some "google") None (Some "key") None None None
           "c1" paris [placeholder_evidence] (JArr [])).
  - discriminate.
  - vm_compute. reflexivity.
  - discriminate.
  - discriminate.
Defined.


Lemma retrieve_returns_at_most_top_k_witness :
  (len paris_evidence <= Z.min 5 5)%Z.
Proof.
  apply (RetrieverLaws.retrieve_returns_at_most_top_k None true
           (fun _ _ => EvidenceRetriever.HTTPError)
           (fun _ _ => EvidenceRetriever.HTTPError) paris 5 paris_evidence).
  - lia.
  - vm_compute. reflexivity.
Defined.

Lemma retrieve_orders_by_relevance_witness :
  StronglySorted
    (fun a b => Evidence.relevance_score b <= Evidence.relevance_score a)
    paris_evidence.
Proof.
  apply (RetrieverLaws.retrieve_orders_by_relevance None true
           (fun _ _ => EvidenceRetriever.HTTPError)
           (fun _ _ => EvidenceRetriever.HTTPError) paris 5 paris_evidence).
  vm_compute. reflexivity.
Defined.

Lemma retrieve_items_have_url_and_snippet_witness :
  Evidence.source_url (hd placeholder_evidence paris_evidence) <> ""
  /\ Evidence.snippet (hd placeholder_evidence paris_evidence) <> "".
Proof.
  apply (RetrieverLaws.retrieve_items_have_url_and_snippet None true
           (fun _ _ => EvidenceRetriever.HTTPError)
           (fun _ _ => EvidenceRetriever.HTTPError) paris 5 paris_evidence
           (hd placeholder_evidence paris_evidence)).
  - vm_compute. reflexivity.
  - vm_compute. left. reflexivity.
Defined.

Lemma wikipedia_urls_have_no_space_witness :
  contains " "
    (Evidence.source_url (hd placeholder_evidence wiki_paris_evidence))
  = false.
Proof.
  apply (RetrieverLaws.wikipedia_urls_have_no_space true wiki_paris paris 2
           wiki_paris_evidence (hd placeholder_evidence wiki_paris_evidence)).
  - vm_compute. reflexivity.
  - vm_compute. left. reflexivity.
Defined.

Lemma placeholder_evidence_accepts_every_claim_witness :
  VerificationResult.support_score paris_placeholder_verdict == 1
  /\ Decision.action
       (AdaptiveDecisionPolicy.decide lone_claim paris_placeholder_verdict
          paris_evidence) = "ACCEPT"
  /\ Decision.confidence
       (AdaptiveDecisionPolicy.decide lone_claim paris_placeholder_verdict
          paris_evidence) == 1.
Proof.
  apply (DegradedLaws.placeholder_evidence_accepts_every_claim None true
           (fun _ _ => EvidenceRetriever.HTTPError)
           (fun _ _ => EvidenceRetriever.HTTPError) no_loads no_float no_llm
           None None None None None None "c1" paris 5 paris_evidence
           paris_placeholder_verdict lone_claim).
  - reflexivity.
  - lia.
  - vm_compute. discriminate.
  - vm_compute. reflexivity.
  - vm_compute. reflexivity.
  - vm_compute. reflexivity.
Defined.

Lemma small_model_falls_back_once_witness :
  exists response,
    (ModelRouter.get_response (Some "key") None None None groq_paris hf_down
       gemini_down claude_down "What is the capital of France?" "auto"
       "llama-3.3-70b-versatile" "gemini-2.5-flash" ModelRouter.new).1
    = Ok response
    /\ ModelResponse.provider response = "groq"
    /\ ModelResponse.tier response = "slm"
    /\ ModelResponse.model response = "llama-3.3-70b-versatile"
    /\ ModelResponse.text response
       = "Paris is the capital of France and it lies on the river Seine."
    /\ ModelRouter.api_calls
         (ModelRouter.get_response (Some "key") None None None groq_paris
            hf_down gemini_down claude_down "What is the capital of France?"
            "auto" "llama-3.3-70b-versatile" "gemini-2.5-flash"
            ModelRouter.new).2
       = 1%nat.
Proof.
  apply (RouterLaws.small_model_falls_back_once (Some "key") None None None
           groq_paris hf_down gemini_down claude_down
           "What is the capital of France?" "auto" "llama-3.3-70b-versatile"
           "gemini-2.5-flash" ModelRouter.new).
  discriminate.
Defined.

Lemma total_cost_never_decreases_witness :
  ModelRouter.total_cost (ModelRouter.stats ModelRouter.new)
  <= ModelRouter.total_cost
       (ModelRouter.stats
          (ModelRouter.get_response (Some "key") None None None groq_paris
             hf_down gemini_down claude_down "What is the capital of France?"
             "auto" "llama-3.3-70b-versatile" "gemini-2.5-flash"
             ModelRouter.new).2).
Proof.
  apply (RouterLaws.total_cost_never_decreases (Some "key") None None None
           groq_paris hf_down gemini_down claude_down).
  - intros n query model completion p c total [= <-] [= _ _ <-]. lia.
  - discriminate.
Defined.



Lemma all_cached_means_every_claim_hit_witness :
  (forall c,
     In c (claims_of asked_again) ->
     stored first_request.2 (Claim.text c) <> None
     /\ cached_of (_check_memory asked_again first_request.2) !! Claim.id c
        <> None)
  /\ List.NoDup (map Claim.id (claims_of asked_again)).
Proof.
  apply (StageLaws.all_cached_means_every_claim_hit asked_again
           first_request.2).
  vm_compute. reflexivity.
Defined.

Lemma claim_breakdown_adds_up_witness :
  exists answer,
    final_answer (_assemble_answer reviewed_state) = Some answer
    /\ total_claims (claim_breakdown answer)
       = len (decisions_of reviewed_state)
    /\ (verified (claim_breakdown answer)
        + corrected (claim_breakdown answer)
        + abstained (claim_breakdown answer)
        + flagged (claim_breakdown answer)
        = total_claims (claim_breakdown answer))%Z
    /\ 0 <= HalluShieldState.hallucination_score answer <= 1.
Proof.
  apply (StageLaws.claim_breakdown_adds_up reviewed_state).
  repeat constructor; cbn; tauto.
Defined.

Lemma answered_request_is_complete_witness :
  Answered.complete "What is the capital of France?" None
    (final_state first_request)
  /\ map Decision.claim_id (decisions_of (final_state first_request))
     = map Claim.id (claims_of (final_state first_request))
  /\ map Decision.original_claim (decisions_of (final_state first_request))
     = map Claim.text (claims_of (final_state first_request))
  /\ exists answer,
       final_answer (final_state first_request) = Some answer
       /\ original_answer answer
          = default "" (raw_llm_response (final_state first_request))
       /\ total_claims (claim_breakdown answer)
          = len (claims_of (final_state first_request)).
Proof.
  apply (RequestLaws.answered_request_is_complete None None (Some "key") None
           None None groq_paris hf_down gemini_down claude_down one_claim
           retrieve_placeholders verify_heuristic true
           "What is the capital of France?" None fresh_world
           (final_state first_request) first_request.2).
  vm_compute. reflexivity.
Defined.


End LawExamples.
